(** * The UTCP/NETCONF chat client ([llm_utcp_client.py]) and the NETCONF
      service ([app.py]), embedded in Rocq

    The development follows the Python sources top-down:

    - [Text]: Python [str] values as lists of code points;
    - [Re]: the fragment of [re] the two patterns of the client are written in,
      as a backtracking matcher;
    - [PyFloat], [Json]: the values [json.loads] produces, the decoder, the
      encoder [json.dumps(_, indent=2)] and [str()] on those values;
    - [Client]: [extract_tool_json], the prompt builders, [chat_complete],
      [init_utcp] and [handle_user_query] over an explicit program state
      (heap of list objects, the module global [_utcp_client], the outside
      world and the trace of calls made to it);
    - [Script]: stand-ins for the outside world that answer from a script;
    - [Tasks]: [init_utcp] as an asyncio coroutine that can be suspended at
      its [await];
    - [Spec]: the vocabulary the statements are written in;
    - [Ui]: the Gradio callbacks [on_submit] and [on_clear] of the client;
    - [App]: the service of [app.py], its helpers [_env], [_mask], [_device],
      [_escape], [_merge_to_model] and its four endpoints, over the state of
      the server (environment, log, sessions, network);
    - [Terms]: more vocabulary, for the statements about [Ui], [App] and the
      JSON texts;
    - the theorems. *)

From Stdlib Require Import ZArith NArith List String Ascii Bool Lia DecimalString
  DecimalPos.
From stdpp Require Import base option list gmap.

Local Open Scope N_scope.

(* ===================================================================== *)
(** * Text *)
(* ===================================================================== *)

Module Text.

(** A Python [str] is a sequence of Unicode code points. *)
Abbreviation char := N (only parsing).
Abbreviation text := (list N) (only parsing).

Definition chr (a : ascii) : char := N_of_ascii a.

(** The text of a literal. *)
Definition str (s : string) : text := map chr (list_ascii_of_string s).

(** The text of a literal in which every apostrophe stands for a double
    quote (code point 34), which a literal cannot hold. *)
Definition qstr (s : string) : text :=
  map (fun c => if c =? 39 then 34 else c) (str s).

Definition nl : text := [10].

#[global] Arguments str : simpl never.
#[global] Arguments qstr : simpl never.

(** [s.startswith(p)], returning the rest of [s] behind the prefix. *)
Fixpoint after_prefix (p s : text) : option text :=
  match p, s with
  | [], _ => Some s
  | c :: p', c' :: s' => if c =? c' then after_prefix p' s' else None
  | _ :: _, [] => None
  end.

(** The text behind the longest run of characters of a class at its head. *)
Fixpoint drop_while (p : char -> bool) (s : text) : text :=
  match s with
  | c :: s' => if p c then drop_while p s' else s
  | [] => []
  end.

(** [sub in s] on two strings: [sub] occurs in [s] as a contiguous run. *)
Definition occurs_in (sub s : text) : Prop :=
  exists pre post, s = pre ++ sub ++ post.

(** [str.isspace()] on one code point; this is also what [\s] matches in a
    [str] pattern. *)
Definition is_space (c : char) : bool :=
  ((9 <=? c) && (c <=? 13)) || ((28 <=? c) && (c <=? 32))
  || (c =? 133) || (c =? 160) || (c =? 5760)
  || ((8192 <=? c) && (c <=? 8202))
  || (c =? 8232) || (c =? 8233) || (c =? 8239) || (c =? 8287) || (c =? 12288).

End Text.
Export Text.

(* ===================================================================== *)
(** * Regular expressions *)
(* ===================================================================== *)

Module Re.

(** The constructs the client's patterns use.  Repetition is over a single
    character class, greedy ([x*]) or lazy ([x*?]); both patterns have one
    capturing group. *)
Inductive regex :=
| Eps
| Lit (c : char)
| Star (p : char -> bool)
| StarLazy (p : char -> bool)
| Group (r : regex)
| Seq (r1 r2 : regex).

(** Concatenation of several pieces, and a run of literal characters. *)
Definition cat (rs : list regex) : regex := foldr Seq Eps rs.
Definition lits (t : text) : regex := cat (map Lit t).

(** Greedy repetition: take as many characters as the class allows, and
    give them back one at a time while the rest of the pattern fails. *)
Fixpoint star_greedy {A} (p : char -> bool) (k : text -> option A) (s : text)
  : option A :=
  match s with
  | c :: s' =>
      if p c then
        match star_greedy p k s' with
        | Some r => Some r
        | None => k s
        end
      else k s
  | [] => k []
  end.

(** Lazy repetition: try the rest of the pattern first, and take one more
    character each time it fails. *)
Fixpoint star_lazy {A} (p : char -> bool) (k : text -> option A) (s : text)
  : option A :=
  match k s with
  | Some r => Some r
  | None =>
      match s with
      | c :: s' => if p c then star_lazy p k s' else None
      | [] => None
      end
  end.

(** A match object, reduced to what the client reads from it: [group(1)]
    ([None] when the group took no part in the match). *)
Record re_match := MatchObj { group1 : option text }.

(** [rmatch r s g k]: match [r] at the head of [s], with [g] the current
    capture of group 1, and continue with [k] on the rest; [None] is
    failure, which makes the caller backtrack. *)
Fixpoint rmatch (r : regex) (s : text) (g : option text)
    (k : text -> option text -> option re_match) : option re_match :=
  match r with
  | Eps => k s g
  | Lit c =>
      match s with
      | c' :: s' => if c =? c' then k s' g else None
      | [] => None
      end
  | Star p => star_greedy p (fun s' => k s' g) s
  | StarLazy p => star_lazy p (fun s' => k s' g) s
  | Group r1 =>
      rmatch r1 s g (fun s' _ => k s' (Some (take (length s - length s') s)))
  | Seq r1 r2 => rmatch r1 s g (fun s' g' => rmatch r2 s' g' k)
  end.

(** [pattern.match(s)]: a match at the very start of [s]. *)
Definition match_here (r : regex) (s : text) : option re_match :=
  rmatch r s None (fun _ g => Some (MatchObj g)).

(** [pattern.search(s)]: the match at the leftmost position that has one. *)
Fixpoint search (r : regex) (s : text) : option re_match :=
  match match_here r s with
  | Some m => Some m
  | None =>
      match s with
      | [] => None
      | _ :: s' => search r s'
      end
  end.

End Re.
Export Re.

(* ===================================================================== *)
(** * Floats *)
(* ===================================================================== *)

Module PyFloat.
Local Open Scope Z_scope.

(** A Python [float] is an IEEE 754 binary64 number: [FFin neg m e] is
    [m * 2^e], negated when [neg], with [2^52 <= m < 2^53] and
    [-1074 <= e <= 971] (normal) or [0 < m < 2^52] and [e = -1074]
    (subnormal). *)
Inductive pyfloat :=
| FNan
| FInf (neg : bool)
| FZero (neg : bool)
| FFin (neg : bool) (m e : Z).

Definition float_eqb (x y : pyfloat) : bool :=
  match x, y with
  | FInf a, FInf b | FZero a, FZero b => Bool.eqb a b
  | FFin a m e, FFin b m' e' => Bool.eqb a b && (m =? m') && (e =? e')
  | _, _ => false
  end.

(** [bool(x)], that is [x != 0.0]. *)
Definition float_bool (x : pyfloat) : bool :=
  match x with FZero _ => false | _ => true end.

(** The integer nearest to [n / d], ties to the even one. *)
Definition round_half_even (n d : Z) : Z :=
  let q := n / d in
  let r := n mod d in
  if 2 * r <? d then q
  else if d <? 2 * r then q + 1
  else if Z.even q then q else q + 1.

(** The binary64 number nearest to the positive rational [n / d]. *)
Definition round_binary64 (neg : bool) (n d : Z) : pyfloat :=
  let scaled k := if k <? 0 then (n * 2 ^ (- k), d) else (n, d * 2 ^ k) in
  let k0 := Z.max (Z.log2 n - Z.log2 d - 52) (-1074) in
  let k :=
    let '(n0, d0) := scaled k0 in
    if (n0 / d0 <? 2 ^ 52) && (-1074 <? k0) then k0 - 1 else k0 in
  let '(n1, d1) := scaled k in
  let q := round_half_even n1 d1 in
  let '(q, k) := if q =? 2 ^ 53 then (2 ^ 52, k + 1) else (q, k) in
  if q =? 0 then FZero neg
  else if 971 <? k then FInf neg
  else FFin neg q k.

(** [float(s)] for a decimal literal of value [M * 10^E], [0 <= M]. *)
Definition float_of_decimal (neg : bool) (M E : Z) : pyfloat :=
  if M =? 0 then FZero neg
  else if 0 <=? E then round_binary64 neg (M * 10 ^ E) 1
  else round_binary64 neg M (10 ^ (- E)).

(** Decimal digits of an integer, as [str(int)] prints them. *)
Definition dec (z : Z) : text := str (NilZero.string_of_int (Z.to_int z)).

Definition pow10 (p : Z) : Z * Z :=
  if 0 <=? p then (10 ^ p, 1) else (1, 10 ^ (- p)).

(** The least [p] from a starting point on with [xn / xd < 10^p]. *)
Fixpoint find_decpt (fuel : nat) (xn xd p : Z) : Z :=
  match fuel with
  | O => p
  | S fuel' =>
      let '(a, b) := pow10 p in
      if xn * b <? a * xd then p else find_decpt fuel' xn xd (p + 1)
  end.

(** The shortest decimal [D * 10^(p - n)], [n] digits, that reads back as
    [FFin neg m e]; of two with the same length the nearer one. *)
Fixpoint shortest (fuel : nat) (n : Z) (neg : bool) (m e xn xd p : Z) : Z * Z :=
  match fuel with
  | O => (0, n)
  | S fuel' =>
      let '(sn, sd) := pow10 (n - p) in
      let yn := xn * sn in
      let yd := xd * sd in
      let d := yn / yd in
      let r := yn mod yd in
      let back D := float_eqb (float_of_decimal neg D (p - n)) (FFin neg m e) in
      if back d && (negb (back (d + 1)) || (2 * r <=? yd)) then (d, n)
      else if back (d + 1) then (d + 1, n)
      else shortest fuel' (n + 1) neg m e xn xd p
  end.

Fixpoint strip_zeros (fuel : nat) (D : Z) : Z :=
  match fuel with
  | O => D
  | S fuel' => if (D mod 10 =? 0) && (0 <? D) then strip_zeros fuel' (D / 10) else D
  end.

Definition zeros (n : Z) : text := repeat 48%N (Z.to_nat n).

(** [float.__repr__] for the digits [ds] with the decimal point [decpt]
    places behind their start: exponent notation from [1e16] on and below
    [1e-4]. *)
Definition format_repr (ds : text) (decpt : Z) : text :=
  let len := Z.of_nat (length ds) in
  if (decpt <=? -4) || (16 <? decpt) then
    let ex := decpt - 1 in
    take 1 ds ++ (if 1 <? len then str "." ++ drop 1 ds else [])
    ++ str "e" ++ (if ex <? 0 then str "-" else str "+")
    ++ (if Z.abs ex <? 10 then str "0" else []) ++ dec (Z.abs ex)
  else if decpt <=? 0 then str "0." ++ zeros (- decpt) ++ ds
  else if len <=? decpt then ds ++ zeros (decpt - len) ++ str ".0"
  else take (Z.to_nat decpt) ds ++ str "." ++ drop (Z.to_nat decpt) ds.

Definition finite_repr (neg : bool) (m e : Z) : text :=
  let '(xn, xd) := if e <? 0 then (m, 2 ^ (- e)) else (m * 2 ^ e, 1) in
  let p := find_decpt 8 xn xd ((Z.log2 m + e) * 30103 / 100000 - 1) in
  let '(D, n) := shortest 17 1 neg m e xn xd p in
  let width := Z.of_nat (length (dec D)) in
  (if neg then str "-" else [])
  ++ format_repr (dec (strip_zeros 17 D)) (p + (width - n)).

(** [repr(x)], which is also [str(x)]. *)
Definition float_repr (x : pyfloat) : text :=
  match x with
  | FNan => str "nan"
  | FInf neg => if neg then str "-inf" else str "inf"
  | FZero neg => if neg then str "-0.0" else str "0.0"
  | FFin neg m e => finite_repr neg m e
  end.

End PyFloat.
Export PyFloat.

(* ===================================================================== *)
(** * Exceptions *)
(* ===================================================================== *)

Module Py.

(** A raised exception, reduced to what the client can observe of it:
    whether [except Exception] catches it (it does not catch
    [asyncio.CancelledError], [KeyboardInterrupt] and the other direct
    children of [BaseException]) and its [str()]. *)
Record exn := Exn { is_Exception : bool; exn_str : text }.

Definition TypeError (msg : text) : exn := Exn true msg.
Definition KeyError (msg : text) : exn := Exn true msg.

(** The outcome of evaluating an expression that may raise. *)
Inductive result (A : Type) :=
| Val (a : A)
| Raises (e : exn).
Arguments Val {A} a.
Arguments Raises {A} e.

#[global] Instance result_ret : MRet result := fun A a => Val a.
#[global] Instance result_bind : MBind result := fun A B f r =>
  match r with
  | Val a => f a
  | Raises e => Raises e
  end.

End Py.
Export Py.

(* ===================================================================== *)
(** * JSON values, [json.loads], [json.dumps], [str] *)
(* ===================================================================== *)

Module Json.

#[local] Set Warnings "-register-all".

(** The Python values [json.loads] builds.  [JNull] is [None].  A [dict]
    keeps its keys in insertion order and holds each key once. *)
Inductive json :=
| JNull
| JBool (b : bool)
| JInt (z : Z)
| JFloat (f : pyfloat)
| JStr (s : text)
| JArr (l : list json)
| JObj (d : list (text * json)).

Definition text_eqb (a b : text) : bool := bool_decide (a = b).

(** ** Dictionaries *)

Fixpoint dict_get (k : text) (d : list (text * json)) : option json :=
  match d with
  | [] => None
  | (k', v) :: d' => if text_eqb k k' then Some v else dict_get k d'
  end.

(** [d[k] = v]: a key already present keeps its place. *)
Fixpoint dict_set (k : text) (v : json) (d : list (text * json))
  : list (text * json) :=
  match d with
  | [] => [(k, v)]
  | (k', v') :: d' =>
      if text_eqb k k' then (k', v) :: d' else (k', v') :: dict_set k v d'
  end.

Definition dict_has (k : text) (d : list (text * json)) : bool :=
  bool_decide (is_Some (dict_get k d)).

(** ** The decoder *)

(** What a scanning function returns: a value and the text behind it, or
    a [JSONDecodeError].  [OutOfFuel] belongs to the model only, see
    [json_loads]. *)
Inductive parsed (A : Type) :=
| Parsed (a : A) (rest : text)
| Invalid
| OutOfFuel.
Arguments Parsed {A} a rest.
Arguments Invalid {A}.
Arguments OutOfFuel {A}.

(** [WHITESPACE = [ \t\n\r]*] *)
Definition is_json_ws (c : char) : bool :=
  (c =? 32) || (c =? 9) || (c =? 10) || (c =? 13).

Fixpoint skip_ws (s : text) : text :=
  match s with
  | c :: s' => if is_json_ws c then skip_ws s' else s
  | [] => []
  end.

Definition is_digit (c : char) : bool := (48 <=? c) && (c <=? 57).

Definition hex_digit (c : char) : option N :=
  if (48 <=? c) && (c <=? 57) then Some (c - 48)
  else if (97 <=? c) && (c <=? 102) then Some (c - 87)
  else if (65 <=? c) && (c <=? 70) then Some (c - 55)
  else None.

Definition hex4 (a b c d : char) : option N :=
  match hex_digit a, hex_digit b, hex_digit c, hex_digit d with
  | Some x, Some y, Some z, Some w => Some (((x * 16 + y) * 16 + z) * 16 + w)
  | _, _, _, _ => None
  end.

Definition is_high_surrogate (u : N) : bool := (55296 <=? u) && (u <=? 56319).
Definition is_low_surrogate (u : N) : bool := (56320 <=? u) && (u <=? 57343).
Definition join_surrogates (hi lo : N) : N :=
  65536 + (hi - 55296) * 1024 + (lo - 56320).

(** The character a backslash escape other than [\u] stands for: the
    double quote, the backslash and the slash for themselves, then
    [b f n r t]. *)
Definition unescape (c : char) : option char :=
  if c =? 34 then Some 34
  else if c =? 92 then Some 92
  else if c =? 47 then Some 47
  else if c =? 98 then Some 8
  else if c =? 102 then Some 12
  else if c =? 110 then Some 10
  else if c =? 114 then Some 13
  else if c =? 116 then Some 9
  else None.

(** [scanstring], entered behind the opening quote; [acc] holds the
    characters read so far, last one first. *)
Fixpoint scanstring (s : text) (acc : text) : parsed text :=
  match s with
  | [] => Invalid
  | c :: s1 =>
      if c =? 34 then Parsed (rev acc) s1
      else if c =? 92 then
        match s1 with
        | [] => Invalid
        | e :: s2 =>
            if e =? 117 then
              match s2 with
              | h1 :: h2 :: h3 :: h4 :: s3 =>
                  match hex4 h1 h2 h3 h4 with
                  | None => Invalid
                  | Some u =>
                      match s3 with
                      | b :: u' :: l1 :: l2 :: l3 :: l4 :: s4 =>
                          if is_high_surrogate u && (b =? 92) && (u' =? 117) then
                            match hex4 l1 l2 l3 l4 with
                            | None => Invalid
                            | Some u2 =>
                                if is_low_surrogate u2
                                then scanstring s4 (join_surrogates u u2 :: acc)
                                else scanstring s3 (u :: acc)
                            end
                          else scanstring s3 (u :: acc)
                      | _ => scanstring s3 (u :: acc)
                      end
                  end
              | _ => Invalid
              end
            else
              match unescape e with
              | Some c' => scanstring s2 (c' :: acc)
              | None => Invalid
              end
        end
      else if c <=? 31 then Invalid
      else scanstring s1 (c :: acc)
  end.

(** The longest run of digits at the head of [s], and the rest. *)
Fixpoint span_digits (s : text) : text * text :=
  match s with
  | c :: s' =>
      if is_digit c then let '(ds, r) := span_digits s' in (c :: ds, r)
      else ([], s)
  | [] => ([], [])
  end.

Definition digits_value (ds : text) : Z :=
  fold_left (fun acc c => (acc * 10 + Z.of_N (c - 48))%Z) ds 0%Z.

(** A number: an optional minus; [0] or digits that do not start with
    [0]; an optional fraction, a dot and digits; an optional exponent, [e]
    or [E], an optional sign and digits.  Without fraction and exponent
    it is an [int], else a [float]. *)
Definition match_number (s : text) : parsed json :=
  let '(neg, s1) :=
    match s with
    | c :: s' => if c =? 45 then (true, s') else (false, s)
    | [] => (false, s)
    end in
  let int_part :=
    match s1 with
    | c :: s2 =>
        if c =? 48 then Some ([c], s2)
        else if is_digit c then Some (span_digits s1)
        else None
    | [] => None
    end in
  match int_part with
  | None => Invalid
  | Some (ip, s2) =>
      let '(frac, s3) :=
        match s2 with
        | dot :: d :: _ =>
            if (dot =? 46) && is_digit d then span_digits (drop 1 s2)
            else ([], s2)
        | _ => ([], s2)
        end in
      let '(ex, s4) :=
        match s3 with
        | e :: s3' =>
            if (e =? 101) || (e =? 69) then
              let '(eneg, s3'') :=
                match s3' with
                | sg :: t =>
                    if sg =? 45 then (true, t)
                    else if sg =? 43 then (false, t)
                    else (false, s3')
                | [] => (false, s3')
                end in
              match span_digits s3'' with
              | ([], _) => (None, s3)
              | (eds, r) =>
                  (Some (if eneg then (- digits_value eds)%Z else digits_value eds), r)
              end
            else (None, s3)
        | [] => (None, s3)
        end in
      match frac, ex with
      | [], None =>
          Parsed (JInt (if neg then (- digits_value ip)%Z else digits_value ip)) s4
      | _, _ =>
          Parsed (JFloat (float_of_decimal neg (digits_value (ip ++ frac))
                            (default 0%Z ex - Z.of_nat (length frac)))) s4
      end
  end.

(** [scan_once] with the object and array loops it calls.  [object_members]
    is entered at a key with the dictionary built so far, [array_items] at
    an element with the elements read so far, last one first. *)
Fixpoint scan_once (fuel : nat) (s : text) : parsed json :=
  match fuel with
  | O => OutOfFuel
  | S n =>
      match s with
      | [] => Invalid
      | c :: s1 =>
          if c =? 34 then
            match scanstring s1 [] with
            | Parsed t r => Parsed (JStr t) r
            | Invalid => Invalid
            | OutOfFuel => OutOfFuel
            end
          else if c =? 123 then
            match skip_ws s1 with
            | c1 :: r => if c1 =? 125 then Parsed (JObj []) r
                         else object_members n [] (c1 :: r)
            | [] => Invalid
            end
          else if c =? 91 then
            match skip_ws s1 with
            | c1 :: r => if c1 =? 93 then Parsed (JArr []) r
                         else array_items n [] (c1 :: r)
            | [] => Invalid
            end
          else
            match after_prefix (str "null") s, after_prefix (str "true") s,
                  after_prefix (str "false") s with
            | Some r, _, _ => Parsed JNull r
            | _, Some r, _ => Parsed (JBool true) r
            | _, _, Some r => Parsed (JBool false) r
            | None, None, None =>
                match after_prefix (str "NaN") s, after_prefix (str "Infinity") s,
                      after_prefix (str "-Infinity") s with
                | Some r, _, _ => Parsed (JFloat FNan) r
                | _, Some r, _ => Parsed (JFloat (FInf false)) r
                | _, _, Some r => Parsed (JFloat (FInf true)) r
                | None, None, None => match_number s
                end
            end
      end
  end
with object_members (fuel : nat) (d : list (text * json)) (s : text)
  : parsed json :=
  match fuel with
  | O => OutOfFuel
  | S n =>
      match s with
      | [] => Invalid
      | q :: s1 =>
          if negb (q =? 34) then Invalid else
          match scanstring s1 [] with
          | Invalid => Invalid
          | OutOfFuel => OutOfFuel
          | Parsed key s2 =>
              match skip_ws s2 with
              | [] => Invalid
              | colon :: s3 =>
                  if negb (colon =? 58) then Invalid else
                  match scan_once n (skip_ws s3) with
                  | Invalid => Invalid
                  | OutOfFuel => OutOfFuel
                  | Parsed v s4 =>
                      let d' := dict_set key v d in
                      match skip_ws s4 with
                      | [] => Invalid
                      | c :: s5 =>
                          if c =? 125 then Parsed (JObj d') s5
                          else if c =? 44 then object_members n d' (skip_ws s5)
                          else Invalid
                      end
                  end
              end
          end
      end
  end
with array_items (fuel : nat) (acc : list json) (s : text) : parsed json :=
  match fuel with
  | O => OutOfFuel
  | S n =>
      match scan_once n s with
      | Invalid => Invalid
      | OutOfFuel => OutOfFuel
      | Parsed v s1 =>
          match skip_ws s1 with
          | [] => Invalid
          | c :: s2 =>
              if c =? 93 then Parsed (JArr (rev (v :: acc))) s2
              else if c =? 44 then array_items n (v :: acc) (skip_ws s2)
              else Invalid
          end
      end
  end.

(** [json.loads(s)]: [None] stands for a raised [JSONDecodeError], which is
    a [ValueError].  A scan spends at most two units of fuel for each
    character it consumes, so the fuel given here never runs out (lemma
    [json_loads_fuel]).  The interpreter's own limits (recursion depth,
    digits of an [int] literal) are not part of the model. *)
Definition json_loads (s : text) : option json :=
  match s with
  | c :: _ => if c =? 65279 then None else
      match scan_once (S (2 * length s)) (skip_ws s) with
      | Parsed v r => match skip_ws r with [] => Some v | _ :: _ => None end
      | _ => None
      end
  | [] => None
  end.

(** ** The encoder, [json.dumps(v, indent=2)] *)

Definition hex_char (d : N) : char := if d <? 10 then 48 + d else 87 + d.

(** [n] in lower-case hexadecimal, [width] digits. *)
Fixpoint hex (width : nat) (n : N) : text :=
  match width with
  | O => []
  | S w => hex w (n / 16) ++ [hex_char (n mod 16)]
  end.

(** One character under [ensure_ascii]: the printable ASCII characters
    stand for themselves, except the double quote and the backslash. *)
Definition escape_ascii (c : char) : text :=
  if c =? 34 then [92; 34]
  else if c =? 92 then [92; 92]
  else if c =? 10 then str "\n"
  else if c =? 13 then str "\r"
  else if c =? 9 then str "\t"
  else if c =? 12 then str "\f"
  else if c =? 8 then str "\b"
  else if (32 <=? c) && (c <=? 126) then [c]
  else if c <? 65536 then str "\u" ++ hex 4 c
  else
    let n := c - 65536 in
    str "\u" ++ hex 4 (N.lor 55296 (N.land (N.shiftr n 10) 1023))
    ++ str "\u" ++ hex 4 (N.lor 56320 (N.land n 1023)).

Definition encode_basestring_ascii (s : text) : text :=
  [34] ++ concat (map escape_ascii s) ++ [34].

Definition float_json (x : pyfloat) : text :=
  match x with
  | FNan => str "NaN"
  | FInf neg => if neg then str "-Infinity" else str "Infinity"
  | _ => float_repr x
  end.

(** [sep.join(parts)] *)
Fixpoint join (sep : text) (parts : list text) : text :=
  match parts with
  | [] => []
  | [p] => p
  | p :: ps => p ++ sep ++ join sep ps
  end.

(** A line break and the indentation of nesting depth [level]. *)
Definition newline_indent (level : nat) : text :=
  nl ++ repeat 32 (2 * level)%nat.

Fixpoint dumps_at (level : nat) (v : json) : text :=
  match v with
  | JNull => str "null"
  | JBool b => if b then str "true" else str "false"
  | JInt z => dec z
  | JFloat f => float_json f
  | JStr s => encode_basestring_ascii s
  | JArr [] => str "[]"
  | JArr l =>
      str "[" ++ newline_indent (S level)
      ++ join (str "," ++ newline_indent (S level)) (map (dumps_at (S level)) l)
      ++ newline_indent level ++ str "]"
  | JObj [] => str "{}"
  | JObj d =>
      str "{" ++ newline_indent (S level)
      ++ join (str "," ++ newline_indent (S level))
           (map (fun kv => encode_basestring_ascii (fst kv) ++ str ": "
                           ++ dumps_at (S level) (snd kv)) d)
      ++ newline_indent level ++ str "}"
  end.

Definition json_dumps (v : json) : text := dumps_at 0 v.

(** ** [repr] and [str] *)

(** [repr] of a string.  [printable] is [str.isprintable] on one
    character, a table of the interpreter's Unicode database; it is
    consulted above the ASCII range only. *)
Definition repr_char (printable : char -> bool) (quote c : char) : text :=
  if (c =? quote) || (c =? 92) then [92; c]
  else if c =? 9 then str "\t"
  else if c =? 10 then str "\n"
  else if c =? 13 then str "\r"
  else if (c <? 32) || (c =? 127) then str "\x" ++ hex 2 c
  else if c <? 127 then [c]
  else if printable c then [c]
  else if c <=? 255 then str "\x" ++ hex 2 c
  else if c <=? 65535 then str "\u" ++ hex 4 c
  else str "\U" ++ hex 8 c.

Definition has_char (c : char) (s : text) : bool := existsb (N.eqb c) s.

Definition str_repr (printable : char -> bool) (s : text) : text :=
  let quote := if has_char 39 s && negb (has_char 34 s) then 34 else 39 in
  [quote] ++ concat (map (repr_char printable quote) s) ++ [quote].

Fixpoint py_repr (printable : char -> bool) (v : json) : text :=
  match v with
  | JNull => str "None"
  | JBool b => if b then str "True" else str "False"
  | JInt z => dec z
  | JFloat f => float_repr f
  | JStr s => str_repr printable s
  | JArr l => str "[" ++ join (str ", ") (map (py_repr printable) l) ++ str "]"
  | JObj d =>
      str "{"
      ++ join (str ", ")
           (map (fun kv => str_repr printable (fst kv) ++ str ": "
                           ++ py_repr printable (snd kv)) d)
      ++ str "}"
  end.

(** [str(v)], which is also what [{v}] inserts into an f-string. *)
Definition py_str (printable : char -> bool) (v : json) : text :=
  match v with
  | JStr s => s
  | _ => py_repr printable v
  end.

(** ** Truth value, membership, subscript *)

(** [bool(v)] *)
Definition py_bool (v : json) : bool :=
  match v with
  | JNull => false
  | JBool b => b
  | JInt z => negb (z =? 0)%Z
  | JFloat f => float_bool f
  | JStr s => negb (bool_decide (s = []))
  | JArr l => negb (bool_decide (l = []))
  | JObj d => negb (bool_decide (d = []))
  end.

(** [sub in s] on two strings. *)
Fixpoint str_contains (sub s : text) : bool :=
  match after_prefix sub s with
  | Some _ => true
  | None => match s with [] => false | _ :: s' => str_contains sub s' end
  end.

Definition type_name (v : json) : text :=
  match v with
  | JNull => str "NoneType"
  | JBool _ => str "bool"
  | JInt _ => str "int"
  | JFloat _ => str "float"
  | JStr _ => str "str"
  | JArr _ => str "list"
  | JObj _ => str "dict"
  end.

(** [k in v] for a string [k]: a key of a dict, an element of a list, a
    substring of a string; the other values are not containers. *)
Definition py_in (k : text) (v : json) : result bool :=
  match v with
  | JObj d => Val (dict_has k d)
  | JArr l => Val (existsb (fun x => match x with JStr s => text_eqb k s | _ => false end) l)
  | JStr s => Val (str_contains k s)
  | _ => Raises (TypeError (str "argument of type '" ++ type_name v
                            ++ str "' is not iterable"))
  end.

(** [v[k]] for a string [k]. *)
Definition py_getitem (printable : char -> bool) (v : json) (k : text)
  : result json :=
  match v with
  | JObj d =>
      match dict_get k d with
      | Some x => Val x
      | None => Raises (KeyError (str_repr printable k))
      end
  | JArr _ =>
      Raises (TypeError (str "list indices must be integers or slices, not str"))
  | JStr _ => Raises (TypeError (str "string indices must be integers, not 'str'"))
  | _ => Raises (TypeError (str "'" ++ type_name v
                            ++ str "' object is not subscriptable"))
  end.

End Json.
Export Json.

(* ===================================================================== *)
(** * The client *)
(* ===================================================================== *)

Module Client.

(** ** Patterns and [extract_tool_json] *)

Definition any_char (c : char) : bool := true.

(** [TOOL_JSON_RE = re.compile(r"```json\s*({.*?})\s*```", re.DOTALL)];
    123 and 125 are the code points of the opening and the closing brace,
    and under [re.DOTALL] the dot matches every character. *)
Definition TOOL_JSON_RE : regex :=
  cat [ lits (str "```json"); Star is_space;
        Group (cat [ Lit 123; StarLazy any_char; Lit 125 ]);
        Star is_space; lits (str "```") ].

(** The pattern of the fallback, [r"(\{[\s\S]*\})"]. *)
Definition FALLBACK_RE : regex :=
  Group (cat [ Lit 123; Star (fun c => is_space c || negb (is_space c)); Lit 125 ]).

(** [extract_tool_json(s)]; [JNull] is the [None] it returns. *)
Definition extract_tool_json (s : text) : json :=
  let m := search TOOL_JSON_RE s in
  let m :=
    match m with
    | Some _ => m
    | None => search FALLBACK_RE s      (* fallback: first {...} block *)
    end in
  match m with
  | None => JNull
  | Some m =>
      match group1 m with
      | Some g =>
          match json_loads g with
          | Some v => v
          | None => JNull                  (* except Exception: return None *)
          end
      | None => JNull
      end
  end.

(** ** Prompts *)

Definition TOOL_CALL_SYSTEM : text :=
  str "You are a careful network automation assistant." ++ nl
  ++ str "You have access to a set of tools via UTCP. When a tool is needed, you MUST reply with ONLY a JSON object" ++ nl
  ++ str "containing exactly two keys: 'tool_name' and 'arguments' (arguments must be a JSON object). No other text." ++ nl
  ++ qstr "Example: {'tool_name': 'netconf_tools.netconf_get_config', 'arguments': {'host':'1.2.3.4', 'source':'running'}}"
  ++ nl ++ nl
  ++ str "Here are the available tools (names, descriptions, and JSON argument schemas):" ++ nl.

Definition FINAL_ANSWER_SYSTEM : text :=
  str "You are a helpful assistant. Use the provided tool output to answer the user's request concisely and clearly." ++ nl
  ++ str "If the tool failed, explain the error and suggest the next troubleshooting step." ++ nl.

(** A turn of the conversation is a tuple [(role, content)], a message of
    the completion API a dict with the keys [role] and [content]. *)
Abbreviation turn := (list N * list N)%type (only parsing).
Record message := Message { role : text; content : text }.

(** A [Tool] of the UTCP library, seen through its [model_dump()]. *)
Record Tool := { model_dump : json }.

(** [tools_to_json_for_prompt(tools)] *)
Definition tools_to_json_for_prompt (tools : list Tool) : text :=
  json_dumps (JArr (map model_dump tools)).

(** ** The program state and the outside world *)

(** Identity of a [UtcpClient] object, address of a list object. *)
Definition client := N.
Definition loc := positive.

(** A call out of the process, with what came back. *)
Inductive event :=
| Created (r : result client)
| Searched (c : client) (query : text) (limit : Z) (r : result (list Tool))
| Completed (messages : list message) (r : result (option text))
| ToolCalled (c : client) (tool_name arguments : json) (r : result json).

(** The outside world, with a state of its own of type [W]:
    - [UtcpClient_create]: [UtcpClient.create(cfg)];
    - [client_search_tools c query limit]: [c.search_tools(query, limit=limit)];
    - [completions_create messages]: [oai.chat.completions.create] with the
      fixed model and temperature, up to [resp.choices[0].message.content],
      which may be [None];
    - [client_call_tool c tool_name arguments]: [c.call_tool(...)], whose
      result is taken to be a JSON value;
    - [isprintable]: the interpreter's table behind [str.isprintable]. *)
Record World (W : Type) := {
  isprintable : char -> bool;
  UtcpClient_create : W -> result client * W;
  client_search_tools : client -> text -> Z -> W -> result (list Tool) * W;
  completions_create : list message -> W -> result (option text) * W;
  client_call_tool : client -> json -> json -> W -> result json * W;
}.
Arguments isprintable {W}.
Arguments UtcpClient_create {W}.
Arguments client_search_tools {W}.
Arguments completions_create {W}.
Arguments client_call_tool {W}.

Section Program.
Context {W : Type} (world : World W).

(** The state of the process: the list objects on the heap, the module
    global [_utcp_client] ([None] until the first [init_utcp]), the state
    of the outside world, and the calls made so far, oldest first. *)
Record state := State {
  heap : gmap loc (list turn);
  _utcp_client : option client;
  outside : W;
  trace : list event;
}.

(** How a computation ends: it returns, it raises, or it gets [Stuck] on an
    address that holds no object (which no Python program does). *)
Inductive outcome (A : Type) :=
| Returns (a : A) (σ : state)
| Throws (e : exn) (σ : state)
| Stuck.
Arguments Returns {A} a σ.
Arguments Throws {A} e σ.
Arguments Stuck {A}.

Definition M (A : Type) : Type := state -> outcome A.

#[global] Instance M_ret : MRet M := fun A a σ => Returns a σ.
#[global] Instance M_bind : MBind M := fun A B f m σ =>
  match m σ with
  | Returns a σ' => f a σ'
  | Throws e σ' => Throws e σ'
  | Stuck => Stuck
  end.

(** Evaluation of an expression that may raise. *)
Definition lift {A} (r : result A) : M A := fun σ =>
  match r with
  | Val a => Returns a σ
  | Raises e => Throws e σ
  end.

(** [try: body / except Exception as e: handler(e)] *)
Definition try_except {A} (body : M A) (handler : exn -> M A) : M A := fun σ =>
  match body σ with
  | Throws e σ' => if is_Exception e then handler e σ' else Throws e σ'
  | o => o
  end.

(** A call to the outside world: its answer is recorded in the trace. *)
Definition call_out {A} (f : W -> result A * W) (ev : result A -> event)
  : M A := fun σ =>
  let '(r, w) := f (outside σ) in
  let σ' := State (heap σ) (_utcp_client σ) w (trace σ ++ [ev r]) in
  match r with
  | Val a => Returns a σ'
  | Raises e => Throws e σ'
  end.

(** List objects: [list(l)] as an expression, [l.copy()], [l.append(x)]. *)
Definition list_read (l : loc) : M (list turn) := fun σ =>
  match heap σ !! l with
  | Some h => Returns h σ
  | None => Stuck
  end.

Definition list_copy (l : loc) : M loc := fun σ =>
  match heap σ !! l with
  | Some h =>
      let l' := fresh (dom (heap σ)) in
      Returns l' (State (<[l' := h]> (heap σ)) (_utcp_client σ) (outside σ) (trace σ))
  | None => Stuck
  end.

Definition list_append (l : loc) (x : turn) : M unit := fun σ =>
  match heap σ !! l with
  | Some h =>
      Returns tt (State (<[l := h ++ [x]]> (heap σ)) (_utcp_client σ) (outside σ) (trace σ))
  | None => Stuck
  end.

(** ** UTCP helpers *)

(** The module global [_utcp_client]. *)
Definition get_utcp_client : M (option client) := fun σ =>
  Returns (_utcp_client σ) σ.

Definition set_utcp_client (c : client) : M unit := fun σ =>
  Returns tt (State (heap σ) (Some c) (outside σ) (trace σ)).

(** [init_utcp()].  The configuration passed to [UtcpClient.create] is a
    constant of the module; a client object is true as a condition. *)
Definition init_utcp : M client :=
  g ← get_utcp_client;
  match g with
  | Some c => mret c
  | None =>
      c ← call_out (UtcpClient_create world) Created;
      set_utcp_client c;;
      mret c
  end.

(** [discover_tools(client, query, limit)] *)
Definition discover_tools (c : client) (query : text) (limit : Z)
  : M (list Tool) :=
  call_out (client_search_tools world c query limit) (Searched c query limit).

(** ** Messages *)

Definition messages_of (h : list turn) : list message :=
  map (fun t => Message (fst t) (snd t)) h.

(** [build_tool_call_messages(history, tools_json)]: first the list it
    builds from the turns of [history], then the function, which is handed
    the list object. *)
Definition tool_call_messages (h : list turn) (tools_json : text)
  : list message :=
  Message (str "system") (TOOL_CALL_SYSTEM ++ tools_json ++ nl)
  :: messages_of h.

Definition build_tool_call_messages (history : loc) (tools_json : text)
  : M (list message) :=
  h ← list_read history;
  mret (tool_call_messages h tools_json).

(** [build_final_messages(history, tool_output)], in the same way. *)
Definition final_messages (h : list turn) (tool_output : text)
  : list message :=
  Message (str "system") FINAL_ANSWER_SYSTEM
  :: messages_of h
  ++ [Message (str "user")
        (str "Tool output:" ++ nl ++ tool_output ++ nl ++ nl
         ++ str "Please answer the original request using this output.")].

Definition build_final_messages (history : loc) (tool_output : text)
  : M (list message) :=
  h ← list_read history;
  mret (final_messages h tool_output).

(** [content or ""] *)
Definition or_empty (content : option text) : text :=
  match content with
  | Some t => if negb (bool_decide (t = [])) then t else []
  | None => []
  end.

(** [chat_complete(messages)] *)
Definition chat_complete (messages : list message) : M text :=
  content ← call_out (completions_create world messages) (Completed messages);
  mret (or_empty content).

(** ** Orchestration per user query *)

(** The test [not tool_obj or "tool_name" not in tool_obj or "arguments"
    not in tool_obj], evaluated left to right. *)
Definition no_tool_chosen (tool_obj : json) : result bool :=
  if negb (py_bool tool_obj) then Val true
  else
    has_name ← py_in (str "tool_name") tool_obj;
    if negb has_name then Val true
    else
      has_args ← py_in (str "arguments") tool_obj;
      Val (negb has_args).

(** [handle_user_query(user_text, state_history)]: returns
    [(assistant_tool_json, tool_result_text, final_answer, updated_history)]. *)
Definition handle_user_query (user_text : text) (state_history : loc)
  : M (text * text * text * loc) :=
  client ← init_utcp;
  tools ← discover_tools client (str "netconf") 50;
  let tools_json := tools_to_json_for_prompt tools in
  (* Step 1: Ask model for a tool call (JSON only) *)
  history ← list_copy state_history;
  list_append history (str "user", user_text);;
  msgs_tool ← build_tool_call_messages history tools_json;
  assistant_raw ← chat_complete msgs_tool;
  let tool_obj := extract_tool_json assistant_raw in
  no_tool ← lift (no_tool_chosen tool_obj);
  if no_tool : bool then
    (* No tool chosen; just present the model's text *)
    list_append history (str "assistant", assistant_raw);;
    mret (assistant_raw, str "(no tool called)", assistant_raw, history)
  else
    (* Step 2: Execute the tool *)
    tool_name ← lift (py_getitem (isprintable world) tool_obj (str "tool_name"));
    arguments ← lift (py_getitem (isprintable world) tool_obj (str "arguments"));
    tool_result_text ←
      try_except
        (tool_result ← call_out (client_call_tool world client tool_name arguments)
                                (ToolCalled client tool_name arguments);
         mret (json_dumps tool_result))
        (fun e =>
           mret (str "Tool call error for " ++ py_str (isprintable world) tool_name
                 ++ str " with args " ++ py_str (isprintable world) arguments
                 ++ str ":" ++ nl ++ exn_str e));
    list_append history (str "assistant", json_dumps tool_obj);;
    (* Step 3: Ask model for final answer using tool output *)
    msgs_final ← build_final_messages history tool_result_text;
    final_answer ← chat_complete msgs_final;
    list_append history (str "assistant", final_answer);;
    mret (json_dumps tool_obj, tool_result_text, final_answer, history).

End Program.

Arguments Returns {W A} a σ.
Arguments Throws {W A} e σ.
Arguments Stuck {W A}.

End Client.
Export Client.

(* ===================================================================== *)
(** * A scripted world *)
(* ===================================================================== *)

Module Script.

(** A stand-in for the outside world that answers from a script, the
    completion API with one answer per call; its state counts the
    completions answered. *)
Record script := {
  create_answer : result client;
  search_answer : result (list Tool);
  completion_answers : list (result (option text));
  call_answer : result json;
}.

Definition APIConnectionError : exn := Exn true (str "Connection error.").

(** [str.isprintable] above ASCII, as far as code point 255. *)
Definition latin1_printable (c : char) : bool :=
  (161 <=? c) && (c <=? 255) && negb (c =? 173).

Definition scripted (sc : script) : World nat := {|
  isprintable := latin1_printable;
  UtcpClient_create := fun n => (create_answer sc, n);
  client_search_tools := fun _ _ _ n => (search_answer sc, n);
  completions_create := fun _ n =>
    (nth n (completion_answers sc) (Raises APIConnectionError), S n);
  client_call_tool := fun _ _ _ n => (call_answer sc, n);
|}.

(** A fresh process whose caller holds the history [h] at address [1]. *)
Definition start (h : list turn) : state (W := nat) :=
  State {[ 1%positive := h ]} None 0%nat [].

(** A world whose every [UtcpClient.create] yields a new client object;
    its state counts the clients made. *)
Definition factory : World nat := {|
  isprintable := latin1_printable;
  UtcpClient_create := fun n => (Val (N.of_nat n), S n);
  client_search_tools := fun _ _ _ n => (Val [], n);
  completions_create := fun _ n => (Raises APIConnectionError, n);
  client_call_tool := fun _ _ _ n => (Raises APIConnectionError, n);
|}.

(** The texts and scripts of the examples. *)
Definition SAMPLE_CALL : text := qstr "{'tool_name':'t','arguments':{'a':1}}".
Definition sample_call : json :=
  JObj [(str "tool_name", JStr (str "t"));
        (str "arguments", JObj [(str "a", JInt 1)])].
Definition SCALAR_ARGUMENTS : text := qstr "{'tool_name':'t','arguments':5}".
Definition TWO_OBJECTS : text :=
  qstr "{'tool_name':'t','arguments':{}} and {'b':2}".
Definition FENCE_IN_STRING : text :=
  qstr "{'tool_name':'t','arguments':{'q':'```json{x}```'}}".

Definition a_tool : Tool :=
  {| model_dump := JObj [(str "name", JStr (str "t"))] |}.

Definition answers_directly : script := {|
  create_answer := Val 7;
  search_answer := Val [a_tool];
  completion_answers := [Val (Some (str "hello"))];
  call_answer := Val JNull |}.

Definition null_content : script := {|
  create_answer := Val 7;
  search_answer := Val [a_tool];
  completion_answers := [Val None];
  call_answer := Val JNull |}.

Definition tool_fails : script := {|
  create_answer := Val 7;
  search_answer := Val [a_tool];
  completion_answers := [Val (Some SAMPLE_CALL); Val (Some (str "done"))];
  call_answer := Raises (Exn true (str "boom")) |}.

Definition scalar_arguments : script := {|
  create_answer := Val 7;
  search_answer := Val [a_tool];
  completion_answers := [Val (Some SCALAR_ARGUMENTS); Val (Some (str "done"))];
  call_answer := Val (JObj [(str "ok", JBool true)]) |}.

End Script.
Export Script.

(* ===================================================================== *)
(** * [init_utcp] as a coroutine *)
(* ===================================================================== *)

Module Tasks.

(** A call of [init_utcp] in progress.  The coroutine has one [await]:
    [Entered] is the call before it has run, [Awaiting] the call suspended
    in [await UtcpClient.create(cfg)], which does I/O, so that the event
    loop may run other tasks meanwhile. *)
Inductive task :=
| Entered
| Awaiting
| Finished (r : result client).

Section Tasks.
Context {W : Type} (world : World W).
Implicit Types σ : state (W := W).

(** Run a task up to its next suspension point.  From [Entered]: the test
    [if _utcp_client], then either [return _utcp_client] or the call of
    [create].  From [Awaiting]: [create] completes, the global is assigned
    and returned. *)
Definition resume (t : task) σ : task * state (W := W) :=
  match t with
  | Entered =>
      match _utcp_client σ with
      | Some c => (Finished (Val c), σ)
      | None => (Awaiting, σ)
      end
  | Awaiting =>
      let '(r, w) := UtcpClient_create world (outside σ) in
      let t' := trace σ ++ [Created r] in
      match r with
      | Val c => (Finished (Val c), State (heap σ) (Some c) w t')
      | Raises e => (Finished (Raises e), State (heap σ) (_utcp_client σ) w t')
      end
  | Finished r => (Finished r, σ)
  end.

(** The event loop resumes the tasks in the order of a schedule. *)
Fixpoint run (sched : list nat) (ts : list task) σ
  : list task * state (W := W) :=
  match sched with
  | [] => (ts, σ)
  | i :: sched' =>
      match ts !! i with
      | Some t => let '(t', σ') := resume t σ in run sched' (<[i := t']> ts) σ'
      | None => run sched' ts σ
      end
  end.

(** [n] calls, each run to its end before the next is entered. *)
Fixpoint in_turn (n : nat) σ : list task * state (W := W) :=
  match n with
  | O => ([], σ)
  | S n' =>
      let '(t1, σ1) := resume Entered σ in
      let '(t2, σ2) := resume t1 σ1 in
      let '(ts, σ') := in_turn n' σ2 in
      (t2 :: ts, σ')
  end.

End Tasks.

(** The clients constructed by the calls of a trace. *)
Definition constructed (evs : list event) : list client :=
  omap (fun ev => match ev with Created (Val c) => Some c | _ => None end) evs.

End Tasks.
Export Tasks.

(* ===================================================================== *)
(** * The vocabulary of the statements *)
(* ===================================================================== *)

Module Spec.

(** ** Spans of a text *)

Fixpoint find_first (c : char) (s : text) : option nat :=
  match s with
  | [] => None
  | c' :: s' => if c =? c' then Some 0%nat else S <$> find_first c s'
  end.

Fixpoint find_last (c : char) (s : text) : option nat :=
  match s with
  | [] => None
  | c' :: s' =>
      match find_last c s' with
      | Some j => Some (S j)
      | None => if c =? c' then Some 0%nat else None
      end
  end.

(** The span from the first opening brace of [s] to its last closing
    brace. *)
Definition first_to_last_brace (s : text) : option text :=
  i ← find_first 123 s;
  j ← find_last 125 (drop (S i) s);
  Some (take (j + 2) (drop i s)).

(** The span the specification describes, from the first opening brace to
    the closing brace that matches it: scan with the nesting depth and
    stop at the closer met at depth [0]. *)
Fixpoint matching_close (depth : nat) (s : text) : option nat :=
  match s with
  | [] => None
  | c :: s' =>
      if c =? 123 then S <$> matching_close (S depth) s'
      else if c =? 125 then
        match depth with
        | O => Some 0%nat
        | S d => S <$> matching_close d s'
        end
      else S <$> matching_close depth s'
  end.

Definition first_balanced_brace (s : text) : option text :=
  i ← find_first 123 s;
  j ← matching_close 0 (drop (S i) s);
  Some (take (j + 2) (drop i s)).

(** A text without braces. *)
Definition brace_free (t : text) : Prop :=
  forallb (fun c => negb ((c =? 123) || (c =? 125))) t = true.

(** What [extract_tool_json] makes of a matched span. *)
Definition loads_or_none (g : text) : json := default JNull (json_loads g).

(** ** Tool calls *)

(** The tool call a reply holds: the reply yields an object with the keys
    [tool_name] and [arguments]; the values are taken as they are. *)
Definition parsed_tool_call (raw : text) : option (json * json) :=
  match extract_tool_json raw with
  | JObj d =>
      match dict_get (str "tool_name") d, dict_get (str "arguments") d with
      | Some name, Some args => Some (name, args)
      | _, _ => None
      end
  | _ => None
  end.

(** The text [handle_user_query] keeps of a tool call that came back with
    [r]: [try: json.dumps(tool_result) / except Exception: f"Tool call
    error ..."]. *)
Definition tool_result_text (printable : char -> bool) (name args : json)
    (r : result json) : result text :=
  match r with
  | Val v => Val (json_dumps v)
  | Raises e =>
      if is_Exception e then
        Val (str "Tool call error for " ++ py_str printable name
             ++ str " with args " ++ py_str printable args
             ++ str ":" ++ nl ++ exn_str e)
      else Raises e
  end.

(** ** Traces *)

Definition completions (evs : list event)
  : list (list message * result (option text)) :=
  omap (fun ev => match ev with Completed m r => Some (m, r) | _ => None end) evs.

Definition tool_calls (evs : list event)
  : list (client * json * json * result json) :=
  omap (fun ev => match ev with ToolCalled c n a r => Some (c, n, a, r) | _ => None end)
       evs.

(** The exception a call out of the process came back with. *)
Definition raised (ev : event) : option exn :=
  match ev with
  | Created (Raises e) | Searched _ _ _ (Raises e)
  | Completed _ (Raises e) | ToolCalled _ _ _ (Raises e) => Some e
  | _ => None
  end.

(** A call that came back normally, or a tool call that failed with an
    [Exception]. *)
Definition contained (ev : event) : Prop :=
  raised ev = None
  \/ exists c name args e,
       ev = ToolCalled c name args (Raises e) /\ is_Exception e = true.

(** Calls among which there is no completion, no tool call and no
    failure. *)
Definition quiet (evs : list event) : Prop :=
  completions evs = [] /\ tool_calls evs = []
  /\ Forall (fun ev => raised ev = None) evs.

Definition final_trace {W A} (o : outcome (W := W) A) : list event :=
  match o with
  | Returns _ σ' | Throws _ σ' => trace σ'
  | Stuck => []
  end.

(** The calls made by a computation started in [σ] that ended as [o]. *)
Definition new_events {W A} (σ : state (W := W)) (o : outcome (W := W) A)
  : list event :=
  drop (length (trace σ)) (final_trace o).

Definition returned {W A} (o : outcome (W := W) A) : option A :=
  match o with
  | Returns a _ => Some a
  | _ => None
  end.

(** ** The run of [handle_user_query], spelled out *)

Section Orchestrate.
Context {W : Type} (world : World W).
Implicit Types σ : state (W := W).

Definition with_heap (H : gmap loc (list turn)) σ (w : W) (t : list event)
  : state (W := W) :=
  State H (_utcp_client σ) w t.

(** What [handle_user_query user_text state_history] does from the state
    [σ] reached after [init_utcp] and [discover_tools], when [state_history]
    holds [h]: every answer of the outside world, and the state and result
    it leads to. *)
Definition orchestrate (c : client) (tools : list Tool) (u : text)
    (h : list turn) σ : outcome (W := W) (text * text * text * loc) :=
  let l' := fresh (dom (heap σ)) in
  let h1 := h ++ [(str "user", u)] in
  let msgs := tool_call_messages h1 (tools_to_json_for_prompt tools) in
  let '(r1, w1) := completions_create world msgs (outside σ) in
  let t1 := trace σ ++ [Completed msgs r1] in
  match r1 with
  | Raises e => Throws e (with_heap (<[l' := h1]> (heap σ)) σ w1 t1)
  | Val reply =>
      let raw := or_empty reply in
      match parsed_tool_call raw with
      | None =>
          Returns (raw, str "(no tool called)", raw, l')
            (with_heap (<[l' := h1 ++ [(str "assistant", raw)]]> (heap σ)) σ w1 t1)
      | Some (name, args) =>
          let '(r2, w2) := client_call_tool world c name args w1 in
          let t2 := t1 ++ [ToolCalled c name args r2] in
          match tool_result_text (isprintable world) name args r2 with
          | Raises e => Throws e (with_heap (<[l' := h1]> (heap σ)) σ w2 t2)
          | Val out =>
              let call := json_dumps (extract_tool_json raw) in
              let h2 := h1 ++ [(str "assistant", call)] in
              let msgs2 := final_messages h2 out in
              let '(r3, w3) := completions_create world msgs2 w2 in
              let t3 := t2 ++ [Completed msgs2 r3] in
              match r3 with
              | Raises e => Throws e (with_heap (<[l' := h2]> (heap σ)) σ w3 t3)
              | Val reply2 =>
                  let final := or_empty reply2 in
                  Returns (call, out, final, l')
                    (with_heap (<[l' := h2 ++ [(str "assistant", final)]]> (heap σ))
                       σ w3 t3)
              end
          end
      end
  end.

End Orchestrate.

(** ** Auxiliary notions of the proofs *)

(** The continuation of the fenced pattern behind the lazy repetition,
    entered at [s4] for a group that starts at [s2]. *)
Definition fence_tail (s2 s4 : text) : option re_match :=
  match s4 with
  | c :: s5 =>
      if 125 =? c then
        match after_prefix (str "```") (drop_while is_space s5) with
        | Some _ => Some (MatchObj (Some (take (length s2 - length s5) s2)))
        | None => None
        end
      else None
  | [] => None
  end.

(** The continuation of the fallback pattern behind its repetition. *)
Definition close_brace {A} (f : text -> A) (s : text) : option A :=
  match s with
  | c :: s' => if 125 =? c then Some (f s') else None
  | [] => None
  end.

(** A scan that did not run out of fuel and, when it parsed a value,
    consumed at least one character. *)
Definition progress (s : text) (p : parsed json) : Prop :=
  p <> OutOfFuel /\ forall v r, p = Parsed v r -> (length r < length s)%nat.

End Spec.
Export Spec.

(* ===================================================================== *)
(** * The Gradio callback ([on_submit]) *)
(* ===================================================================== *)

Module Ui.

(** The text of the assistant line that shows the proposed call:
    [f"Proposed tool call:\n```json\n{assistant_tool_json}\n```"]. *)
Definition proposed_call (assistant_tool_json : text) : text :=
  str "Proposed tool call:" ++ nl ++ str "```json" ++ nl
  ++ assistant_tool_json ++ nl ++ str "```".

(** [range(0, n, 2)] *)
Definition range_by_two (n : nat) : list nat :=
  map (fun k => 2 * k)%nat (seq 0 (Nat.div2 (S n))).

(** One round of the loop over [tmp_state]: the entry it appends to
    [chat_pairs] for the index [i], if any. *)
Definition chat_row (tmp_state : list turn) (i : nat) : option (text * text) :=
  let user_msg :=
    match tmp_state !! i with
    | Some t => if text_eqb (fst t) (str "user") then snd t else []
    | None => []
    end in
  let asst_msg :=
    match tmp_state !! (i + 1)%nat with
    | Some t => if text_eqb (fst t) (str "assistant") then snd t else []
    | None => []
    end in
  if negb (text_eqb user_msg []) || negb (text_eqb asst_msg [])
  then Some (user_msg, asst_msg)
  else None.

(** The list [chat_pairs] the loop builds from [tmp_state]. *)
Definition chat_pairs (tmp_state : list turn) : list (text * text) :=
  omap (chat_row tmp_state) (range_by_two (length tmp_state)).

Section Callback.
Context {W : Type} (world : World W).

(** The list display [[]]: a new, empty list object. *)
Definition list_new : M (W := W) loc := fun σ =>
  let l' := fresh (dom (heap σ)) in
  Returns l' (State (<[l' := []]> (heap σ)) (_utcp_client σ) (outside σ) (trace σ)).

(** The truth value of the Gradio state [st], which holds [None] or a
    list: a list is true when it is not empty. *)
Definition state_true (st : option loc) : M (W := W) bool :=
  match st with
  | Some l => h ← list_read l; mret (negb (bool_decide (h = [])))
  | None => mret false
  end.

(** [st or []] and [st.copy() if st else []] *)
Definition or_new_list (st : option loc) : M (W := W) loc :=
  t ← state_true st;
  match st with
  | Some l => if t : bool then mret l else list_new
  | None => list_new
  end.

Definition copy_or_new_list (st : option loc) : M (W := W) loc :=
  t ← state_true st;
  match st with
  | Some l => if t : bool then list_copy l else list_new
  | None => list_new
  end.

(** [on_submit(user_text, st)]: returns [(chat_pairs, assistant_tool_json,
    tool_result_text, final_answer, new_state)]. *)
Definition on_submit (user_text : text) (st : option loc)
  : M (W := W) (list (text * text) * text * text * text * loc) :=
  arg ← or_new_list st;
  '(assistant_tool_json, tool_result_text, final_answer, new_state)
     ← handle_user_query world user_text arg;
  (* Build a compact chat transcript *)
  tmp_state ← copy_or_new_list st;
  list_append tmp_state (str "user", user_text);;
  (* Show assistant tool JSON line in chat for transparency *)
  list_append tmp_state (str "assistant", proposed_call assistant_tool_json);;
  list_append tmp_state (str "assistant", final_answer);;
  (* Convert to Chatbot format *)
  tmp ← list_read tmp_state;
  mret (chat_pairs tmp, assistant_tool_json, tool_result_text, final_answer,
        new_state).

(** [on_clear()] *)
Definition on_clear : M (W := W) (list (text * text) * text * text * text * loc) :=
  new_state ← list_new;
  mret ([], [], [], [], new_state).

End Callback.

End Ui.
Export Ui.

(* ===================================================================== *)
(** * The NETCONF service ([app.py]) *)
(* ===================================================================== *)

Module App.

(** ** Strings *)

(** [s.replace(old, new)] for an [old] that is not empty: the occurrences
    of [old] are taken from left to right, none overlapping the one before;
    [skip] counts the characters of a replaced occurrence still to pass. *)
Fixpoint replace_from (old new : text) (skip : nat) (s : text) : text :=
  match s with
  | [] => []
  | c :: s' =>
      match skip with
      | S k => replace_from old new k s'
      | O =>
          match after_prefix old s with
          | Some _ => new ++ replace_from old new (length old - 1) s'
          | None => c :: replace_from old new 0 s'
          end
      end
  end.

(** [s.replace(old, new)]; an empty [old] matches before every character
    and at the end. *)
Definition replace (old new s : text) : text :=
  match old with
  | [] => new ++ flat_map (fun c => c :: new) s
  | _ :: _ => replace_from old new 0 s
  end.

(** The truth value of an [Optional[str]], and [x or y] on two of them. *)
Definition str_true (v : option text) : bool :=
  match v with
  | Some (_ :: _) => true
  | _ => false
  end.

Definition str_or (x y : option text) : option text :=
  if str_true x then x else y.

(** [str(v)] for an [Optional[str]], which is what [%s] inserts. *)
Definition str_of (v : option text) : text :=
  match v with
  | Some t => t
  | None => str "None"
  end.

(** ** Requests *)

(** The pydantic models.  A model that extends [BaseConn] holds a
    [BaseConn] and its own fields. *)
Record BaseConn := {
  host : text;
  port : Z;
  timeout_ops : Z;
  username : option text;
  password : option text;
}.

Record GetConfigRequest := {
  get_conn : BaseConn;
  source : text;
  filter_xml : option text;
}.

Record EditConfigRequest := {
  edit_conn : BaseConn;
  target : text;
  config_xml : text;
  default_operation : text;
  test_option : text;
  error_option : text;
}.

Record CommitRequest := {
  commit_conn : BaseConn;
  confirmed : bool;
  confirm_timeout : Z;
  comment : option text;
}.

Record RpcRequest := {
  rpc_conn : BaseConn;
  rpc_xml : text;
}.

(** An [Optional] value as a Python value. *)
Definition opt_str (v : option text) : json := from_option JStr JNull v.
Definition opt_int (v : option Z) : json := from_option JInt JNull v.

(** [req.dict()]: the fields in the order of their declaration, those of
    [BaseConn] first. *)
Definition BaseConn_dict (c : BaseConn) : list (text * json) :=
  [ (str "host", JStr (host c)); (str "port", JInt (port c));
    (str "timeout_ops", JInt (timeout_ops c));
    (str "username", opt_str (username c));
    (str "password", opt_str (password c)) ].

Definition GetConfigRequest_dict (r : GetConfigRequest) : list (text * json) :=
  BaseConn_dict (get_conn r)
  ++ [ (str "source", JStr (source r)); (str "filter_xml", opt_str (filter_xml r)) ].




(** ** Helpers *)

(** [_env(name, default)], with [os.environ] as a map. *)
Definition _env (environ : gmap (list N) (list N)) (name : text)
    (default : option text) : option text :=
  let v := environ !! name in
  match v with
  | Some t => if negb (text_eqb t []) then v else default
  | None => default
  end.

(** [_mask(v)] *)
Definition _mask (v : option text) : text :=
  match v with
  | None => str "<empty>"
  | Some t =>
      if text_eqb t [] then str "<empty>"
      else if (length t <=? 4)%nat then repeat 42 (length t)
      else take 2 t ++ repeat 42 (length t - 4) ++ drop (length t - 2) t
  end.

(** [_escape(s)] *)
Definition _escape (s : text) : text :=
  replace (str ">") (str "&gt;")
    (replace (str "<") (str "&lt;")
       (replace (str "&") (str "&amp;") s)).

(** [_merge_to_model(model_cls, body, **overrides)]: [body] is seen through
    its [dict()], [overrides] holds the keyword arguments in the order of
    the call, [model_cls] validates the merged fields and builds the model
    or raises. *)
Definition _merge_to_model {A} (model_cls : list (text * json) -> result A)
    (body : option (list (text * json))) (overrides : list (text * json))
  : result A :=
  let data := default [] body in
  let data :=
    fold_left
      (fun data kv =>
         match snd kv with
         | JNull => data
         | v => dict_set (fst kv) v data
         end)
      overrides data in
  model_cls data.

(** ** The service and its surroundings *)

(** An operation on an open NETCONF session. *)
Inductive operation :=
| GetConfig (source : text) (filter_ : option text)
| EditConfig (config target default_operation test_option error_option : text)
| Rpc (filter_ : text).

(** What the service does not hold itself:
    - the constructors of the request models, which validate their fields;
    - [session dev op]: a session of [AsyncNetconfDriver], opened with the
      keyword arguments [dev] and closed after the one operation [op], up
      to [rsp.result]; the device and the network have a state of type
      [W]. *)
Record Service (W : Type) := {
  GetConfigRequest_new : list (text * json) -> result GetConfigRequest;
  EditConfigRequest_new : list (text * json) -> result EditConfigRequest;
  CommitRequest_new : list (text * json) -> result CommitRequest;
  RpcRequest_new : list (text * json) -> result RpcRequest;
  session : json -> operation -> W -> result text * W;
}.
Arguments GetConfigRequest_new {W}.
Arguments EditConfigRequest_new {W}.
Arguments CommitRequest_new {W}.
Arguments RpcRequest_new {W}.
Arguments session {W}.

(** The state of the service: [os.environ], the messages logged on
    [netconf_tools], the sessions opened (oldest first) and the state of
    the network. *)
Record server (W : Type) := Server {
  environ : gmap (list N) (list N);
  logged : list text;
  sessions : list (json * operation * result text);
  network : W;
}.
Arguments Server {W}.
Arguments environ {W}.
Arguments logged {W}.
Arguments sessions {W}.
Arguments network {W}.

Section Endpoints.
Context {W : Type} (service : Service W).
Implicit Types σ : server W.

(** [_device(req)]: the keyword arguments of the driver.  The message it
    logs is [fmt % args]. *)
Definition _device (req : BaseConn) σ : json * server W :=
  let user := str_or (username req) (_env (environ σ) (str "NETCONF_USER") (Some (str "lab"))) in
  let pwd := str_or (password req) (_env (environ σ) (str "NETCONF_PASS") (Some [])) in
  let message :=
    str "NETCONF connect host=" ++ host req ++ str " port=" ++ dec (port req)
    ++ str " user=" ++ str_of user ++ str " pass=" ++ _mask pwd
    ++ str " timeout_ops=" ++ dec (timeout_ops req) in
  (JObj [ (str "host", JStr (host req));
          (str "port", JInt (port req));
          (str "auth_username", opt_str user);
          (str "auth_password", opt_str pwd);
          (str "auth_strict_key", JBool false);
          (str "transport", JStr (str "asyncssh"));
          (str "timeout_ops", JInt (timeout_ops req)) ],
   Server (environ σ) (logged σ ++ [message]) (sessions σ) (network σ)).

(** The [async with] block of an endpoint: the driver is opened with [dev],
    the operation awaited, the session closed; the outcome is [rsp.result]. *)
Definition run_session (dev : json) (op : operation) σ : result text * server W :=
  let '(r, w) := session service dev op (network σ) in
  (r, Server (environ σ) (logged σ) (sessions σ ++ [(dev, op, r)]) w).

(** [netconf_get_config(body, host, ..., filter_xml)] *)
Definition netconf_get_config (body : option GetConfigRequest)
    (host : option text) (port timeout_ops : option Z)
    (username password source filter_xml : option text) σ
  : result json * server W :=
  match _merge_to_model (GetConfigRequest_new service)
          (GetConfigRequest_dict <$> body)
          [ (str "host", opt_str host); (str "port", opt_int port);
            (str "timeout_ops", opt_int timeout_ops);
            (str "username", opt_str username);
            (str "password", opt_str password);
            (str "source", opt_str source);
            (str "filter_xml", opt_str filter_xml) ] with
  | Raises e => (Raises e, σ)
  | Val req =>
      let '(dev, σ) := _device (get_conn req) σ in
      let op :=
        if str_true (App.filter_xml req)
        then GetConfig (App.source req) (App.filter_xml req)
        else GetConfig (App.source req) None in
      let '(rsp, σ) := run_session dev op σ in
      match rsp with
      | Raises e => (Raises e, σ)
      | Val result =>
          (Val (JObj [ (str "ok", JBool true);
                       (str "source", JStr (App.source req));
                       (str "result", JStr result) ]), σ)
      end
  end.


(** The RPC [netconf_commit] sends for the request [req]. *)
Definition commit_rpc (req : CommitRequest) : text :=
  if confirmed req then
    let rpc :=
      qstr "<commit-configuration confirmed='true' confirm-timeout='"
      ++ dec (confirm_timeout req) ++ qstr "'>" in
    let rpc :=
      if str_true (comment req)
      then rpc ++ str "<log>" ++ _escape (default [] (comment req)) ++ str "</log>"
      else rpc in
    rpc ++ str "</commit-configuration>"
  else
    let rpc := str "<commit-configuration>" in
    let rpc :=
      if str_true (comment req)
      then rpc ++ str "<log>" ++ _escape (default [] (comment req)) ++ str "</log>"
      else rpc in
    rpc ++ str "</commit-configuration>".



End Endpoints.

End App.
Export App.

(* ===================================================================== *)
(** * More vocabulary of the statements *)
(* ===================================================================== *)

Module Terms.

(** ** The callback *)

(** What the Gradio state [st] holds: the turns of its list, none for
    [None]. *)
Definition history_of {W} (σ : state (W := W)) (st : option loc) : option (list turn) :=
  match st with
  | Some l => heap σ !! l
  | None => Some []
  end.

(** A process that has constructed its client, the object [7], and whose
    caller holds the history [h] at address [1]. *)
Definition started (h : list turn) : state (W := nat) :=
  State {[ 1%positive := h ]} (Some 7) 0%nat [].

(** A call that constructs no client and searches no tools, and that is
    made on the client [c] when it is a tool call. *)
Definition on_client (c : client) (ev : event) : Prop :=
  match ev with
  | Created _ | Searched _ _ _ _ => False
  | Completed _ _ => True
  | ToolCalled c' _ _ _ => c' = c
  end.

(** ** The service *)

(** What [_escape] puts for one character. *)
Definition xml_entity (c : N) : list N :=
  if c =? 38 then str "&amp;"
  else if c =? 60 then str "&lt;"
  else if c =? 62 then str "&gt;"
  else [c].

(** The characters of XML markup that [_escape] replaces. *)
Definition is_markup (c : N) : bool := (c =? 38) || (c =? 60) || (c =? 62).

(** The number of opening and of closing angle brackets of a text. *)
Definition angle_brackets (s : list N) : nat * nat :=
  (count_occ N.eq_dec s 60, count_occ N.eq_dec s 62).

(** The positions of a value of length [n] that [_mask] shows: the first two
    and the last two, of a value longer than four characters. *)
Definition shown (n i : nat) : bool :=
  (4 <? n)%nat && ((i <? 2)%nat || (n - 2 <=? i)%nat).

(** The first of several optional strings that is a string and not empty,
    or [fallback] when there is none. *)
Definition first_nonempty (xs : list (option (list N))) (fallback : list N)
  : list N :=
  match omap (fun x => match x with Some (c :: t) => Some (c :: t) | _ => None end) xs with
  | t :: _ => t
  | [] => fallback
  end.

(** The value of a field after the merge: the keyword argument when there is
    one that is not [None], else what the body has. *)
Definition overridden (kw body : option json) : option json :=
  match kw with
  | Some JNull | None => body
  | Some _ => kw
  end.



(** ** JSON texts *)

(** A Unicode scalar value: a code point that is not a surrogate. *)
Definition is_scalar (c : N) : bool :=
  (c <? 55296) || ((57343 <? c) && (c <? 1114112)).

(** A value without floats, whose strings hold scalar values only and whose
    dicts hold each key once. *)
Fixpoint plain (v : json) : bool :=
  match v with
  | JNull | JBool _ | JInt _ => true
  | JFloat _ => false
  | JStr s => forallb is_scalar s
  | JArr l => forallb plain l
  | JObj d =>
      forallb (fun kv => forallb is_scalar (fst kv) && plain (snd kv)) d
      && bool_decide (NoDup d.*1)
  end.

(** Every character of every string of [v], the keys of its dicts among
    them, satisfies [p]. *)
Fixpoint strings_all (p : N -> bool) (v : json) : bool :=
  match v with
  | JStr s => forallb p s
  | JArr l => forallb (strings_all p) l
  | JObj d => forallb (fun kv => forallb p (fst kv) && strings_all p (snd kv)) d
  | _ => true
  end.

(** The integers of [v] all satisfy [p]. *)
Fixpoint ints_all (p : Z -> bool) (v : json) : bool :=
  match v with
  | JInt n => p n
  | JArr l => forallb (ints_all p) l
  | JObj d => forallb (fun kv => ints_all p (snd kv)) d
  | _ => true
  end.

(** How deep [v] is nested: the number of lists and dicts around its
    innermost value. *)
Fixpoint nesting (v : json) : nat :=
  match v with
  | JArr l => S (list_max (map nesting l))
  | JObj d => S (list_max (map (fun kv => nesting (snd kv)) d))
  | _ => 0
  end.

(** The most digits CPython converts between an integer and its decimal
    text, unless the process sets another limit
    ([sys.int_info.default_max_str_digits]): [json.dumps] of a longer
    integer, and [json.loads] of a longer literal, raise [ValueError]. *)
Definition int_max_str_digits : nat := 4300.

(** The nesting the statements take the interpreter to have room for.  The
    encoder and the decoder of [json] go one call deeper for every list or
    dict inside another and raise [RecursionError] at the interpreter's
    recursion limit, 1000 calls unless the process sets another; 100 levels
    is a tenth of that. *)
Definition max_nesting : nat := 100.

(** A value [json.dumps] writes and [json.loads] reads without meeting a
    limit of the interpreter: no integer of more than [int_max_str_digits]
    digits, and a nesting of at most [max_nesting]. *)
Definition within_limits (v : json) : bool :=
  ints_all (fun n => Z.abs n <? 10 ^ Z.of_nat int_max_str_digits)%Z v
  && (nesting v <=? max_nesting)%nat.

(** The longest run of decimal digits of the text [s], when [run] digits
    stand before it. *)
Fixpoint longest_digit_run (run : nat) (s : list N) : nat :=
  match s with
  | [] => run
  | c :: s' =>
      if is_digit c then longest_digit_run (S run) s'
      else Nat.max run (longest_digit_run 0 s')
  end.

(** A text [json.loads] reads without meeting a limit of the interpreter,
    whatever the text holds: no run of more than [int_max_str_digits]
    digits, so no longer literal, and no more than [max_nesting] opening
    brackets and braces, so no deeper nesting. *)
Definition text_within_limits (s : list N) : bool :=
  (longest_digit_run 0 s <=? int_max_str_digits)%nat
  && (count_occ N.eq_dec s 91%N + count_occ N.eq_dec s 123%N <=? max_nesting)%nat.

(** The string an optional string holds, when it holds one that is not
    empty. *)
Definition nonempty (o : option (list N)) : option (list N) :=
  match o with
  | Some (c :: t) => Some (c :: t)
  | _ => None
  end.

(** Printable ASCII, or a line feed. *)
Definition is_ascii_text (c : N) : bool := (c =? 10) || ((32 <=? c) && (c <=? 126)).

(** The characters [json.dumps] writes outside of strings, and the quote. *)
Definition json_alphabet : list N :=
  str "[]{}:, -+.e0123456789nulltruefalseNaNInfinity" ++ [10; 34].

(** ** Auxiliary notions of the proofs *)

Definition in_alphabet (c : N) : bool := existsb (N.eqb c) json_alphabet.

(** A text a number can be followed by: it does not go on with a digit, a
    fraction or an exponent. *)
Definition number_end (rest : list N) : bool :=
  match rest with
  | [] => true
  | c :: _ => negb (is_digit c || (c =? 46) || (c =? 101) || (c =? 69))
  end.

(** The digits of a decimal numeral. *)
Definition digits (d : Decimal.uint) : list N :=
  str (NilEmpty.string_of_uint d).

(** One step of [digits_value]. *)
Definition digit_step (acc : Z) (c : N) : Z := (acc * 10 + Z.of_N (c - 48))%Z.

(** The text of one member of a dict at the nesting depth [level]. *)
Definition entry (level : nat) (kv : list N * json) : list N :=
  encode_basestring_ascii (fst kv) ++ str ": " ++ dumps_at (S level) (snd kv).

(** The decoder reads the text of [v] back as [v], whatever the depth of
    indentation and the text that follows. *)
Definition reads_back (v : json) : Prop :=
  plain v = true ->
  exists n0, forall n level rest, (n0 <= n)%nat -> number_end rest = true ->
    scan_once n (dumps_at level v ++ rest) = Parsed v rest.

End Terms.
Export Terms.

(* ===================================================================== *)
(** * Facts about the patterns *)
(* ===================================================================== *)


Lemma after_prefix_app p s r : after_prefix p s = Some r -> s = p ++ r.
Proof.
  revert s. induction p as [|c p IH]; intros [|c' s] H; simpl in *; try congruence.
  destruct (N.eqb_spec c c'); [|done]. subst. f_equal. by apply IH.
Qed.

Lemma drop_while_app p s : exists ws, s = ws ++ drop_while p s /\ forallb p ws = true.
Proof.
  induction s as [|c s [ws [E F]]]; simpl.
  - by exists [].
  - destruct (p c) eqn:Hc.
    + exists (c :: ws). simpl. rewrite Hc, F. split; [congruence|done].
    + by exists [].
Qed.

Lemma cat_cons a l : cat (a :: l) = Seq a (cat l).
Proof. done. Qed.

Lemma cat_nil : cat [] = Eps.
Proof. done. Qed.

Lemma rmatch_lits t s g k :
  rmatch (lits t) s g k =
  match after_prefix t s with Some s' => k s' g | None => None end.
Proof.
  revert s. induction t as [|c t IH]; intros s; [done|].
  change (lits (c :: t)) with (Seq (Lit c) (lits t)). simpl.
  destruct s as [|c' s]; [done|]. destruct (c =? c'); [apply IH|done].
Qed.

Lemma star_greedy_skip {A} p (k : text -> option A) s :
  (forall c t, p c = true -> k (c :: t) = None) ->
  star_greedy p k s = k (drop_while p s).
Proof.
  intros Hk. induction s as [|c s IH]; simpl; [done|].
  destruct (p c) eqn:Hc; [|done]. rewrite IH.
  rewrite (Hk c s Hc). by destruct (k (drop_while p s)).
Qed.

Lemma star_lazy_found {A} p (k : text -> option A) s r :
  star_lazy p k s = Some r -> exists mid s', s = mid ++ s' /\ k s' = Some r.
Proof.
  revert r. induction s as [|c s IH]; intros r; simpl.
  - destruct (k []) eqn:E; [|done]. intros [= <-]. by exists [], [].
  - destruct (k (c :: s)) eqn:E.
    + intros [= <-]. by exists [], (c :: s).
    + destruct (p c); [|done]. intros H. destruct (IH _ H) as (mid & s' & -> & Hk).
      by exists (c :: mid), s'.
Qed.

Lemma star_lazy_ext {A} p (k k' : text -> option A) s :
  (forall t, k t = k' t) -> star_lazy p k s = star_lazy p k' s.
Proof.
  intros E. induction s as [|c s IH]; simpl; rewrite E; [done|].
  destruct (k' (c :: s)); [done|]. by destruct (p c).
Qed.

Lemma search_found r s m :
  search r s = Some m -> exists a s0, s = a ++ s0 /\ match_here r s0 = Some m.
Proof.
  induction s as [|c s IH]; simpl.
  - destruct (match_here r []) eqn:E; [|done]. intros [= <-]. by exists [], [].
  - destruct (match_here r (c :: s)) eqn:E.
    + intros [= <-]. by exists [], (c :: s).
    + intros H. destruct (IH H) as (a & s0 & -> & Hm). by exists (c :: a), s0.
Qed.

Lemma is_space_not c d : is_space d = false -> is_space c = true -> (d =? c) = false.
Proof. intros Hd Hc. destruct (N.eqb_spec d c); [congruence|done]. Qed.

(** A match of [TOOL_JSON_RE] at the head of [s], step by step. *)
Lemma match_here_fenced s :
  match_here TOOL_JSON_RE s =
  match after_prefix (str "```json") s with
  | None => None
  | Some s1 =>
      match drop_while is_space s1 with
      | c :: s3 =>
          if 123 =? c then star_lazy any_char (fence_tail (c :: s3)) s3 else None
      | [] => None
      end
  end.
Proof.
  unfold match_here, TOOL_JSON_RE.
  rewrite !cat_cons, cat_nil. cbn [rmatch]. rewrite rmatch_lits.
  destruct (after_prefix _ s) as [s1|]; [|done].
  rewrite star_greedy_skip.
  2:{ intros c t Hc. by rewrite (is_space_not c 123). }
  destruct (drop_while is_space s1) as [|c s3]; [done|].
  destruct (123 =? c); [|done].
  apply star_lazy_ext. intros [|c' t]; [done|]. unfold fence_tail.
  destruct (125 =? c'); [|done].
  rewrite star_greedy_skip.
  2:{ intros d u Hd. rewrite rmatch_lits. change (after_prefix (str "```") (d :: u))
        with (if 96 =? d then after_prefix (str "``") u else None).
      by rewrite (is_space_not d 96). }
  rewrite rmatch_lits. done.
Qed.

Lemma take_group (c d : char) (mid s5 : text) :
  take (S (length (mid ++ d :: s5)) - length s5) (c :: mid ++ d :: s5)
  = c :: mid ++ [d].
Proof.
  replace (S (length (mid ++ d :: s5)) - length s5)%nat
    with (length (c :: mid ++ [d])).
  - change (c :: mid ++ d :: s5) with ((c :: mid) ++ [d] ++ s5) at 1.
    rewrite (app_assoc (c :: mid) [d] s5). by rewrite take_app_length.
  - simpl. rewrite !length_app. simpl. lia.
Qed.

Lemma forallb_last (p : char -> bool) ws x :
  forallb p (ws ++ [x]) = true -> p x = true.
Proof. rewrite forallb_app. simpl. by intros [_ [H _]%andb_prop]%andb_prop. Qed.

(** A match of the fenced pattern, wherever [search] finds it: the group
    opens with a brace that follows the fence or white space, and closes
    with a brace that white space or the closing fence follows. *)
Lemma fenced_match_shape s m :
  search TOOL_JSON_RE s = Some m ->
  exists a x mid y b,
    s = a ++ [x; 123] ++ mid ++ [125; y] ++ b
    /\ group1 m = Some (123 :: mid ++ [125])
    /\ (x = 110 \/ is_space x = true) /\ (y = 96 \/ is_space y = true).
Proof.
  intros H. apply search_found in H as (a & s0 & -> & H).
  rewrite match_here_fenced in H.
  destruct (after_prefix _ s0) as [s1|] eqn:E1; [|done].
  apply after_prefix_app in E1 as ->.
  destruct (drop_while_app is_space s1) as (ws & E2 & Hws).
  destruct (drop_while is_space s1) as [|c s3]; [done|].
  destruct (N.eqb_spec 123 c) as [<-|]; [|done].
  apply star_lazy_found in H as (mid & s4 & -> & H).
  unfold fence_tail in H. destruct s4 as [|c' s5]; [done|].
  destruct (N.eqb_spec 125 c') as [<-|]; [|done].
  destruct (after_prefix _ _) as [rest|] eqn:E3; [|done].
  injection H as <-.
  apply after_prefix_app in E3.
  destruct (drop_while_app is_space s5) as (ws' & E4 & Hws').
  rewrite E3 in E4. clear E3. cbn [group1]. rewrite take_group.
  assert (exists a0 x, a ++ str "```json" ++ ws = a0 ++ [x]
                       /\ (x = 110 \/ is_space x = true)) as (a0 & x & Ea & Hx).
  { destruct ws as [|w ws _] using rev_ind.
    - exists (a ++ str "```jso"), 110. split; [|by left].
      rewrite app_nil_r, <- app_assoc. done.
    - exists (a ++ str "```json" ++ ws), w. split; [|right; by eapply forallb_last].
      by rewrite <- !app_assoc. }
  assert (exists y b, s5 = y :: b /\ (y = 96 \/ is_space y = true))
    as (y & b & -> & Hy).
  { destruct ws' as [|w ws']; subst s5.
    - exists 96, (str "``" ++ rest). split; [done|by left].
    - exists w, (ws' ++ str "```" ++ rest). split; [done|right].
      simpl in Hws'. by apply andb_prop in Hws' as [? _]. }
  exists a0, x, mid, y, b. split; [|done].
  subst s1. rewrite !app_assoc. rewrite !app_assoc in Ea. rewrite Ea.
  rewrite <- !app_assoc. done.
Qed.

Lemma star_greedy_last {A} p (f : text -> A) s :
  (forall c, p c = true) ->
  star_greedy p (close_brace f) s =
  match find_last 125 s with
  | Some j => Some (f (drop (S j) s))
  | None => None
  end.
Proof.
  intros Hp. induction s as [|c s IH]; [done|].
  cbn [star_greedy find_last]. rewrite Hp, IH.
  destruct (find_last 125 s) as [j|]; [done|].
  unfold close_brace. by destruct (125 =? c).
Qed.

Lemma find_last_lt c s j : find_last c s = Some j -> (j < length s)%nat.
Proof.
  revert j. induction s as [|c' s IH]; intros j; simpl; [done|].
  destruct (find_last c s) as [j'|].
  - intros [= <-]. specialize (IH _ eq_refl). lia.
  - destruct (c =? c'); [|done]. intros [= <-]. lia.
Qed.

Lemma match_here_fallback s :
  match_here FALLBACK_RE s =
  match s with
  | c :: s1 =>
      if 123 =? c then
        match find_last 125 s1 with
        | Some j => Some (MatchObj (Some (take (j + 2) s)))
        | None => None
        end
      else None
  | [] => None
  end.
Proof.
  unfold match_here, FALLBACK_RE. rewrite !cat_cons, cat_nil. cbn [rmatch].
  destruct s as [|c s1]; [done|]. destruct (123 =? c); [|done].
  set (f := fun s' : text => MatchObj (Some (take (length (c :: s1) - length s') (c :: s1)))).
  transitivity (star_greedy (λ c0 : char, is_space c0 || negb (is_space c0))
                  (close_brace f) s1).
  { reflexivity. }
  rewrite star_greedy_last by (intros d; by destruct (is_space d)).
  destruct (find_last 125 s1) as [j|] eqn:E; [|done].
  apply find_last_lt in E. unfold f. do 3 f_equal.
  rewrite length_drop. f_equal. simpl. lia.
Qed.

Lemma search_fallback_none s :
  find_last 125 s = None -> search FALLBACK_RE s = None.
Proof.
  induction s as [|c s IH]; intros H.
  - done.
  - cbn [search]. rewrite match_here_fallback.
    simpl in H. destruct (find_last 125 s) as [j|] eqn:E; [done|].
    rewrite IH by done. by destruct (123 =? c).
Qed.

(** The fallback pattern finds the span from the first opening brace to the
    last closing brace. *)
Lemma search_fallback s :
  search FALLBACK_RE s = (fun g => MatchObj (Some g)) <$> first_to_last_brace s.
Proof.
  unfold first_to_last_brace. induction s as [|c s IH]; [done|].
  cbn [search find_first]. rewrite match_here_fallback.
  destruct (123 =? c).
  - simpl. rewrite drop_0. destruct (find_last 125 s) as [j|] eqn:E; [done|].
    by rewrite search_fallback_none.
  - rewrite IH. by destruct (find_first 123 s) as [i|].
Qed.


(* ===================================================================== *)
(** * Facts about the decoder *)
(* ===================================================================== *)


Lemma object_members_dict n : forall d s v r,
  object_members n d s = Parsed v r -> exists d', v = JObj d'.
Proof.
  induction n as [|n IH]; intros d s v r; [done|].
  cbn [object_members]. destruct s as [|q s1]; [done|].
  destruct (negb (q =? 34)); [done|].
  destruct (scanstring s1 []) as [key s2| |]; try done.
  destruct (skip_ws s2) as [|colon s3]; [done|].
  destruct (negb (colon =? 58)); [done|].
  destruct (scan_once n (skip_ws s3)) as [x s4| |]; try done.
  destruct (skip_ws s4) as [|c s5]; [done|].
  destruct (c =? 125); [intros [= <- _]; eauto|].
  destruct (c =? 44); [apply IH|done].
Qed.

(** A text that opens with a brace decodes to a [dict] or not at all. *)
Lemma json_loads_object t v :
  json_loads (123 :: t) = Some v -> exists d, v = JObj d.
Proof.
  unfold json_loads. change (123 =? 65279) with false. cbv iota.
  change (skip_ws (123 :: t)) with (123 :: t).
  cbn [scan_once]. change (123 =? 34) with false. change (123 =? 123) with true.
  cbv iota.
  destruct (skip_ws t) as [|c1 r]; [done|].
  destruct (c1 =? 125).
  - destruct (skip_ws r); [|done]. intros [= <-]. eauto.
  - destruct (object_members _ _ _) as [x r'| |] eqn:E; try done.
    apply object_members_dict in E as [d ->].
    destruct (skip_ws r'); [|done]. intros [= <-]. eauto.
Qed.

Lemma first_to_last_brace_head s g :
  first_to_last_brace s = Some g -> exists t, g = 123 :: t.
Proof.
  unfold first_to_last_brace. intros H.
  destruct (find_first 123 s) as [i|] eqn:Ei; simpl in H; [|done].
  destruct (find_last 125 _) as [j|]; simpl in H; [|done].
  injection H as <-.
  assert (exists t, drop i s = 123 :: t) as [t ->].
  { clear -Ei. revert i Ei.
    induction s as [|c s IH]; intros i; cbn [find_first]; [done|].
    destruct (N.eqb_spec 123 c) as [<-|].
    - intros [= <-]. eauto.
    - destruct (find_first 123 s) as [i'|]; simpl; [|done].
      intros [= <-]. by apply IH. }
  replace (j + 2)%nat with (S (S j)) by lia. simpl. eauto.
Qed.

(** [extract_tool_json] returns a [dict] or [None]. *)
Lemma extract_tool_json_dict s :
  extract_tool_json s = JNull \/ exists d, extract_tool_json s = JObj d.
Proof.
  unfold extract_tool_json.
  destruct (search TOOL_JSON_RE s) as [m|] eqn:E.
  - apply fenced_match_shape in E as (a & x & mid & y & b & _ & -> & _).
    destruct (json_loads _) as [v|] eqn:Ev; [|by left].
    apply json_loads_object in Ev as [d ->]. eauto.
  - rewrite search_fallback.
    destruct (first_to_last_brace s) as [g|] eqn:Eg; [|by left]. simpl.
    apply first_to_last_brace_head in Eg as [t ->].
    destruct (json_loads _) as [v|] eqn:Ev; [|by left].
    apply json_loads_object in Ev as [d ->]. eauto.
Qed.

Lemma skip_ws_length s : (length (skip_ws s) <= length s)%nat.
Proof.
  induction s as [|c s IH]; cbn [skip_ws length]; [lia|].
  destruct (is_json_ws c); cbn [length]; lia.
Qed.

Lemma after_prefix_length p s r :
  after_prefix p s = Some r -> length s = (length p + length r)%nat.
Proof. intros ->%after_prefix_app. by rewrite length_app. Qed.

Lemma scanstring_length n : forall s acc,
  (length s <= n)%nat ->
  scanstring s acc <> OutOfFuel
  /\ forall t r, scanstring s acc = Parsed t r -> (length r < length s)%nat.
Proof.
  induction n as [|n IH]; intros s acc Hn.
  { destruct s; [|cbn in Hn; lia]. by cbn. }
  destruct s as [|c s1]; [by cbn|]. cbn [scanstring].
  cbn [length] in Hn.
  destruct (c =? 34).
  { split; [done|]. intros t r [= _ <-]. cbn [length]. lia. }
  destruct (c =? 92).
  2:{ destruct (c <=? 31); [done|].
      destruct (IH s1 (c :: acc)) as [H1 H2]; [lia|]. split; [done|].
      intros t r H. apply H2 in H. cbn [length]. lia. }
  destruct s1 as [|e s2]; [done|]. cbn [length] in Hn.
  destruct (e =? 117).
  2:{ destruct (unescape e) as [c'|]; [|done].
      destruct (IH s2 (c' :: acc)) as [H1 H2]; [lia|]. split; [done|].
      intros t r H. apply H2 in H. cbn [length]. lia. }
  destruct s2 as [|h1 [|h2 [|h3 [|h4 s3]]]]; try done.
  cbn [length] in Hn.
  destruct (hex4 h1 h2 h3 h4) as [u|]; [|done].
  assert (scanstring s3 (u :: acc) <> OutOfFuel
          /\ forall t r, scanstring s3 (u :: acc) = Parsed t r ->
                         (length r < length (c :: e :: h1 :: h2 :: h3 :: h4 :: s3))%nat)
    as Hplain.
  { destruct (IH s3 (u :: acc)) as [H1 H2]; [lia|]. split; [done|].
    intros t r H. apply H2 in H. cbn [length]. lia. }
  destruct s3 as [|b [|u' [|l1 [|l2 [|l3 [|l4 s4]]]]]]; try exact Hplain.
  destruct (is_high_surrogate u && (b =? 92) && (u' =? 117)); [|exact Hplain].
  destruct (hex4 l1 l2 l3 l4) as [u2|]; [|done].
  destruct (is_low_surrogate u2); [|exact Hplain].
  cbn [length] in Hn.
  destruct (IH s4 (join_surrogates u u2 :: acc)) as [H1 H2]; [lia|]. split; [done|].
  intros t r H. apply H2 in H. cbn [length]. lia.
Qed.

Lemma span_digits_length s ds r :
  span_digits s = (ds, r) -> length s = (length ds + length r)%nat.
Proof.
  revert ds r. induction s as [|c s IH]; intros ds r; cbn [span_digits].
  - by intros [= <- <-].
  - destruct (is_digit c).
    + destruct (span_digits s) as [ds' r'] eqn:E. intros [= <- <-].
      cbn [length]. rewrite (IH ds' r' eq_refl). lia.
    + by intros [= <- <-].
Qed.

Lemma match_number_length s :
  match_number s <> OutOfFuel
  /\ forall v r, match_number s = Parsed v r -> (length r < length s)%nat.
Proof.
  unfold match_number.
  set (sign := match s with
               | [] => (false, s)
               | c :: s' => if c =? 45 then (true, s') else (false, s)
               end).
  assert (length sign.2 <= length s)%nat as Hsign.
  { unfold sign. destruct s as [|c s']; [done|].
    destruct (c =? 45); cbn [snd length]; lia. }
  destruct sign as [neg s1]. cbn [snd] in Hsign.
  set (ip := match s1 with
             | [] => None
             | c :: s2 => if c =? 48 then Some ([c], s2)
                          else if is_digit c then Some (span_digits s1) else None
             end).
  assert (forall i s2, ip = Some (i, s2) -> (length s2 < length s1)%nat) as Hip.
  { unfold ip. destruct s1 as [|c s2]; [done|]. intros i s2'.
    destruct (c =? 48); [intros [= _ <-]; cbn [length]; lia|].
    destruct (is_digit c) eqn:Ed; [|done]. cbn [span_digits]. rewrite Ed.
    destruct (span_digits s2) as [ds r] eqn:E. intros [= _ <-].
    apply span_digits_length in E. cbn [length]. lia. }
  destruct ip as [[i s2]|]; [|done]. specialize (Hip i s2 eq_refl).
  set (fr := match s2 with
             | dot :: d :: _ =>
                 if (dot =? 46) && is_digit d then span_digits (drop 1 s2)
                 else ([], s2)
             | _ => ([], s2)
             end).
  assert (length fr.2 <= length s2)%nat as Hfr.
  { unfold fr. destruct s2 as [|dot [|d s2']]; [done|done|].
    destruct ((dot =? 46) && is_digit d); [|done].
    destruct (span_digits _) as [ds r] eqn:E. apply span_digits_length in E.
    cbn [drop length snd] in *. lia. }
  destruct fr as [frac s3]. cbn [snd] in Hfr.
  set (ex := match s3 with
             | [] => (None, s3)
             | e :: s3' =>
                 if (e =? 101) || (e =? 69) then
                   let '(eneg, s3'') :=
                     match s3' with
                     | [] => (false, s3')
                     | sg :: t => if sg =? 45 then (true, t)
                                  else if sg =? 43 then (false, t) else (false, s3')
                     end in
                   match span_digits s3'' with
                   | ([], _) => (None, s3)
                   | (eds, r) =>
                       (Some (if eneg then (- digits_value eds)%Z else digits_value eds), r)
                   end
                 else (None, s3)
             end).
  assert (length ex.2 <= length s3)%nat as Hex.
  { unfold ex. destruct s3 as [|e s3']; [done|].
    destruct ((e =? 101) || (e =? 69)); [|done].
    set (sg := match s3' with
               | [] => (false, s3')
               | sg :: t => if sg =? 45 then (true, t)
                            else if sg =? 43 then (false, t) else (false, s3')
               end).
    assert (length sg.2 <= length s3')%nat as Hsg.
    { unfold sg. destruct s3' as [|g t]; [done|].
      destruct (g =? 45); [cbn [snd length]; lia|].
      destruct (g =? 43); cbn [snd length]; lia. }
    destruct sg as [eneg s3'']. cbn [snd] in Hsg.
    destruct (span_digits s3'') as [eds r] eqn:E. apply span_digits_length in E.
    destruct eds; cbn [snd length] in *; lia. }
  destruct ex as [exv s4]. cbn [snd] in Hex.
  split; [by destruct frac, exv|].
  intros v r H. assert (r = s4) as -> by (by destruct frac, exv; injection H).
  lia.
Qed.

Lemma scan_fuel n :
  (forall s, (2 * length s < n)%nat -> progress s (scan_once n s))
  /\ (forall d s, (2 * length s + 2 <= n)%nat -> progress s (object_members n d s))
  /\ (forall acc s, (2 * length s + 2 <= n)%nat -> progress s (array_items n acc s)).
Proof.
  induction n as [|n (IHs & IHo & IHa)].
  { repeat split; intros; cbn in *; lia. }
  split; [|split].
  - intros s Hn. cbn [scan_once]. destruct s as [|c s1]; [by split|].
    cbn [length] in Hn.
    destruct (c =? 34).
    { destruct (scanstring_length (length s1) s1 [] (le_n _)) as [H1 H2].
      destruct (scanstring s1 []) as [t r| |] eqn:E; [|by split|done].
      split; [done|]. intros v r' [= _ <-]. specialize (H2 t r eq_refl).
      cbn [length]. lia. }
    destruct (c =? 123).
    { pose proof (skip_ws_length s1) as Hw.
      destruct (skip_ws s1) as [|c1 r]; [by split|].
      destruct (c1 =? 125).
      - split; [done|]. intros v r' [= _ <-]. cbn [length] in *. lia.
      - destruct (IHo [] (c1 :: r)) as [H1 H2]; [lia|]. split; [done|].
        intros v r' H. apply H2 in H. cbn [length] in *. lia. }
    destruct (c =? 91).
    { pose proof (skip_ws_length s1) as Hw.
      destruct (skip_ws s1) as [|c1 r]; [by split|].
      destruct (c1 =? 93).
      - split; [done|]. intros v r' [= _ <-]. cbn [length] in *. lia.
      - destruct (IHa [] (c1 :: r)) as [H1 H2]; [lia|]. split; [done|].
        intros v r' H. apply H2 in H. cbn [length] in *. lia. }
    assert (forall p r v, after_prefix (str p) (c :: s1) = Some r -> p <> ""%string ->
              progress (c :: s1) (Parsed v r)) as Hconst.
    { intros p r v H Hp. apply after_prefix_length in H. split; [done|].
      intros v' r' [= _ <-]. destruct p; [done|]. cbn [length] in *.
      unfold str in H. cbn in H. lia. }
    destruct (after_prefix (str "null") _) eqn:E1; [by eapply Hconst|].
    destruct (after_prefix (str "true") _) eqn:E2; [by eapply Hconst|].
    destruct (after_prefix (str "false") _) eqn:E3; [by eapply Hconst|].
    destruct (after_prefix (str "NaN") _) eqn:E4; [by eapply Hconst|].
    destruct (after_prefix (str "Infinity") _) eqn:E5; [by eapply Hconst|].
    destruct (after_prefix (str "-Infinity") _) eqn:E6; [by eapply Hconst|].
    apply match_number_length.
  - intros d s Hn. cbn [object_members]. destruct s as [|q s1]; [by split|].
    cbn [length] in Hn.
    destruct (negb (q =? 34)); [by split|].
    destruct (scanstring_length (length s1) s1 [] (le_n _)) as [H1 H2].
    destruct (scanstring s1 []) as [key s2| |] eqn:E; [|by split|done].
    specialize (H2 key s2 eq_refl).
    pose proof (skip_ws_length s2) as Hw2.
    destruct (skip_ws s2) as [|colon s3]; [by split|].
    destruct (negb (colon =? 58)); [by split|].
    pose proof (skip_ws_length s3) as Hw3. cbn [length] in Hw2.
    destruct (IHs (skip_ws s3)) as [H3 H4]; [lia|].
    destruct (scan_once n (skip_ws s3)) as [v s4| |] eqn:E4; [|by split|done].
    specialize (H4 v s4 eq_refl).
    pose proof (skip_ws_length s4) as Hw4.
    destruct (skip_ws s4) as [|c s5]; [by split|]. cbn [length] in Hw4.
    destruct (c =? 125).
    { split; [done|]. intros v' r' [= _ <-]. cbn [length]. lia. }
    destruct (c =? 44); [|by split].
    pose proof (skip_ws_length s5) as Hw5.
    destruct (IHo (dict_set key v d) (skip_ws s5)) as [H5 H6]; [lia|].
    split; [done|]. intros v' r' H. apply H6 in H. cbn [length]. lia.
  - intros acc s Hn. cbn [array_items].
    destruct (IHs s) as [H3 H4]; [lia|].
    destruct (scan_once n s) as [v s1| |] eqn:E; [|by split|done].
    specialize (H4 v s1 eq_refl).
    pose proof (skip_ws_length s1) as Hw1.
    destruct (skip_ws s1) as [|c s2]; [by split|]. cbn [length] in Hw1.
    destruct (c =? 93).
    { split; [done|]. intros v' r' [= _ <-]. lia. }
    destruct (c =? 44); [|by split].
    pose proof (skip_ws_length s2) as Hw2.
    destruct (IHa (v :: acc) (skip_ws s2)) as [H5 H6]; [lia|].
    split; [done|]. intros v' r' H. apply H6 in H. lia.
Qed.

(** The decoder never runs out of the fuel [json_loads] gives it. *)
Lemma json_loads_fuel s : scan_once (S (2 * length s)) (skip_ws s) <> OutOfFuel.
Proof.
  pose proof (skip_ws_length s).
  apply (proj1 (scan_fuel (S (2 * length s)))). lia.
Qed.


(* ===================================================================== *)
(** * Facts about the orchestrator *)
(* ===================================================================== *)

Section Orchestrator.
Context {W : Type} (world : World W).
Implicit Types σ : state (W := W).


Lemma bind_run {A B} (m : M A) (f : A -> M B) σ :
  (m ≫= f) σ =
  match m σ with
  | Returns a σ' => f a σ'
  | Throws e σ' => Throws e σ'
  | Stuck => Stuck
  end.
Proof. done. Qed.

Lemma ret_run {A} (a : A) σ : (mret a : M A) σ = Returns a σ.
Proof. done. Qed.

Lemma call_out_run {A} (f : W -> result A * W) ev σ :
  call_out f ev σ =
  let '(r, w) := f (outside σ) in
  match r with
  | Val a => Returns a (State (heap σ) (_utcp_client σ) w (trace σ ++ [ev r]))
  | Raises e => Throws e (State (heap σ) (_utcp_client σ) w (trace σ ++ [ev r]))
  end.
Proof. unfold call_out. destruct (f (outside σ)) as [r w]. done. Qed.

Lemma list_append_run l x H (h : list turn) g (w : W) t :
  H !! l = Some h ->
  list_append l x (State H g w t) = Returns tt (State (<[l := h ++ [x]]> H) g w t).
Proof. intros E. unfold list_append. cbn [heap]. by rewrite E. Qed.

Lemma list_read_run l H (h : list turn) g (w : W) t :
  H !! l = Some h ->
  list_read l (State H g w t) = Returns h (State H g w t).
Proof. intros E. unfold list_read. cbn [heap]. by rewrite E. Qed.

(** The test of [handle_user_query] on what [extract_tool_json] returns never
    raises, and fails exactly for an object with both keys. *)
Lemma no_tool_chosen_parsed raw :
  no_tool_chosen (extract_tool_json raw)
  = Val (bool_decide (parsed_tool_call raw = None)).
Proof.
  unfold parsed_tool_call.
  destruct (extract_tool_json_dict raw) as [-> | [d ->]]; [done|].
  unfold no_tool_chosen. cbn [py_bool py_in].
  destruct d as [|kv d]; [done|].
  set (D := kv :: d).
  replace (negb (negb (bool_decide (D = [])))) with false by done.
  cbv iota. cbn [mbind result_bind].
  unfold dict_has.
  destruct (dict_get (str "tool_name") D) as [n|].
  - rewrite bool_decide_eq_true_2 by eauto. cbn [negb].
    destruct (dict_get (str "arguments") D) as [a|].
    + rewrite bool_decide_eq_true_2 by eauto. done.
    + rewrite bool_decide_eq_false_2 by (by intros [? ?]). done.
  - rewrite bool_decide_eq_false_2 by (by intros [? ?]). done.
Qed.

Lemma parsed_tool_call_getitem p raw name args :
  parsed_tool_call raw = Some (name, args) ->
  py_getitem p (extract_tool_json raw) (str "tool_name") = Val name
  /\ py_getitem p (extract_tool_json raw) (str "arguments") = Val args.
Proof.
  unfold parsed_tool_call. destruct (extract_tool_json raw); try done.
  cbn [py_getitem].
  destruct (dict_get (str "tool_name") d); [|done].
  destruct (dict_get (str "arguments") d); [|done].
  by intros [= -> ->].
Qed.

Lemma init_utcp_frame σ c σ1 :
  init_utcp world σ = Returns c σ1 ->
  heap σ1 = heap σ /\ _utcp_client σ1 = Some c
  /\ exists evs, trace σ1 = trace σ ++ evs
                 /\ completions evs = [] /\ tool_calls evs = [].
Proof.
  unfold init_utcp. rewrite bind_run. unfold get_utcp_client.
  destruct (_utcp_client σ) as [c'|] eqn:E.
  - intros [= <- <-]. repeat split; [done|]. exists []. by rewrite app_nil_r.
  - rewrite bind_run, call_out_run.
    destruct (UtcpClient_create world (outside σ)) as [[c'|e] w]; [|done].
    intros [= <- <-]. repeat split. by exists [Created (Val c')].
Qed.

Lemma discover_tools_frame c q n σ tools σ1 :
  discover_tools world c q n σ = Returns tools σ1 ->
  heap σ1 = heap σ /\ _utcp_client σ1 = _utcp_client σ
  /\ exists evs, trace σ1 = trace σ ++ evs
                 /\ completions evs = [] /\ tool_calls evs = [].
Proof.
  unfold discover_tools. rewrite call_out_run.
  destruct (client_search_tools world c q n (outside σ)) as [[ts|e] w]; [|done].
  intros [= <- <-]. repeat split. by eexists [_].
Qed.

(** [handle_user_query] runs as [orchestrate] spells it out. *)
Lemma handle_user_query_run σ u l h c σ1 tools σ2 :
  heap σ !! l = Some h ->
  init_utcp world σ = Returns c σ1 ->
  discover_tools world c (str "netconf") 50 σ1 = Returns tools σ2 ->
  handle_user_query world u l σ = orchestrate world c tools u h σ2.
Proof.
  intros Hh Hi Hd.
  assert (heap σ2 !! l = Some h) as Hh2.
  { apply init_utcp_frame in Hi as (Ei & _).
    apply discover_tools_frame in Hd as (Ed & _). by rewrite Ed, Ei. }
  unfold handle_user_query, orchestrate, with_heap.
  rewrite bind_run, Hi, bind_run, Hd. cbv zeta.
  rewrite bind_run. unfold list_copy at 1. rewrite Hh2.
  set (l' := fresh (dom (heap σ2))).
  rewrite bind_run, (list_append_run _ _ _ h) by apply lookup_insert_eq.
  rewrite insert_insert_eq.
  rewrite bind_run. unfold build_tool_call_messages at 1.
  rewrite bind_run, (list_read_run _ _ _) by apply lookup_insert_eq.
  rewrite ret_run.
  rewrite bind_run. unfold chat_complete at 1. rewrite bind_run, call_out_run.
  cbn [outside heap trace _utcp_client].
  destruct (completions_create world _ (outside σ2)) as [[reply|e] w1]; [|done].
  rewrite ret_run, bind_run, no_tool_chosen_parsed. unfold lift at 1.
  destruct (parsed_tool_call (or_empty reply)) as [[name args]|] eqn:Ep.
  - rewrite bool_decide_eq_false_2 by done.
    destruct (parsed_tool_call_getitem (isprintable world) _ _ _ Ep) as [-> ->].
    rewrite bind_run. unfold lift at 1. rewrite bind_run. unfold lift at 1.
    rewrite bind_run. unfold try_except at 1. rewrite bind_run, call_out_run.
    cbn [outside heap trace _utcp_client].
    destruct (client_call_tool world c name args w1) as [[v|e] w2];
      cbn [tool_result_text]; cbv beta iota.
    + rewrite ret_run.
      rewrite bind_run, (list_append_run _ _ _ _) by apply lookup_insert_eq.
      rewrite insert_insert_eq.
      rewrite bind_run. unfold build_final_messages at 1.
      rewrite bind_run, (list_read_run _ _ _) by apply lookup_insert_eq.
      rewrite ret_run.
      rewrite bind_run. unfold chat_complete at 1. rewrite bind_run, call_out_run.
      cbn [outside heap trace _utcp_client].
      destruct (completions_create world _ w2) as [[reply2|e2] w3]; [|done].
      rewrite ret_run.
      rewrite bind_run, (list_append_run _ _ _ _) by apply lookup_insert_eq.
      rewrite insert_insert_eq. done.
    + destruct (is_Exception e); [|done].
      rewrite ret_run.
      rewrite bind_run, (list_append_run _ _ _ _) by apply lookup_insert_eq.
      rewrite insert_insert_eq.
      rewrite bind_run. unfold build_final_messages at 1.
      rewrite bind_run, (list_read_run _ _ _) by apply lookup_insert_eq.
      rewrite ret_run.
      rewrite bind_run. unfold chat_complete at 1. rewrite bind_run, call_out_run.
      cbn [outside heap trace _utcp_client].
      destruct (completions_create world _ w2) as [[reply2|e2] w3]; [|done].
      rewrite ret_run.
      rewrite bind_run, (list_append_run _ _ _ _) by apply lookup_insert_eq.
      rewrite insert_insert_eq. done.
  - rewrite bool_decide_eq_true_2 by done.
    rewrite bind_run, (list_append_run _ _ _ _) by apply lookup_insert_eq.
    rewrite insert_insert_eq. done.
Qed.

Lemma init_utcp_quiet σ c σ1 :
  init_utcp world σ = Returns c σ1 ->
  heap σ1 = heap σ /\ exists evs, trace σ1 = trace σ ++ evs /\ quiet evs.
Proof.
  unfold init_utcp. rewrite bind_run. unfold get_utcp_client.
  destruct (_utcp_client σ) as [c'|] eqn:E.
  - intros [= <- <-]. split; [done|]. exists []. by rewrite app_nil_r.
  - rewrite bind_run, call_out_run.
    destruct (UtcpClient_create world (outside σ)) as [[c'|e] w]; [|done].
    intros [= <- <-]. split; [done|]. exists [Created (Val c')].
    repeat split. by repeat constructor.
Qed.

Lemma init_utcp_throws σ e σ1 :
  init_utcp world σ = Throws e σ1 ->
  heap σ1 = heap σ /\ trace σ1 = trace σ ++ [Created (Raises e)].
Proof.
  unfold init_utcp. rewrite bind_run. unfold get_utcp_client.
  destruct (_utcp_client σ) as [c'|] eqn:E; [done|].
  rewrite bind_run, call_out_run.
  destruct (UtcpClient_create world (outside σ)) as [[c'|e'] w]; [done|].
  by intros [= <- <-].
Qed.

Lemma init_utcp_not_stuck σ : init_utcp world σ <> Stuck.
Proof.
  unfold init_utcp. rewrite bind_run. unfold get_utcp_client.
  destruct (_utcp_client σ) as [c'|] eqn:E; [done|].
  rewrite bind_run, call_out_run.
  by destruct (UtcpClient_create world (outside σ)) as [[c'|e'] w].
Qed.

Lemma discover_tools_throws c q n σ e σ1 :
  discover_tools world c q n σ = Throws e σ1 ->
  heap σ1 = heap σ /\ trace σ1 = trace σ ++ [Searched c q n (Raises e)].
Proof.
  unfold discover_tools. rewrite call_out_run.
  destruct (client_search_tools world c q n (outside σ)) as [[ts|e'] w]; [done|].
  by intros [= <- <-].
Qed.

Lemma discover_tools_not_stuck c q n σ : discover_tools world c q n σ <> Stuck.
Proof.
  unfold discover_tools. rewrite call_out_run.
  by destruct (client_search_tools world c q n (outside σ)) as [[ts|e'] w].
Qed.

Lemma setup_frame σ c σ1 tools σ2 :
  init_utcp world σ = Returns c σ1 ->
  discover_tools world c (str "netconf") 50 σ1 = Returns tools σ2 ->
  heap σ2 = heap σ
  /\ exists evs, trace σ2 = trace σ ++ evs /\ quiet evs.
Proof.
  intros Hi Hd.
  assert (heap σ1 = heap σ /\ exists ei, trace σ1 = trace σ ++ ei /\ quiet ei)
    as (Ei & ei & Ti & Ci & Ki & Ri).
  { revert Hi. unfold init_utcp. rewrite bind_run. unfold get_utcp_client.
    destruct (_utcp_client σ) as [c'|] eqn:E.
    - intros [= <- <-]. split; [done|]. exists []. by rewrite app_nil_r.
    - rewrite bind_run, call_out_run.
      destruct (UtcpClient_create world (outside σ)) as [[c'|e] w]; [|done].
      intros [= <- <-]. split; [done|]. exists [Created (Val c')].
      repeat split. by repeat constructor. }
  assert (heap σ2 = heap σ1 /\ exists ed, trace σ2 = trace σ1 ++ ed /\ quiet ed)
    as (Ed & ed & Td & Cd & Kd & Rd).
  { revert Hd. unfold discover_tools. rewrite call_out_run.
    destruct (client_search_tools world c _ _ (outside σ1)) as [[ts|e] w]; [|done].
    intros [= <- <-]. split; [done|]. eexists [_].
    repeat split. by repeat constructor. }
  split; [congruence|]. exists (ei ++ ed). rewrite Td, Ti, app_assoc.
  split; [done|]. unfold quiet, completions, tool_calls in *.
  rewrite !omap_app, Ci, Cd, Ki, Kd, Forall_app. done.
Qed.

Lemma new_events_app {A} σ (o : outcome (W := W) A) evs :
  final_trace o = trace σ ++ evs -> new_events σ o = evs.
Proof. unfold new_events. intros ->. by rewrite drop_app_length. Qed.

(** Every run of [handle_user_query]. *)
Lemma handle_user_query_cases σ u l (h : list turn) :
  heap σ !! l = Some h ->
  (exists e σ1, init_utcp world σ = Throws e σ1
                /\ handle_user_query world u l σ = Throws e σ1)
  \/ (exists c σ1 e σ2,
        init_utcp world σ = Returns c σ1
        /\ discover_tools world c (str "netconf") 50 σ1 = Throws e σ2
        /\ handle_user_query world u l σ = Throws e σ2)
  \/ (exists c σ1 tools σ2,
        init_utcp world σ = Returns c σ1
        /\ discover_tools world c (str "netconf") 50 σ1 = Returns tools σ2
        /\ handle_user_query world u l σ = orchestrate world c tools u h σ2).
Proof.
  intros Hh. destruct (init_utcp world σ) as [c σ1|e σ1|] eqn:Hi.
  - destruct (discover_tools world c (str "netconf") 50 σ1) as [ts σ2|e σ2|] eqn:Hd.
    + right; right. exists c, σ1, ts, σ2. split; [done|split; [done|]].
      by apply (handle_user_query_run σ u l h c σ1).
    + right; left. exists c, σ1, e, σ2. split; [done|split; [done|]].
      unfold handle_user_query. by rewrite bind_run, Hi, bind_run, Hd.
    + by apply discover_tools_not_stuck in Hd.
  - left. exists e, σ1. split; [done|].
    unfold handle_user_query. by rewrite bind_run, Hi.
  - by apply init_utcp_not_stuck in Hi.
Qed.

Ltac new_events_of ET :=
  erewrite new_events_app
    by (unfold final_trace, with_heap; cbn [trace];
        rewrite ET, <- !(app_assoc (A := event)); reflexivity).

(** The run without a tool call. *)
Lemma no_tool_run σ u l (h : list turn) c σ1 tools σ2 reply w :
  let msgs := tool_call_messages (h ++ [(str "user", u)])
                (tools_to_json_for_prompt tools) in
  let raw := or_empty reply in
  heap σ !! l = Some h ->
  init_utcp world σ = Returns c σ1 ->
  discover_tools world c (str "netconf") 50 σ1 = Returns tools σ2 ->
  completions_create world msgs (outside σ2) = (Val reply, w) ->
  parsed_tool_call raw = None ->
  exists l' σ',
    handle_user_query world u l σ
      = Returns (raw, str "(no tool called)", raw, l') σ'
    /\ (l' ∉ dom (heap σ))
    /\ heap σ' = <[l' := h ++ [(str "user", u); (str "assistant", raw)]]> (heap σ)
    /\ completions (new_events σ (handle_user_query world u l σ))
         = [(msgs, Val reply)]
    /\ tool_calls (new_events σ (handle_user_query world u l σ)) = [].
Proof.
  intros msgs raw Hh Hi Hd Hc Hn.
  rewrite (handle_user_query_run σ u l h c σ1 tools σ2 Hh Hi Hd).
  destruct (setup_frame _ _ _ _ _ Hi Hd) as (EH & evs & ET & EC & EK & ER).
  unfold msgs, raw in *. clear msgs raw.
  unfold orchestrate. cbv zeta. rewrite Hc, Hn.
  eexists _, _. split; [reflexivity|]. rewrite EH.
  split; [apply is_fresh|]. split; [by rewrite <- app_assoc|].
  erewrite new_events_app
    by (unfold final_trace, with_heap; cbn [trace];
        rewrite ET, <- !(app_assoc (A := event)); reflexivity).
  unfold completions, tool_calls in *. rewrite !omap_app, EC, EK. done.
Qed.

(** The run with a tool call whose failure, if any, is caught. *)
Lemma tool_run σ u l (h : list turn) c σ1 tools σ2 reply w1 name args r w2 out
    reply2 w3 :
  let h1 := h ++ [(str "user", u)] in
  let msgs := tool_call_messages h1 (tools_to_json_for_prompt tools) in
  let raw := or_empty reply in
  let call := json_dumps (extract_tool_json raw) in
  let msgs2 := final_messages (h1 ++ [(str "assistant", call)]) out in
  heap σ !! l = Some h ->
  init_utcp world σ = Returns c σ1 ->
  discover_tools world c (str "netconf") 50 σ1 = Returns tools σ2 ->
  completions_create world msgs (outside σ2) = (Val reply, w1) ->
  parsed_tool_call raw = Some (name, args) ->
  client_call_tool world c name args w1 = (r, w2) ->
  tool_result_text (isprintable world) name args r = Val out ->
  completions_create world msgs2 w2 = (Val reply2, w3) ->
  exists l' σ',
    handle_user_query world u l σ = Returns (call, out, or_empty reply2, l') σ'
    /\ (l' ∉ dom (heap σ))
    /\ heap σ' = <[l' := h ++ [(str "user", u); (str "assistant", call);
                               (str "assistant", or_empty reply2)]]> (heap σ)
    /\ completions (new_events σ (handle_user_query world u l σ))
         = [(msgs, Val reply); (msgs2, Val reply2)]
    /\ tool_calls (new_events σ (handle_user_query world u l σ))
         = [(c, name, args, r)].
Proof.
  intros h1 msgs raw call msgs2 Hh Hi Hd Hc Hp Hr Ht Hc2.
  rewrite (handle_user_query_run σ u l h c σ1 tools σ2 Hh Hi Hd).
  destruct (setup_frame _ _ _ _ _ Hi Hd) as (EH & evs & ET & EC & EK & ER).
  unfold msgs2, call, raw, msgs, h1 in *. clear msgs2 call raw msgs h1.
  unfold orchestrate. cbv zeta. rewrite Hc, Hp, Hr, Ht, Hc2.
  eexists _, _. split; [reflexivity|]. rewrite EH.
  split; [apply is_fresh|]. split; [by rewrite <- !app_assoc|].
  erewrite new_events_app
    by (unfold final_trace, with_heap; cbn [trace];
        rewrite ET, <- !(app_assoc (A := event)); reflexivity).
  unfold completions, tool_calls in *. rewrite !omap_app, EC, EK. done.
Qed.

Lemma occurs_in_mid (a x b : text) : occurs_in x (a ++ x ++ b).
Proof. by exists a, b. Qed.

Lemma occurs_in_end (a x : text) : occurs_in x (a ++ x).
Proof. exists a, []. by rewrite app_nil_r. Qed.

Lemma quiet_contained evs : quiet evs -> Forall contained evs.
Proof. intros (_ & _ & H). eapply Forall_impl; [exact H|]. by left. Qed.

Lemma fresh_frame (H : gmap loc (list turn)) (x : list turn) k :
  k ∈ dom H -> <[fresh (dom H) := x]> H !! k = H !! k.
Proof.
  intros Hk. apply lookup_insert_ne. intros <-. by apply (is_fresh (dom H)).
Qed.

Lemma contained_tool c n a r out p :
  tool_result_text p n a r = Val out -> contained (ToolCalled c n a r).
Proof.
  destruct r as [v|e]; [by left|]. cbn. destruct (is_Exception e) eqn:E; [|done].
  intros _. right. by exists c, n, a, e.
Qed.

Lemma not_contained_tool c n a r e p :
  tool_result_text p n a r = Raises e ->
  raised (ToolCalled c n a r) = Some e /\ ~ contained (ToolCalled c n a r).
Proof.
  destruct r as [v|e']; [done|]. cbn. destruct (is_Exception e') eqn:E; [done|].
  intros [= ->]. split; [done|].
  intros [H|(c0 & n0 & a0 & e0 & Heq & Hex)]; [done|].
  injection Heq as _ _ _ <-. congruence.
Qed.

Lemma not_contained_raised ev e :
  raised ev = Some e -> (forall c n a r, ev <> ToolCalled c n a r) -> ~ contained ev.
Proof. intros H Hn [?|(? & ? & ? & ? & -> & _)]; [congruence|]. by eapply Hn. Qed.

Lemma parsed_tool_call_empty : parsed_tool_call [] = None.
Proof. by vm_compute. Qed.

Ltac contained_list :=
  repeat first [apply List.Forall_nil | apply List.Forall_cons];
  try (by left); try (by eapply contained_tool).


(** ** The claims about [handle_user_query] *)


(** C1.  When the reply of phase 1 holds a tool call and [call_tool] raises an
    [Exception] [e], [handle_user_query] catches it: the tool-result text is
    ["Tool call error for <name> with args <arguments>:\n<str(e)>"], in
    which the name, the arguments and the error text occur; the phase-2
    completion is made with that text, and once it answers the function
    returns, with a new history that holds the caller's turns and three
    more (user, assistant call, assistant final answer). *)
Theorem tool_failure_is_contained σ u l (h : list turn) c σ1 tools σ2 reply w1
    name args e w2 reply2 w3 :
  let h1 := h ++ [(str "user", u)] in
  let msgs := tool_call_messages h1 (tools_to_json_for_prompt tools) in
  let raw := or_empty reply in
  let call := json_dumps (extract_tool_json raw) in
  let out := str "Tool call error for " ++ py_str (isprintable world) name
             ++ str " with args " ++ py_str (isprintable world) args
             ++ str ":" ++ nl ++ exn_str e in
  let msgs2 := final_messages (h1 ++ [(str "assistant", call)]) out in
  heap σ !! l = Some h ->
  init_utcp world σ = Returns c σ1 ->
  discover_tools world c (str "netconf") 50 σ1 = Returns tools σ2 ->
  completions_create world msgs (outside σ2) = (Val reply, w1) ->
  parsed_tool_call raw = Some (name, args) ->
  client_call_tool world c name args w1 = (Raises e, w2) ->
  is_Exception e = true ->
  completions_create world msgs2 w2 = (Val reply2, w3) ->
  exists l' σ',
    handle_user_query world u l σ = Returns (call, out, or_empty reply2, l') σ'
    /\ occurs_in (py_str (isprintable world) name) out
    /\ occurs_in (py_str (isprintable world) args) out
    /\ occurs_in (exn_str e) out
    /\ (l' ∉ dom (heap σ))
    /\ heap σ' = <[l' := h ++ [(str "user", u); (str "assistant", call);
                               (str "assistant", or_empty reply2)]]> (heap σ)
    /\ completions (new_events σ (handle_user_query world u l σ))
         = [(msgs, Val reply); (msgs2, Val reply2)]
    /\ tool_calls (new_events σ (handle_user_query world u l σ))
         = [(c, name, args, Raises e)].
Proof.
  intros h1 msgs raw call out msgs2 Hh Hi Hd Hc Hp Hr He Hc2.
  destruct (tool_run σ u l h c σ1 tools σ2 reply w1 name args (Raises e) w2 out
              reply2 w3 Hh Hi Hd Hc Hp Hr) as (l' & σ' & Hq & Hf & HH & HC & HK).
  { cbn [tool_result_text]. by rewrite He. }
  { done. }
  exists l', σ'. split; [done|].
  split; [apply occurs_in_mid|].
  split; [unfold out; rewrite (app_assoc _ (py_str _ name)), (app_assoc _ (str " with args "));
          apply occurs_in_mid|].
  split; [unfold out; rewrite !app_assoc; apply occurs_in_end|].
  done.
Qed.

(** C2.  When the test of [handle_user_query] finds no tool call in the reply of
    phase 1, the function returns the raw reply as proposed call and as
    final answer, with the tool-result text ["(no tool called)"]; it has
    made one completion call and no tool call; the updated history is a new
    list that holds the caller's turns, the user turn and the raw reply as
    an assistant turn. *)
Theorem no_tool_path σ u l (h : list turn) c σ1 tools σ2 reply w :
  let msgs := tool_call_messages (h ++ [(str "user", u)])
                (tools_to_json_for_prompt tools) in
  let raw := or_empty reply in
  heap σ !! l = Some h ->
  init_utcp world σ = Returns c σ1 ->
  discover_tools world c (str "netconf") 50 σ1 = Returns tools σ2 ->
  completions_create world msgs (outside σ2) = (Val reply, w) ->
  no_tool_chosen (extract_tool_json raw) = Val true ->
  exists l' σ',
    handle_user_query world u l σ
      = Returns (raw, str "(no tool called)", raw, l') σ'
    /\ (l' ∉ dom (heap σ))
    /\ heap σ' = <[l' := h ++ [(str "user", u); (str "assistant", raw)]]> (heap σ)
    /\ completions (new_events σ (handle_user_query world u l σ))
         = [(msgs, Val reply)]
    /\ tool_calls (new_events σ (handle_user_query world u l σ)) = [].
Proof.
  intros msgs raw Hh Hi Hd Hc Hn.
  rewrite no_tool_chosen_parsed in Hn. injection Hn as Hn.
  apply bool_decide_eq_true_1 in Hn.
  by apply (no_tool_run σ u l h c σ1 tools σ2 reply w).
Qed.

(** C3, as amended.  A reply is treated as a tool call, and the tool is
    executed, exactly when [extract_tool_json] yields an object that holds
    both keys [tool_name] and [arguments]; the two values are passed to
    [call_tool] as they are, whatever they are (the value of [arguments] is
    not inspected).  Without both keys the no-tool path is taken. *)
Theorem tool_call_needs_both_keys_only σ u l (h : list turn) c σ1 tools σ2
    reply w1 :
  let raw := or_empty reply in
  let o := handle_user_query world u l σ in
  heap σ !! l = Some h ->
  init_utcp world σ = Returns c σ1 ->
  discover_tools world c (str "netconf") 50 σ1 = Returns tools σ2 ->
  completions_create world
    (tool_call_messages (h ++ [(str "user", u)])
       (tools_to_json_for_prompt tools)) (outside σ2) = (Val reply, w1) ->
  (forall d name args r w2,
     extract_tool_json raw = JObj d ->
     dict_get (str "tool_name") d = Some name ->
     dict_get (str "arguments") d = Some args ->
     client_call_tool world c name args w1 = (r, w2) ->
     tool_calls (new_events σ o) = [(c, name, args, r)])
  /\ ((forall d, extract_tool_json raw = JObj d ->
                 dict_get (str "tool_name") d = None
                 \/ dict_get (str "arguments") d = None) ->
      tool_calls (new_events σ o) = []
      /\ exists l' σ', o = Returns (raw, str "(no tool called)", raw, l') σ').
Proof.
  intros raw o Hh Hi Hd Hc. unfold o, raw. clear o raw. split.
  - intros d name args r w2 Hx Hn Ha Hr.
    assert (parsed_tool_call (or_empty reply) = Some (name, args)) as Hp.
    { unfold parsed_tool_call. by rewrite Hx, Hn, Ha. }
    rewrite (handle_user_query_run σ u l h c σ1 tools σ2 Hh Hi Hd).
    destruct (setup_frame _ _ _ _ _ Hi Hd) as (EH & evs & ET & EC & EK & ER).
    unfold orchestrate. cbv zeta. rewrite Hc, Hp, Hr.
    destruct (tool_result_text (isprintable world) name args r) as [out|e].
    + destruct (completions_create world _ w2) as [[reply2|e] w3];
        new_events_of ET; unfold tool_calls in *; by rewrite !omap_app, EK.
    + new_events_of ET. unfold tool_calls in *. by rewrite !omap_app, EK.
  - intros Hno.
    assert (parsed_tool_call (or_empty reply) = None) as Hp.
    { unfold parsed_tool_call.
      destruct (extract_tool_json (or_empty reply)) eqn:Hx; try done.
      by destruct (Hno d eq_refl) as [-> | ->];
        [|destruct (dict_get (str "tool_name") d)]. }
    destruct (no_tool_run σ u l h c σ1 tools σ2 reply w1 Hh Hi Hd Hc Hp)
      as (l' & σ' & Hq & _ & _ & _ & HK).
    split; [done|]. by exists l', σ'.
Qed.

(** C7.  [handle_user_query] never changes the list it is given: however it
    ends, the caller's list, and every other list there was, holds what it
    held.  When it returns, the history it returns is a list that did not
    exist before, and every call out of the process either came back
    normally or was a tool call that failed with an [Exception].  When it
    raises, it raises the exception of the last call it made, a call whose
    failure is not a contained one, and returns no history. *)
Theorem caller_history_never_mutated σ u l (h : list turn) :
  heap σ !! l = Some h ->
  match handle_user_query world u l σ with
  | Returns (_, _, _, l') σ' =>
      heap σ' !! l = Some h
      /\ (l' ∉ dom (heap σ))
      /\ (forall k, k ∈ dom (heap σ) -> heap σ' !! k = heap σ !! k)
      /\ Forall contained (new_events σ (handle_user_query world u l σ))
  | Throws e σ' =>
      heap σ' !! l = Some h
      /\ (forall k, k ∈ dom (heap σ) -> heap σ' !! k = heap σ !! k)
      /\ exists evs ev,
           new_events σ (handle_user_query world u l σ) = evs ++ [ev]
           /\ Forall contained evs /\ raised ev = Some e /\ ~ contained ev
  | Stuck => False
  end.
Proof.
  intros Hh.
  assert (l ∈ dom (heap σ)) as Hl by (apply elem_of_dom; eauto).
  destruct (handle_user_query_cases σ u l h Hh)
    as [(e & σ1 & Hi & ->) | [(c & σ1 & e & σ2 & Hi & Hd & ->)
                             | (c & σ1 & tools & σ2 & Hi & Hd & ->)]].
  - apply init_utcp_throws in Hi as [EH ET]. rewrite EH.
    split; [done|]. split; [done|]. exists [], (Created (Raises e)).
    erewrite new_events_app by (cbn [final_trace]; rewrite ET; reflexivity).
    repeat split; [constructor|]. by eapply not_contained_raised; [reflexivity|].
  - apply init_utcp_quiet in Hi as (EH1 & evs & ET1 & Hq).
    apply discover_tools_throws in Hd as [EH ET]. rewrite EH, EH1.
    split; [done|]. split; [done|]. eexists evs, _.
    erewrite new_events_app
      by (cbn [final_trace]; rewrite ET, ET1, <- !(app_assoc (A := event)); reflexivity).
    repeat split; [by apply quiet_contained|]. by eapply not_contained_raised; [reflexivity|].
  - destruct (setup_frame _ _ _ _ _ Hi Hd) as (EH & evs & ET & Hq).
    pose proof (quiet_contained _ Hq) as Hcont.
    unfold orchestrate. cbv zeta. rewrite EH.
    destruct (completions_create world _ (outside σ2)) as [[reply|e] w1].
    2:{ unfold with_heap. cbn [heap].
        split; [by rewrite fresh_frame|]. split; [intros; by apply fresh_frame|].
        eexists evs, _.
        erewrite new_events_app
          by (unfold final_trace; cbn [trace];
              rewrite ET, <- !(app_assoc (A := event)); reflexivity).
        repeat split; [done|]. by eapply not_contained_raised; [reflexivity|]. }
    destruct (parsed_tool_call (or_empty reply)) as [[name args]|].
    2:{ unfold with_heap. cbn [heap].
        split; [by rewrite fresh_frame|]. split; [apply is_fresh|].
        split; [intros; by apply fresh_frame|].
        erewrite new_events_app
          by (unfold final_trace; cbn [trace];
              rewrite ET, <- !(app_assoc (A := event)); reflexivity).
        rewrite Forall_app. split; [done|]. contained_list. }
    destruct (client_call_tool world c name args w1) as [r w2].
    destruct (tool_result_text (isprintable world) name args r) as [out|e] eqn:Et.
    2:{ unfold with_heap. cbn [heap].
        split; [by rewrite fresh_frame|]. split; [intros; by apply fresh_frame|].
        eexists (evs ++ [_]), _.
        erewrite new_events_app
          by (unfold final_trace; cbn [trace];
              rewrite ET, <- !(app_assoc (A := event)); reflexivity).
        split; [rewrite <- (app_assoc evs); reflexivity|].
        split; [rewrite Forall_app; split; [done|contained_list]|].
        by eapply not_contained_tool. }
    destruct (completions_create world _ w2) as [[reply2|e] w3].
    + unfold with_heap. cbn [heap].
      split; [by rewrite fresh_frame|]. split; [apply is_fresh|].
      split; [intros; by apply fresh_frame|].
      erewrite new_events_app
        by (unfold final_trace; cbn [trace];
            rewrite ET, <- !(app_assoc (A := event)); reflexivity).
      rewrite Forall_app. split; [done|]. contained_list.
    + unfold with_heap. cbn [heap].
      split; [by rewrite fresh_frame|]. split; [intros; by apply fresh_frame|].
      eexists (evs ++ [_; _]), _.
      erewrite new_events_app
        by (unfold final_trace; cbn [trace];
            rewrite ET, <- !(app_assoc (A := event)); reflexivity).
      split; [rewrite <- (app_assoc evs); reflexivity|].
      split; [rewrite Forall_app; split; [done|]
             |split; [reflexivity|by eapply not_contained_raised; [reflexivity|]]].
      contained_list.
Qed.

(** C8.  An invocation of [handle_user_query] that returns has made one
    completion call when the reply to it holds no tool call, and two when
    it holds one; never none, never more than two. *)
Theorem completion_calls_one_or_two σ u l (h : list turn) res σ' :
  heap σ !! l = Some h ->
  handle_user_query world u l σ = Returns res σ' ->
  let cs := completions (new_events σ (handle_user_query world u l σ)) in
  (1 <= length cs <= 2)%nat
  /\ exists msgs reply,
       match parsed_tool_call (or_empty reply) with
       | None => cs = [(msgs, Val reply)]
       | Some _ =>
           exists msgs2 reply2, cs = [(msgs, Val reply); (msgs2, Val reply2)]
       end.
Proof.
  intros Hh Hr cs. unfold cs. clear cs. revert Hr.
  destruct (handle_user_query_cases σ u l h Hh)
    as [(e & σ1 & Hi & ->) | [(c & σ1 & e & σ2 & Hi & Hd & ->)
                             | (c & σ1 & tools & σ2 & Hi & Hd & ->)]];
    [done|done|].
  destruct (setup_frame _ _ _ _ _ Hi Hd) as (EH & evs & ET & EC & EK & ER).
  unfold orchestrate. cbv zeta.
  destruct (completions_create world _ (outside σ2)) as [[reply|e] w1]; [|done].
  destruct (parsed_tool_call (or_empty reply)) as [[name args]|] eqn:Ep.
  - destruct (client_call_tool world c name args w1) as [r w2].
    destruct (tool_result_text (isprintable world) name args r) as [out|e]; [|done].
    destruct (completions_create world _ w2) as [[reply2|e] w3]; [|done].
    intros _. new_events_of ET.
    unfold completions in *. rewrite !omap_app, EC. cbn [omap list_omap app length].
    split; [lia|]. eexists _, reply. rewrite Ep. eauto.
  - intros _. new_events_of ET.
    unfold completions in *. rewrite !omap_app, EC. cbn [omap list_omap app length].
    split; [lia|]. eexists _, reply. by rewrite Ep.
Qed.

(** C10.  [chat_complete] returns a string whenever it returns, the empty
    string for a content that is [None]; [extract_tool_json] returns [None]
    on the empty string; so a reply of phase 1 without content makes
    [handle_user_query] return on the no-tool path. *)
Theorem null_content_is_a_direct_answer :
  or_empty None = []
  /\ extract_tool_json [] = JNull
  /\ (forall msgs σ,
        match chat_complete world msgs σ with
        | Returns t _ =>
            exists content,
              (completions_create world msgs (outside σ)).1 = Val content
              /\ t = or_empty content
        | Throws e _ => (completions_create world msgs (outside σ)).1 = Raises e
        | Stuck => False
        end)
  /\ (forall σ u l (h : list turn) c σ1 tools σ2 w,
        heap σ !! l = Some h ->
        init_utcp world σ = Returns c σ1 ->
        discover_tools world c (str "netconf") 50 σ1 = Returns tools σ2 ->
        completions_create world
          (tool_call_messages (h ++ [(str "user", u)])
             (tools_to_json_for_prompt tools)) (outside σ2) = (Val None, w) ->
        exists l' σ',
          handle_user_query world u l σ
            = Returns ([], str "(no tool called)", [], l') σ'
          /\ heap σ' !! l' = Some (h ++ [(str "user", u); (str "assistant", [])])
          /\ tool_calls (new_events σ (handle_user_query world u l σ)) = []).
Proof.
  split; [done|]. split; [by vm_compute|]. split.
  - intros msgs σ. unfold chat_complete. rewrite bind_run, call_out_run.
    destruct (completions_create world msgs (outside σ)) as [[content|e] w];
      [|done].
    rewrite ret_run. by exists content.
  - intros σ u l h c σ1 tools σ2 w Hh Hi Hd Hc.
    destruct (no_tool_run σ u l h c σ1 tools σ2 None w Hh Hi Hd Hc
                parsed_tool_call_empty) as (l' & σ' & Hq & _ & HH & _ & HK).
    exists l', σ'. cbn [or_empty] in *. split; [done|]. split; [|done].
    rewrite HH. apply lookup_insert_eq.
Qed.

End Orchestrator.


(* ===================================================================== *)
(** * The claims about [extract_tool_json] *)
(* ===================================================================== *)


Lemma brace_free_lookup t i c :
  brace_free t -> t !! i = Some c -> c <> 123 /\ c <> 125.
Proof.
  unfold brace_free. rewrite forallb_forall. intros H Hi.
  apply list_elem_of_lookup_2, list_elem_of_In, H in Hi.
  destruct (N.eqb_spec c 123), (N.eqb_spec c 125); done.
Qed.

Lemma sample_length : length SAMPLE_CALL = 37%nat.
Proof. reflexivity. Qed.

Lemma sample_lookup_open k :
  SAMPLE_CALL !! k = Some 123 -> k = 0%nat \/ k = 29%nat.
Proof.
  intros H. assert (k < 37)%nat as Hk by (by apply lookup_lt_Some in H).
  do 37 (destruct k as [|k]; [vm_compute in H; first [by left | by right | discriminate]|]).
  lia.
Qed.

Lemma sample_lookup_close k :
  SAMPLE_CALL !! k = Some 125 -> k = 35%nat \/ k = 36%nat.
Proof.
  intros H. assert (k < 37)%nat as Hk by (by apply lookup_lt_Some in H).
  do 37 (destruct k as [|k]; [vm_compute in H; first [by left | by right | discriminate]|]).
  lia.
Qed.

Lemma around_lookup (pre post : text) i c :
  brace_free pre -> brace_free post -> c = 123 \/ c = 125 ->
  (pre ++ SAMPLE_CALL ++ post) !! i = Some c ->
  (length pre <= i)%nat /\ SAMPLE_CALL !! (i - length pre)%nat = Some c.
Proof.
  intros Hpre Hpost Hc H. rewrite !lookup_app in H.
  destruct (pre !! i) as [c'|] eqn:E1.
  { injection H as ->. apply (brace_free_lookup _ _ _ Hpre) in E1 as [? ?].
    by destruct Hc. }
  apply lookup_ge_None in E1. split; [done|].
  destruct (SAMPLE_CALL !! (i - length pre)%nat) as [c'|] eqn:E2; [done|].
  apply (brace_free_lookup _ _ _ Hpost) in H as [? ?]. by destruct Hc.
Qed.

Lemma fenced_group_of_sample pre post m :
  brace_free pre -> brace_free post ->
  search TOOL_JSON_RE (pre ++ SAMPLE_CALL ++ post) = Some m ->
  group1 m = Some SAMPLE_CALL.
Proof.
  intros Hpre Hpost (a & x & mid & y & b & Es & -> & Hx & Hy)%fenced_match_shape.
  f_equal. set (s := pre ++ SAMPLE_CALL ++ post) in *.
  assert (s !! length a = Some x) as Lx.
  { rewrite Es. by apply list_lookup_middle. }
  assert (s !! S (length a) = Some 123) as Lo.
  { rewrite Es. change (a ++ [x; 123] ++ ?t) with (a ++ [x] ++ 123 :: t).
    rewrite app_assoc. apply list_lookup_middle. rewrite length_app. cbn. lia. }
  assert (s !! (length a + 2 + length mid)%nat = Some 125) as Lc.
  { rewrite Es. change ([125; y] ++ b) with (125 :: y :: b).
    rewrite !app_assoc. apply list_lookup_middle. rewrite !length_app. cbn. lia. }
  assert (s !! (length a + 3 + length mid)%nat = Some y) as Ly.
  { rewrite Es. change ([125; y] ++ b) with ([125] ++ y :: b).
    rewrite !app_assoc. apply list_lookup_middle. rewrite !length_app. cbn. lia. }
  apply around_lookup in Lo as [Ho1 Ho2]; [|done|done|by left].
  apply around_lookup in Lc as [Hc1 Hc2]; [|done|done|by right].
  apply sample_lookup_open in Ho2. apply sample_lookup_close in Hc2.
  assert (S (length a) = length pre) as Ea.
  { destruct Ho2 as [?|Ho2]; [lia|]. exfalso.
    assert (SAMPLE_CALL !! 28%nat = Some x) as Lx'.
    { unfold s in Lx. rewrite lookup_app_r, lookup_app_l in Lx by (rewrite ?sample_length; lia).
      by replace (length a - length pre)%nat with 28%nat in Lx by lia. }
    injection Lx' as <-. by destruct Hx. }
  assert (length mid = 35%nat) as Em.
  { destruct Hc2 as [Hc2|?]; [|lia]. exfalso.
    assert (SAMPLE_CALL !! 36%nat = Some y) as Ly'.
    { unfold s in Ly. rewrite lookup_app_r, lookup_app_l in Ly by (rewrite ?sample_length; lia).
      by replace (length a + 3 + length mid - length pre)%nat with 36%nat in Ly by lia. }
    injection Ly' as <-. by destruct Hy. }
  assert (take 37 (drop (length pre) s) = SAMPLE_CALL) as <-.
  { unfold s. rewrite drop_app_length. by rewrite take_app_length'. }
  rewrite Es. rewrite <- Ea.
  replace (a ++ [x; 123] ++ mid ++ [125; y] ++ b)
    with ((a ++ [x]) ++ (123 :: mid ++ [125]) ++ y :: b).
  2:{ rewrite <- !app_assoc. cbn. by rewrite <- !app_assoc. }
  rewrite drop_app_length' by (rewrite length_app; cbn; lia).
  rewrite take_app_length' by (cbn; rewrite length_app; cbn; lia). done.
Qed.

Lemma find_first_app_sample (pre post : text) :
  brace_free pre ->
  find_first 123 (pre ++ SAMPLE_CALL ++ post) = Some (length pre).
Proof.
  intros Hpre. induction pre as [|c pre IH]; [done|].
  unfold brace_free in Hpre. cbn [forallb] in Hpre.
  apply andb_prop in Hpre as [Hc Hpre]. cbn [app find_first length].
  rewrite N.eqb_sym. destruct (c =? 123); [done|]. by rewrite IH.
Qed.

Lemma find_last_brace_free (t : text) : brace_free t -> find_last 125 t = None.
Proof.
  induction t as [|c t IH]; [done|]. unfold brace_free. cbn [forallb find_last].
  intros [Hc Ht]%andb_prop. rewrite IH by done. rewrite N.eqb_sym.
  destruct (c =? 125); [|done]. by rewrite orb_true_r in Hc.
Qed.

Lemma find_last_app_none c (a b : text) :
  find_last c b = None -> find_last c (a ++ b) = find_last c a.
Proof.
  intros H. induction a as [|d a IH]; [exact H|].
  cbn [app find_last]. by rewrite IH.
Qed.

Lemma first_to_last_of_sample (pre post : text) :
  brace_free pre -> brace_free post ->
  first_to_last_brace (pre ++ SAMPLE_CALL ++ post) = Some SAMPLE_CALL.
Proof.
  intros Hpre Hpost. unfold first_to_last_brace.
  rewrite find_first_app_sample by done. cbn [mbind option_bind].
  replace (drop (S (length pre)) (pre ++ SAMPLE_CALL ++ post))
    with (drop 1 SAMPLE_CALL ++ post).
  2:{ change (S (length pre)) with (1 + length pre)%nat.
      by rewrite Nat.add_comm, <- drop_drop, drop_app_length. }
  rewrite find_last_app_none by by apply find_last_brace_free.
  replace (find_last 125 (drop 1 SAMPLE_CALL)) with (Some 35%nat) by by vm_compute.
  rewrite drop_app_length. cbn [mbind option_bind]. f_equal.
Qed.

(** C6.  On the fenced block that holds the sample call,
    [extract_tool_json] returns the object [{tool_name: "t", arguments:
    {a: 1}}]; and it returns the same object on every text that holds the
    sample call and no other brace. *)
Theorem extract_sample_fenced_or_bare :
  extract_tool_json (str "```json" ++ nl ++ SAMPLE_CALL ++ nl ++ str "```")
    = sample_call
  /\ forall pre post : text,
       brace_free pre -> brace_free post ->
       extract_tool_json (pre ++ SAMPLE_CALL ++ post) = sample_call.
Proof.
  split; [by vm_compute|]. intros pre post Hpre Hpost.
  unfold extract_tool_json.
  destruct (search TOOL_JSON_RE _) as [m|] eqn:E.
  - by rewrite (fenced_group_of_sample pre post m Hpre Hpost E).
  - rewrite search_fallback, first_to_last_of_sample by done. done.
Qed.

Lemma extract_sample_fenced_or_bare_witness :
  brace_free (str "Sure: ") /\ brace_free (str " (done)")
  /\ extract_tool_json (str "Sure: " ++ SAMPLE_CALL ++ str " (done)") = sample_call.
Proof.
  split; [reflexivity|]. split; [reflexivity|].
  apply (proj2 extract_sample_fenced_or_bare); reflexivity.
Defined.

(** C4, counterexample.  In this reply the fenced pattern finds [{x}] inside a
    string; [{x}] is no JSON, the span of the fallback is, and
    [extract_tool_json] returns [None] all the same. *)
Lemma fenced_parse_failure_is_final :
  group1 <$> search TOOL_JSON_RE FENCE_IN_STRING = Some (Some (str "{x}"))
  /\ json_loads (str "{x}") = None
  /\ group1 <$> search FALLBACK_RE FENCE_IN_STRING = Some (Some FENCE_IN_STRING)
  /\ json_loads FENCE_IN_STRING
     = Some (JObj [(str "tool_name", JStr (str "t"));
                   (str "arguments", JObj [(str "q", JStr (str "```json{x}```"))])])
  /\ extract_tool_json FENCE_IN_STRING = JNull.
Proof. repeat split; by vm_compute. Qed.

(** C4, as amended.  When the fenced pattern matches, [extract_tool_json]
    returns what the matched block decodes to, and [None] when it does not
    decode: the fallback pattern is tried only when the fenced pattern
    matches nowhere. *)
Theorem fenced_block_decides (s : text) :
  (forall m, search TOOL_JSON_RE s = Some m ->
     exists g, group1 m = Some g
               /\ extract_tool_json s = loads_or_none g
               /\ (json_loads g = None -> extract_tool_json s = JNull))
  /\ (search TOOL_JSON_RE s = None ->
      extract_tool_json s
      = match search FALLBACK_RE s with
        | Some m => from_option loads_or_none JNull (group1 m)
        | None => JNull
        end).
Proof.
  unfold extract_tool_json, loads_or_none. split.
  - intros m E. rewrite E.
    destruct (fenced_match_shape s m E) as (a & x & mid & y & b & _ & -> & _).
    eexists. split; [done|]. split; [by destruct (json_loads _)|]. by intros ->.
  - intros ->. by destruct (search FALLBACK_RE s) as [[[g|]]|].
Qed.

Lemma fenced_block_decides_witness :
  search TOOL_JSON_RE FENCE_IN_STRING = Some (MatchObj (Some (str "{x}")))
  /\ search TOOL_JSON_RE TWO_OBJECTS = None
  /\ extract_tool_json FENCE_IN_STRING = JNull
  /\ extract_tool_json TWO_OBJECTS = JNull.
Proof.
  assert (search TOOL_JSON_RE FENCE_IN_STRING = Some (MatchObj (Some (str "{x}"))))
    as H1 by by vm_compute.
  assert (search TOOL_JSON_RE TWO_OBJECTS = None) as H2 by by vm_compute.
  split; [exact H1|]. split; [exact H2|]. split.
  - destruct (proj1 (fenced_block_decides FENCE_IN_STRING) _ H1) as (g & Hg & _ & Hn).
    injection Hg as <-. apply Hn. by vm_compute.
  - rewrite (proj2 (fenced_block_decides TWO_OBJECTS) H2). by vm_compute.
Defined.

(** C5, the code on a reply with two objects.  The comment over the
    fallback of [extract_tool_json] promises the first brace-delimited
    block; the greedy pattern under it does not find it.  On this reply no
    fenced block is found, the first balanced object is the tool call and
    it decodes, but the span the fallback selects is the whole reply, from
    the first opening brace to the last closing one, and nothing is
    extracted. *)
Lemma fallback_spans_to_last_brace :
  search TOOL_JSON_RE TWO_OBJECTS = None
  /\ first_balanced_brace TWO_OBJECTS = Some (qstr "{'tool_name':'t','arguments':{}}")
  /\ json_loads (qstr "{'tool_name':'t','arguments':{}}")
     = Some (JObj [(str "tool_name", JStr (str "t")); (str "arguments", JObj [])])
  /\ group1 <$> search FALLBACK_RE TWO_OBJECTS = Some (Some TWO_OBJECTS)
  /\ group1 <$> search FALLBACK_RE TWO_OBJECTS
     <> Some (first_balanced_brace TWO_OBJECTS)
  /\ extract_tool_json TWO_OBJECTS = JNull.
Proof. repeat split; by vm_compute. Qed.

(** What the pattern of the fallback does on every text: it selects the span
    from the first opening brace of the text to its last closing brace; when
    the fenced pattern matches nowhere, the function returns what that span
    decodes to, and [None] when there is no such span or it does not
    decode. *)
Theorem fallback_is_first_to_last (s : text) :
  group1 <$> search FALLBACK_RE s = Some <$> first_to_last_brace s
  /\ (search TOOL_JSON_RE s = None ->
      extract_tool_json s = from_option loads_or_none JNull (first_to_last_brace s)).
Proof.
  rewrite search_fallback. split.
  - by destruct (first_to_last_brace s).
  - intros E. unfold extract_tool_json, loads_or_none. rewrite E, search_fallback.
    destruct (first_to_last_brace s) as [g|]; [|done]. cbn.
    by destruct (json_loads g).
Qed.

Lemma fallback_is_first_to_last_witness :
  search TOOL_JSON_RE TWO_OBJECTS = None
  /\ first_to_last_brace TWO_OBJECTS = Some TWO_OBJECTS
  /\ extract_tool_json TWO_OBJECTS = loads_or_none TWO_OBJECTS.
Proof.
  assert (search TOOL_JSON_RE TWO_OBJECTS = None) as H by by vm_compute.
  split; [exact H|]. split; [by vm_compute|].
  by rewrite (proj2 (fallback_is_first_to_last TWO_OBJECTS) H).
Defined.


(* ===================================================================== *)
(** * The claim about [init_utcp] *)
(* ===================================================================== *)

Section TaskFacts.
Context {W : Type} (world : World W).
Implicit Types σ : state (W := W).


(** A task resumed twice is a call of [init_utcp]. *)
Lemma resume_twice_is_init_utcp σ :
  let '(t1, σ1) := resume world Entered σ in
  let '(t2, σ2) := resume world t1 σ1 in
  match init_utcp world σ with
  | Returns c σ' => t2 = Finished (Val c) /\ σ2 = σ'
  | Throws e σ' => t2 = Finished (Raises e) /\ σ2 = σ'
  | Stuck => False
  end.
Proof.
  unfold init_utcp. rewrite bind_run. unfold get_utcp_client. cbn [resume].
  destruct (_utcp_client σ) as [c|] eqn:E.
  - cbn [resume]. rewrite ret_run. split; [done|]. by destruct σ.
  - cbn [resume]. rewrite bind_run, call_out_run.
    destruct (UtcpClient_create world (outside σ)) as [[c|e] w]; [|by rewrite E].
    rewrite bind_run. unfold set_utcp_client. by rewrite ret_run.
Qed.

Lemma in_turn_stored n σ c :
  _utcp_client σ = Some c ->
  in_turn world n σ = (replicate n (Finished (Val c)), σ).
Proof.
  intros E. induction n as [|n IH]; [done|].
  cbn [in_turn resume]. rewrite E. cbn [resume]. by rewrite IH.
Qed.

(** C9, as amended.  [init_utcp] takes no lock.  A call entered when
    [_utcp_client] is set returns the stored client at once, with no call
    out and no change of state; and among calls that run one after the
    other at most one constructs a client, which every call that returns a
    client returns. *)
Theorem calls_in_turn_construct_once n σ :
  (forall c, _utcp_client σ = Some c ->
             resume world Entered σ = (Finished (Val c), σ))
  /\ let '(ts, σ') := in_turn world n σ in
     exists evs,
       trace σ' = trace σ ++ evs
       /\ (length (constructed evs) <= 1)%nat
       /\ forall c, Finished (Val c) ∈ ts -> _utcp_client σ' = Some c.
Proof.
  split; [intros c E; cbn; by rewrite E|].
  revert σ. induction n as [|n IH]; intros σ.
  - cbn [in_turn]. exists []. rewrite app_nil_r. split; [done|].
    split; [cbn; lia|]. by intros c H%elem_of_nil.
  - destruct (_utcp_client σ) as [c|] eqn:E.
    { rewrite (in_turn_stored (S n) σ c E). exists []. rewrite app_nil_r.
      split; [done|]. split; [cbn; lia|].
      by intros c' [[= ->] _]%elem_of_replicate. }
    cbn [in_turn resume]. rewrite E. cbn [resume].
    destruct (UtcpClient_create world (outside σ)) as [[c|e] w].
    + rewrite in_turn_stored with (c := c) by done.
      exists [Created (Val c)]. split; [done|]. split; [cbn; lia|].
      intros c' H.
      apply elem_of_cons in H as [[= ->]|[[= ->] _]%elem_of_replicate]; done.
    + specialize (IH (State (heap σ) (_utcp_client σ) w
                        (trace σ ++ [Created (Raises e)]))).
      destruct (in_turn world n _) as [ts σ'] eqn:En.
      destruct IH as (evs & ET & EL & EC). cbn [trace] in ET.
      exists (Created (Raises e) :: evs). split; [by rewrite ET, <- app_assoc|].
      split; [exact EL|].
      intros c H. apply elem_of_cons in H as [[=]|H]. by apply EC.
Qed.

End TaskFacts.

(** C9, counterexample.  Two first calls that are both suspended in
    [UtcpClient.create] construct a client each. *)
Lemma racing_first_calls_construct_twice :
  let '(ts, σ') := run factory [0; 1; 0; 1]%nat [Entered; Entered] (start []) in
  ts = [Finished (Val 0); Finished (Val 1)]
  /\ constructed (trace σ') = [0; 1]
  /\ _utcp_client σ' = Some 1.
Proof. by vm_compute. Qed.

(* ===================================================================== *)
(** * The theorems at work on the scripted worlds *)
(* ===================================================================== *)

Lemma no_tool_path_witness :
  exists l' σ',
    handle_user_query (scripted answers_directly) (str "hi") 1%positive (start [])
    = Returns (str "hello", str "(no tool called)", str "hello", l') σ'
    /\ heap σ' !! l'
       = Some [(str "user", str "hi"); (str "assistant", str "hello")].
Proof.
  edestruct (no_tool_path (scripted answers_directly) (start []) (str "hi")
               1%positive [] 7) as (l' & σ' & H1 & H2 & H3 & H4 & H5).
  - reflexivity.
  - reflexivity.
  - reflexivity.
  - reflexivity.
  - vm_compute. reflexivity.
  - exists l', σ'. split; [exact H1|]. rewrite H3. apply lookup_insert_eq.
Defined.

Lemma tool_failure_is_contained_witness :
  exists l' σ',
    handle_user_query (scripted tool_fails) (str "hi") 1%positive (start [])
    = Returns (json_dumps sample_call,
               str "Tool call error for t with args {'a': 1}:" ++ nl ++ str "boom",
               str "done", l') σ'
    /\ heap σ' !! l'
       = Some [(str "user", str "hi"); (str "assistant", json_dumps sample_call);
               (str "assistant", str "done")].
Proof.
  edestruct (tool_failure_is_contained (scripted tool_fails) (start [])
               (str "hi") 1%positive [] 7)
    with (name := JStr (str "t")) (args := JObj [(str "a", JInt 1)])
         (e := Exn true (str "boom"))
    as (l' & σ' & H1 & _ & _ & _ & _ & H2 & _).
  - reflexivity.
  - reflexivity.
  - reflexivity.
  - reflexivity.
  - vm_compute. reflexivity.
  - reflexivity.
  - reflexivity.
  - reflexivity.
  - exists l', σ'. split; [exact H1|]. rewrite H2. apply lookup_insert_eq.
Defined.

(** C3, counterexample.  The reply [{"tool_name":"t","arguments":5}] has a
    scalar under [arguments]; it is not treated as "no call": the tool is
    called with the argument [5] and its result is what is returned as
    tool-result text. *)
Lemma scalar_arguments_are_executed :
  let o := handle_user_query (scripted scalar_arguments) (str "hi") 1%positive
             (start []) in
  extract_tool_json SCALAR_ARGUMENTS
    = JObj [(str "tool_name", JStr (str "t")); (str "arguments", JInt 5)]
  /\ tool_calls (final_trace o)
     = [(7, JStr (str "t"), JInt 5, Val (JObj [(str "ok", JBool true)]))]
  /\ (fun r => r.1.1.2) <$> returned o
     = Some (json_dumps (JObj [(str "ok", JBool true)]))
  /\ (fun r => r.1.1.2) <$> returned o <> Some (str "(no tool called)").
Proof. repeat split; by vm_compute. Qed.

Lemma tool_call_needs_both_keys_only_witness :
  tool_calls
    (new_events (start [])
       (handle_user_query (scripted scalar_arguments) (str "hi") 1%positive
          (start [])))
  = [(7, JStr (str "t"), JInt 5, Val (JObj [(str "ok", JBool true)]))].
Proof.
  edestruct (tool_call_needs_both_keys_only (scripted scalar_arguments) (start [])
               (str "hi") 1%positive [] 7) as [H _].
  - reflexivity.
  - reflexivity.
  - reflexivity.
  - reflexivity.
  - eapply H.
    + vm_compute. reflexivity.
    + reflexivity.
    + reflexivity.
    + reflexivity.
Defined.

Lemma caller_history_never_mutated_witness :
  heap (start [(str "user", str "before")]) !! 1%positive
  = Some [(str "user", str "before")]
  /\ match handle_user_query (scripted tool_fails) (str "hi") 1%positive
             (start [(str "user", str "before")]) with
     | Returns (_, _, _, l') σ' =>
         heap σ' !! 1%positive = Some [(str "user", str "before")]
         /\ l' <> 1%positive
     | _ => False
     end.
Proof.
  split; [reflexivity|].
  pose proof (caller_history_never_mutated (scripted tool_fails)
                (start [(str "user", str "before")]) (str "hi") 1%positive
                [(str "user", str "before")] eq_refl) as H.
  destruct (handle_user_query (scripted tool_fails) (str "hi") 1%positive
              (start [(str "user", str "before")]))
    as [[[[? ?] ?] l'] σ'|e σ'|] eqn:E;
    [|vm_compute in E; discriminate E|exact H].
  destruct H as (H1 & H2 & _). split; [exact H1|].
  intros ->. apply H2. apply elem_of_dom. eexists. reflexivity.
Defined.

Lemma completion_calls_one_or_two_witness :
  (1 <= length (completions
                  (new_events (start [])
                     (handle_user_query (scripted tool_fails) (str "hi")
                        1%positive (start [])))) <= 2)%nat.
Proof.
  destruct (handle_user_query (scripted tool_fails) (str "hi") 1%positive
              (start [])) as [res σ'|e σ'|] eqn:E;
    [|vm_compute in E; discriminate E..].
  pose proof (completion_calls_one_or_two (scripted tool_fails) (start [])
                (str "hi") 1%positive [] res σ' eq_refl E) as [H _].
  rewrite E in H. exact H.
Defined.

Lemma null_content_is_a_direct_answer_witness :
  exists l' σ',
    handle_user_query (scripted null_content) (str "hi") 1%positive (start [])
    = Returns ([], str "(no tool called)", [], l') σ'.
Proof.
  edestruct (null_content_is_a_direct_answer (scripted null_content))
    as (_ & _ & _ & H).
  edestruct (H (start []) (str "hi") 1%positive [] 7)
    as (l' & σ' & H1 & _).
  - reflexivity.
  - reflexivity.
  - reflexivity.
  - reflexivity.
  - by exists l', σ'.
Defined.

Lemma calls_in_turn_construct_once_witness :
  resume factory Entered (State ∅ (Some 5) 0%nat [])
  = (Finished (Val 5), State ∅ (Some 5) 0%nat [])
  /\ let '(ts, σ') := in_turn factory 3 (start []) in
     exists evs,
       trace σ' = trace (start []) ++ evs
       /\ (length (constructed evs) <= 1)%nat
       /\ forall c, Finished (Val c) ∈ ts -> _utcp_client σ' = Some c.
Proof.
  split.
  - apply (proj1 (calls_in_turn_construct_once factory 0
                    (State ∅ (Some 5) 0%nat []))). reflexivity.
  - apply (proj2 (calls_in_turn_construct_once factory 3 (start []))).
Defined.

(* ===================================================================== *)
(** * Facts about the Gradio callback *)
(* ===================================================================== *)

Lemma range_by_two_SS n :
  range_by_two (S (S n)) = 0%nat :: map (fun i => S (S i)) (range_by_two n).
Proof.
  unfold range_by_two. change (Nat.div2 (S (S (S n)))) with (S (Nat.div2 (S n))).
  cbn [seq map]. f_equal. rewrite <- seq_shift, !map_map.
  apply map_ext. intros k. lia.
Qed.

Lemma chat_row_SS a b rest i :
  chat_row (a :: b :: rest) (S (S i)) = chat_row rest i.
Proof. done. Qed.

Lemma chat_pairs_cons2 a b rest :
  chat_pairs (a :: b :: rest)
  = option_list (chat_row [a; b] 0) ++ chat_pairs rest.
Proof.
  unfold chat_pairs. cbn [length]. rewrite range_by_two_SS. cbn [omap list_omap].
  change (chat_row (a :: b :: rest) 0) with (chat_row [a; b] 0).
  assert (omap (chat_row (a :: b :: rest)) (map (fun i => S (S i)) (range_by_two (length rest)))
          = omap (chat_row rest) (range_by_two (length rest))) as ->.
  { induction (range_by_two (length rest)) as [|i l IH]; [done|].
    cbn [map omap list_omap]. rewrite chat_row_SS, IH. done. }
  by destruct (chat_row [a; b] 0).
Qed.

Lemma chat_pairs_app (h t : list turn) :
  Nat.Even (length h) -> chat_pairs (h ++ t) = chat_pairs h ++ chat_pairs t.
Proof.
  intros [k Hk]. revert h Hk. induction k as [|k IH]; intros h Hk.
  - destruct h; [done|cbn in Hk; lia].
  - destruct h as [|a [|b h]]; cbn [length] in Hk; try lia.
    cbn [app]. rewrite !chat_pairs_cons2, IH by lia. by rewrite app_assoc.
Qed.

Lemma proposed_call_nonempty a : proposed_call a <> [].
Proof.
  unfold proposed_call.
  change (str "Proposed tool call:") with (80 :: str "roposed tool call:").
  intros H. discriminate H.
Qed.

(** The rows of the three turns [on_submit] appends, behind a history of
    even length. *)
Lemma chat_pairs_new_even (h : list turn) u p f :
  Nat.Even (length h) -> p <> [] ->
  chat_pairs (h ++ [(str "user", u); (str "assistant", p); (str "assistant", f)])
  = chat_pairs h ++ [(u, p)].
Proof.
  intros He Hp. rewrite chat_pairs_app by done. f_equal.
  unfold chat_pairs. cbn [length]. 
  change (range_by_two 3) with [0; 2]%nat. cbn [omap list_omap].
  unfold chat_row. cbn [lookup list_lookup Nat.add fst snd].
  change (text_eqb (str "user") (str "user")) with true.
  change (text_eqb (str "assistant") (str "assistant")) with true.
  change (text_eqb (str "assistant") (str "user")) with false.
  cbv iota. unfold text_eqb at 2. rewrite (bool_decide_eq_false_2 (p = [])) by done.
  rewrite orb_true_r. done.
Qed.

Lemma chat_pairs_new_odd (h : list turn) u p f :
  Nat.Odd (length h) ->
  chat_pairs (h ++ [(str "user", u); (str "assistant", p); (str "assistant", f)])
  = chat_pairs h ++ (if text_eqb f [] then [] else [([], f)]).
Proof.
  intros Ho.
  destruct h as [|t h _] using rev_ind.
  { destruct Ho as [k Hk]. cbn in Hk. lia. }
  assert (Nat.Even (length h)) as He.
  { rewrite length_app in Ho. cbn in Ho. destruct Ho as [k Hk]. exists k. lia. }
  rewrite <- app_assoc, (chat_pairs_app h ([t] ++ _)), (chat_pairs_app h [t]) by done.
  rewrite <- app_assoc. f_equal. cbn [app].
  rewrite chat_pairs_cons2.
  assert (chat_row [t; (str "user", u)] 0 = chat_row [t] 0) as ->.
  { unfold chat_row. cbn [lookup list_lookup Nat.add fst snd].
    change (text_eqb (str "user") (str "assistant")) with false. done. }
  assert (option_list (chat_row [t] 0) = chat_pairs [t]) as ->.
  { unfold chat_pairs. cbn [length]. change (range_by_two 1) with [0%nat].
    cbn [omap list_omap]. by destruct (chat_row [t] 0). }
  f_equal. unfold chat_pairs. cbn [length]. change (range_by_two 2) with [0%nat].
  cbn [omap list_omap]. unfold chat_row. cbn [lookup list_lookup Nat.add fst snd].
  change (text_eqb (str "assistant") (str "assistant")) with true.
  change (text_eqb (str "assistant") (str "user")) with false.
  cbv iota. change (text_eqb [] []) with true. cbn [negb orb].
  by destruct (text_eqb f []).
Qed.

Section UiFacts.
Context {W : Type} (world : World W).
Implicit Types σ : state (W := W).

(** What [handle_user_query] leaves on the heap when it returns: one list
    more, the one it returns. *)
Lemma handle_user_query_heap σ u l (h : list turn) res σ' :
  heap σ !! l = Some h ->
  handle_user_query world u l σ = Returns res σ' ->
  res.2 = fresh (dom (heap σ))
  /\ exists hist, heap σ' = <[fresh (dom (heap σ)) := hist]> (heap σ).
Proof.
  intros Hh.
  destruct (handle_user_query_cases world σ u l h Hh)
    as [(e & σ1 & Hi & ->) | [(c & σ1 & e & σ2 & Hi & Hd & ->)
                             | (c & σ1 & tools & σ2 & Hi & Hd & ->)]];
    [done|done|].
  destruct (setup_frame world _ _ _ _ _ Hi Hd) as (EH & _).
  unfold orchestrate, with_heap. cbv zeta. rewrite EH.
  destruct (completions_create world _ (outside σ2)) as [[reply|e] w1]; [|done].
  destruct (parsed_tool_call (or_empty reply)) as [[name args]|].
  - destruct (client_call_tool world c name args w1) as [r w2].
    destruct (tool_result_text (isprintable world) name args r) as [out|e]; [|done].
    destruct (completions_create world _ w2) as [[reply2|e] w3]; [|done].
    intros [= <- <-]. split; [done|]. eauto.
  - intros [= <- <-]. split; [done|]. eauto.
Qed.

Lemma list_new_run σ :
  list_new σ = Returns (fresh (dom (heap σ)))
                 (State (<[fresh (dom (heap σ)) := []]> (heap σ)) (_utcp_client σ)
                    (outside σ) (trace σ)).
Proof. done. Qed.

(** [st or []] yields a list that holds what [st] holds, and leaves [st]
    as it is. *)
Lemma or_new_list_run σ st (h : list turn) :
  history_of σ st = Some h ->
  exists arg σ0,
    or_new_list st σ = Returns arg σ0
    /\ heap σ0 !! arg = Some h /\ history_of σ0 st = Some h
    /\ (forall k, k ∈ dom (heap σ) -> heap σ0 !! k = heap σ !! k)
    /\ trace σ0 = trace σ /\ outside σ0 = outside σ
    /\ _utcp_client σ0 = _utcp_client σ.
Proof.
  intros Hst. unfold or_new_list, state_true. destruct st as [l|]; cbn in Hst.
  - rewrite !bind_run. unfold list_read. rewrite Hst. rewrite ret_run.
    destruct h as [|t h].
    + rewrite bool_decide_eq_true_2 by done. cbn [negb]. rewrite list_new_run.
      eexists _, _. split; [reflexivity|]. cbn [heap trace outside _utcp_client history_of].
      split; [apply lookup_insert_eq|].
      assert (forall k, k ∈ dom (heap σ) ->
                <[fresh (dom (heap σ)) := []]> (heap σ) !! k = heap σ !! k) as Hf.
      { intros k Hk. by apply fresh_frame. }
      split; [|done]. rewrite Hf; [done|]. apply elem_of_dom; eauto.
    + rewrite bool_decide_eq_false_2 by done. cbn [negb]. rewrite ret_run.
      eexists _, _. split; [reflexivity|]. done.
  - injection Hst as <-. rewrite bind_run, ret_run, list_new_run.
    eexists _, _. split; [reflexivity|]. cbn [heap trace outside _utcp_client history_of].
    split; [apply lookup_insert_eq|]. split; [done|]. split; [|done].
    intros k Hk. by apply fresh_frame.
Qed.

(** [st.copy() if st else []] yields a new list that holds what [st]
    holds. *)
Lemma copy_or_new_list_run σ st (h : list turn) :
  history_of σ st = Some h ->
  copy_or_new_list st σ
  = Returns (fresh (dom (heap σ)))
      (State (<[fresh (dom (heap σ)) := h]> (heap σ)) (_utcp_client σ)
         (outside σ) (trace σ)).
Proof.
  intros Hst. unfold copy_or_new_list, state_true. destruct st as [l|]; cbn in Hst.
  - rewrite !bind_run. unfold list_read. rewrite Hst. rewrite ret_run.
    destruct h as [|t h].
    + rewrite bool_decide_eq_true_2 by done. cbn [negb]. by rewrite list_new_run.
    + rewrite bool_decide_eq_false_2 by done. cbn [negb]. unfold list_copy. by rewrite Hst.
  - injection Hst as <-. by rewrite bind_run, ret_run, list_new_run.
Qed.

Lemma history_of_frame σ σ' st (h : list turn) :
  history_of σ st = Some h ->
  (forall k, k ∈ dom (heap σ) -> heap σ' !! k = heap σ !! k) ->
  history_of σ' st = Some h.
Proof.
  destruct st as [l|]; cbn; [|done]. intros Hl Hf. rewrite Hf; [done|].
  apply elem_of_dom; eauto.
Qed.

(** A run of [on_submit] in which [handle_user_query] returns. *)
Lemma on_submit_run σ u st (h : list turn) :
  history_of σ st = Some h ->
  exists arg σ0,
    or_new_list st σ = Returns arg σ0
    /\ heap σ0 !! arg = Some h
    /\ trace σ0 = trace σ /\ outside σ0 = outside σ
    /\ _utcp_client σ0 = _utcp_client σ
    /\ match handle_user_query world u arg σ0 with
       | Returns (a, r, f, l') σ1 =>
           exists σ2,
             on_submit world u st σ
             = Returns (chat_pairs (h ++ [(str "user", u);
                                          (str "assistant", proposed_call a);
                                          (str "assistant", f)]),
                        a, r, f, l') σ2
             /\ history_of σ2 st = Some h
             /\ heap σ2 !! l' = heap σ1 !! l'
             /\ trace σ2 = trace σ1
       | Throws e σ1 => on_submit world u st σ = Throws e σ1
       | Stuck => on_submit world u st σ = Stuck
       end.
Proof.
  intros Hst.
  destruct (or_new_list_run σ st h Hst) as (arg & σ0 & Ho & Ha & Hst0 & Hf0 & Ht & Hw & Hc).
  exists arg, σ0. repeat (split; [done|]).
  unfold on_submit. rewrite bind_run, Ho, bind_run.
  destruct (handle_user_query world u arg σ0) as [[[[a r] f] l'] σ1|e σ1|] eqn:Hq; [|done..].
  destruct (handle_user_query_heap σ0 u arg h _ σ1 Ha Hq) as (El & hist & EH).
  cbn [snd] in El.
  assert (forall k, k ∈ dom (heap σ0) -> heap σ1 !! k = heap σ0 !! k) as Hf1.
  { intros k Hk. rewrite EH. by apply fresh_frame. }
  pose proof (history_of_frame σ0 σ1 st h Hst0 Hf1) as Hst1.
  rewrite bind_run, (copy_or_new_list_run σ1 st h Hst1).
  set (t := fresh (dom (heap σ1))).
  rewrite bind_run, (list_append_run _ _ _ h) by apply lookup_insert_eq.
  rewrite insert_insert_eq.
  rewrite bind_run, (list_append_run _ _ _ _) by apply lookup_insert_eq.
  rewrite insert_insert_eq.
  rewrite bind_run, (list_append_run _ _ _ _) by apply lookup_insert_eq.
  rewrite insert_insert_eq.
  rewrite bind_run, (list_read_run _ _ _) by apply lookup_insert_eq.
  rewrite ret_run. rewrite <- !app_assoc. cbn [app].
  eexists. split; [reflexivity|]. cbn [heap trace].
  assert (forall k, k ∈ dom (heap σ1) ->
            <[t := h ++ [(str "user", u); (str "assistant", proposed_call a);
                         (str "assistant", f)]]> (heap σ1) !! k = heap σ1 !! k) as Hf2.
  { intros k Hk. by apply fresh_frame. }
  split; [by eapply history_of_frame|]. split; [|done].
  apply Hf2. rewrite EH, El. set_solver.
Qed.

End UiFacts.

Section UiClaims.
Context {W : Type} (world : World W).
Implicit Types σ : state (W := W).

Lemma handle_user_query_not_stuck σ u l (h : list turn) :
  heap σ !! l = Some h -> handle_user_query world u l σ <> Stuck.
Proof.
  intros Hh.
  destruct (handle_user_query_cases world σ u l h Hh)
    as [(e & σ1 & Hi & ->) | [(c & σ1 & e & σ2 & Hi & Hd & ->)
                             | (c & σ1 & tools & σ2 & Hi & Hd & ->)]];
    [done|done|].
  unfold orchestrate. cbv zeta.
  destruct (completions_create world _ (outside σ2)) as [[reply|e] w1]; [|done].
  destruct (parsed_tool_call (or_empty reply)) as [[name args]|]; [|done].
  destruct (client_call_tool world c name args w1) as [r w2].
  destruct (tool_result_text (isprintable world) name args r) as [out|e]; [|done].
  by destruct (completions_create world _ w2) as [[reply2|e] w3].
Qed.

(** X1.  [on_submit] on a state that holds a history of even length (the
    empty one of a new conversation, or [None], among them): the query is
    run on [st or []]; when [handle_user_query] returns, the chat list is
    the rows of the stored history and one more row, the request beside the
    line that shows the proposed call; the final answer is in no row.  The
    three texts and the new state are those of [handle_user_query], and the
    list in [st] still holds what it held.  When [handle_user_query]
    raises, so does [on_submit]. *)
Theorem on_submit_even_history σ u st (h : list turn) :
  history_of σ st = Some h ->
  Nat.Even (length h) ->
  exists arg σ0,
    or_new_list st σ = Returns arg σ0
    /\ heap σ0 !! arg = Some h
    /\ match handle_user_query world u arg σ0 with
       | Returns (a, r, f, l') σ1 =>
           exists σ2,
             on_submit world u st σ
             = Returns (chat_pairs h ++ [(u, proposed_call a)], a, r, f, l') σ2
             /\ history_of σ2 st = Some h
             /\ heap σ2 !! l' = heap σ1 !! l'
       | Throws e σ1 => on_submit world u st σ = Throws e σ1
       | Stuck => False
       end.
Proof.
  intros Hst He.
  destruct (on_submit_run world σ u st h Hst)
    as (arg & σ0 & Ho & Ha & _ & _ & _ & H).
  exists arg, σ0. split; [done|]. split; [done|].
  pose proof (handle_user_query_not_stuck σ0 u arg h Ha) as Hn.
  destruct (handle_user_query world u arg σ0) as [[[[a r] f] l'] σ1|e σ1|];
    [|done..].
  destruct H as (σ2 & Hr & Hh & Hl & _). exists σ2.
  rewrite Hr, chat_pairs_new_even by (done || apply proposed_call_nonempty).
  done.
Qed.

(** X2.  [on_submit] on a state that holds a history of odd length (as it
    is after a query that called a tool, which adds three turns): when
    [handle_user_query] returns, the chat list is the rows of the stored
    history and, unless the final answer is empty, one more row that shows
    the final answer beside an empty request; neither the request nor the
    proposed call is in the chat list. *)
Theorem on_submit_odd_history σ u st (h : list turn) :
  history_of σ st = Some h ->
  Nat.Odd (length h) ->
  exists arg σ0,
    or_new_list st σ = Returns arg σ0
    /\ heap σ0 !! arg = Some h
    /\ match handle_user_query world u arg σ0 with
       | Returns (a, r, f, l') σ1 =>
           exists σ2,
             on_submit world u st σ
             = Returns (chat_pairs h ++ (if text_eqb f [] then [] else [([], f)]),
                        a, r, f, l') σ2
             /\ history_of σ2 st = Some h
             /\ heap σ2 !! l' = heap σ1 !! l'
       | Throws e σ1 => on_submit world u st σ = Throws e σ1
       | Stuck => False
       end.
Proof.
  intros Hst He.
  destruct (on_submit_run world σ u st h Hst)
    as (arg & σ0 & Ho & Ha & _ & _ & _ & H).
  exists arg, σ0. split; [done|]. split; [done|].
  pose proof (handle_user_query_not_stuck σ0 u arg h Ha) as Hn.
  destruct (handle_user_query world u arg σ0) as [[[[a r] f] l'] σ1|e σ1|];
    [|done..].
  destruct H as (σ2 & Hr & Hh & Hl & _). exists σ2.
  rewrite Hr, chat_pairs_new_odd by done.
  done.
Qed.

End UiClaims.

Lemma on_submit_even_history_witness :
  exists σ2 l',
    on_submit (scripted tool_fails) (str "hi") None (start [])
    = Returns ([(str "hi", proposed_call (json_dumps sample_call))],
               json_dumps sample_call,
               str "Tool call error for t with args {'a': 1}:" ++ nl ++ str "boom",
               str "done", l') σ2.
Proof.
  destruct (on_submit_even_history (scripted tool_fails) (start []) (str "hi")
              None [] eq_refl) as (arg & σ0 & Ho & Ha & H).
  { exists 0%nat. reflexivity. }
  injection Ho as <- <-.
  destruct (handle_user_query _ _ _ _) as [[[[a r] f] l'] σ1|e σ1|] eqn:E in H;
    [|vm_compute in E; discriminate E|destruct H].
  destruct H as (σ2 & Hr & _). exists σ2, l'. rewrite Hr.
  vm_compute in E. injection E as <- <- <- <- _. reflexivity.
Defined.

Lemma on_submit_odd_history_witness :
  exists σ2 l',
    on_submit (scripted answers_directly) (str "hi") (Some 1%positive)
      (start [(str "user", str "before")])
    = Returns ([(str "before", []); ([], str "hello")],
               str "hello", str "(no tool called)", str "hello", l') σ2.
Proof.
  destruct (on_submit_odd_history (scripted answers_directly)
              (start [(str "user", str "before")]) (str "hi")
              (Some 1%positive) [(str "user", str "before")] eq_refl)
    as (arg & σ0 & Ho & Ha & H).
  { exists 0%nat. reflexivity. }
  injection Ho as <- <-.
  destruct (handle_user_query _ _ _ _) as [[[[a r] f] l'] σ1|e σ1|] eqn:E in H;
    [|vm_compute in E; discriminate E|destruct H].
  destruct H as (σ2 & Hr & _). exists σ2, l'. rewrite Hr.
  vm_compute in E. injection E as <- <- <- <- _. reflexivity.
Defined.


(* ===================================================================== *)
(** * More facts about the client *)
(* ===================================================================== *)

Lemma find_first_none c (s : list N) : c ∉ s -> find_first c s = None.
Proof.
  induction s as [|c' s IH]; [done|]. intros H.
  apply not_elem_of_cons in H as [Hne H]. cbn [find_first].
  rewrite (proj2 (N.eqb_neq c c')) by done. by rewrite IH.
Qed.

Lemma find_last_none c (s : list N) : c ∉ s -> find_last c s = None.
Proof.
  induction s as [|c' s IH]; [done|]. intros H.
  apply not_elem_of_cons in H as [Hne H]. cbn [find_last].
  rewrite IH by done. by rewrite (proj2 (N.eqb_neq c c')).
Qed.

(** The fenced pattern finds nothing in a text that lacks a brace. *)
Lemma fenced_needs_braces (s : list N) :
  123 ∉ s \/ 125 ∉ s -> search TOOL_JSON_RE s = None.
Proof.
  intros H. destruct (search TOOL_JSON_RE s) as [m|] eqn:E; [|done].
  apply fenced_match_shape in E as (a & x & mid & y & b & -> & _).
  exfalso. destruct H as [H|H]; apply H; set_solver.
Qed.

(** Nor does the fallback pattern. *)
Lemma fallback_needs_braces (s : list N) :
  123 ∉ s \/ 125 ∉ s -> search FALLBACK_RE s = None.
Proof.
  intros H. rewrite search_fallback. unfold first_to_last_brace.
  destruct H as [H|H].
  - by rewrite find_first_none.
  - destruct (find_first 123 s) as [i|]; [|done]. cbn.
    rewrite find_last_none; [done|]. intros Hin. apply H.
    apply list_elem_of_lookup in Hin as [j Hj]. rewrite lookup_drop in Hj.
    by eapply list_elem_of_lookup_2.
Qed.

(** X3.  A text that lacks an opening brace, or lacks a closing one, holds no
    tool call: neither the fenced pattern nor the fallback finds a span in
    it, and [extract_tool_json] returns [None]. *)
Theorem extract_needs_both_braces (s : list N) :
  123 ∉ s \/ 125 ∉ s ->
  search TOOL_JSON_RE s = None /\ search FALLBACK_RE s = None
  /\ extract_tool_json s = JNull.
Proof.
  intros H. pose proof (fenced_needs_braces s H) as H1.
  pose proof (fallback_needs_braces s H) as H2.
  split; [done|]. split; [done|].
  unfold extract_tool_json. by rewrite H1, H2.
Qed.

Lemma extract_needs_both_braces_witness :
  extract_tool_json (str "I cannot help with that } sorry") = JNull.
Proof.
  apply (extract_needs_both_braces (str "I cannot help with that } sorry")).
  left. compute_done.
Defined.

Section ClientFacts.
Context {W : Type} (world : World W).
Implicit Types σ : state (W := W).

Lemma init_utcp_cached σ c :
  _utcp_client σ = Some c -> init_utcp world σ = Returns c σ.
Proof. intros H. unfold init_utcp. rewrite bind_run. unfold get_utcp_client. by rewrite H. Qed.

(** X4.  [init_utcp] keeps the client it has constructed and nothing else:
    after a call that returned, the global holds the client and the next
    call returns it without a call out of the process; after a call that
    raised (the construction failed), the global is still [None] and the
    next call constructs again. *)
Theorem init_utcp_keeps_success_only σ :
  match init_utcp world σ with
  | Returns c σ1 =>
      _utcp_client σ1 = Some c /\ init_utcp world σ1 = Returns c σ1
  | Throws e σ1 =>
      _utcp_client σ = None /\ _utcp_client σ1 = None
      /\ new_events σ (init_utcp world σ) = [Created (Raises e)]
      /\ new_events σ1 (init_utcp world σ1)
         = [Created (UtcpClient_create world (outside σ1)).1]
  | Stuck => False
  end.
Proof.
  destruct (init_utcp world σ) as [c σ1|e σ1|] eqn:E.
  - apply init_utcp_frame in E as (_ & Hc & _). split; [done|].
    by apply init_utcp_cached.
  - revert E. unfold init_utcp at 1. rewrite bind_run. unfold get_utcp_client.
    destruct (_utcp_client σ) as [c'|] eqn:Hc; [done|].
    rewrite bind_run, call_out_run.
    destruct (UtcpClient_create world (outside σ)) as [[c'|e'] w] eqn:Ec; [done|].
    intros [= <- <-]. cbn [_utcp_client]. split; [done|]. split; [done|].
    split.
    + unfold new_events, final_trace. cbn [trace]. by rewrite drop_app_length.
    + unfold init_utcp. rewrite bind_run. unfold get_utcp_client.
      cbn [_utcp_client]. rewrite Hc. rewrite bind_run, call_out_run.
      cbn [outside trace heap _utcp_client].
      destruct (UtcpClient_create world w) as [[c2|e2] w2]; cbn [fst];
        rewrite ?bind_run; unfold set_utcp_client; rewrite ?ret_run;
        unfold new_events, final_trace; cbn [trace];
        by rewrite drop_app_length.
  - by apply init_utcp_not_stuck in E.
Qed.

(** X5.  A query that returns leaves the client in the global, and a query
    made when the global holds a client [c] constructs none: its first call
    out of the process is the search for tools on [c], made anew for every
    query with the query text [netconf] and the limit 50, and every tool
    call that follows is made on [c]. *)
Theorem queries_share_the_client σ u l (h : list turn) :
  heap σ !! l = Some h ->
  (forall res σ', handle_user_query world u l σ = Returns res σ' ->
                  is_Some (_utcp_client σ'))
  /\ (forall c, _utcp_client σ = Some c ->
        exists r rest,
          new_events σ (handle_user_query world u l σ)
          = Searched c (str "netconf") 50 r :: rest
          /\ Forall (on_client c) rest).
Proof.
  intros Hh. split.
  - intros res σ'.
    destruct (handle_user_query_cases world σ u l h Hh)
      as [(e & σ1 & Hi & ->) | [(c & σ1 & e & σ2 & Hi & Hd & ->)
                               | (c & σ1 & tools & σ2 & Hi & Hd & ->)]];
      [done|done|].
    apply init_utcp_frame in Hi as (_ & Hc & _).
    apply discover_tools_frame in Hd as (_ & Hc2 & _). rewrite Hc in Hc2.
    unfold orchestrate, with_heap. cbv zeta.
    destruct (completions_create world _ (outside σ2)) as [[reply|e] w1]; [|done].
    destruct (parsed_tool_call (or_empty reply)) as [[name args]|].
    + destruct (client_call_tool world c name args w1) as [r w2].
      destruct (tool_result_text (isprintable world) name args r) as [out|e]; [|done].
      destruct (completions_create world _ w2) as [[reply2|e] w3]; [|done].
      intros [= _ <-]. cbn [_utcp_client]. by rewrite Hc2.
    + intros [= _ <-]. cbn [_utcp_client]. by rewrite Hc2.
  - intros c Hc. pose proof (init_utcp_cached σ c Hc) as Hi.
    destruct (discover_tools world c (str "netconf") 50 σ) as [tools σ2|e σ2|] eqn:Hd.
    2:{ unfold handle_user_query. rewrite bind_run, Hi, bind_run, Hd.
        apply discover_tools_throws in Hd as [_ ET].
        eexists _, []. split; [|constructor].
        unfold new_events, final_trace. by rewrite ET, drop_app_length. }
    2:{ by apply discover_tools_not_stuck in Hd. }
    assert (exists r, trace σ2 = trace σ ++ [Searched c (str "netconf") 50 (Val r)])
      as [r ET].
    { revert Hd. unfold discover_tools. rewrite call_out_run.
      destruct (client_search_tools world c _ _ (outside σ)) as [[ts|e] w]; [|done].
      intros [= <- <-]. by exists ts. }
    rewrite (handle_user_query_run world σ u l h c σ tools σ2 Hh Hi Hd).
    exists (Val r). unfold orchestrate, with_heap. cbv zeta.
    destruct (completions_create world _ (outside σ2)) as [[reply|e] w1].
    2:{ eexists. unfold new_events, final_trace. cbn [trace].
        rewrite ET, <- !(app_assoc (A := event)), drop_app_length.
        split; [reflexivity|]. by repeat constructor. }
    destruct (parsed_tool_call (or_empty reply)) as [[name args]|].
    2:{ eexists. unfold new_events, final_trace. cbn [trace].
        rewrite ET, <- !(app_assoc (A := event)), drop_app_length.
        split; [reflexivity|]. by repeat constructor. }
    destruct (client_call_tool world c name args w1) as [r2 w2].
    destruct (tool_result_text (isprintable world) name args r2) as [out|e].
    2:{ eexists. unfold new_events, final_trace. cbn [trace].
        rewrite ET, <- !(app_assoc (A := event)), drop_app_length.
        split; [reflexivity|]. by repeat constructor. }
    destruct (completions_create world _ w2) as [[reply2|e] w3];
      eexists; unfold new_events, final_trace; cbn [trace];
      rewrite ET, <- !(app_assoc (A := event)), drop_app_length;
      (split; [reflexivity|]); by repeat constructor.
Qed.

(** X6.  What [extract_tool_json] returns is [None] or a dict, never a list,
    a string or a number; so the test [not tool_obj or "tool_name" not in
    tool_obj or "arguments" not in tool_obj] of [handle_user_query] never
    raises, and when it is false the two subscripts [tool_obj["tool_name"]]
    and [tool_obj["arguments"]] that follow find their keys. *)
Theorem extract_yields_dict_or_none (s : list N) :
  (extract_tool_json s = JNull \/ exists d, extract_tool_json s = JObj d)
  /\ (exists b, no_tool_chosen (extract_tool_json s) = Val b)
  /\ (no_tool_chosen (extract_tool_json s) = Val false ->
      exists name args,
        py_getitem (isprintable world) (extract_tool_json s) (str "tool_name")
        = Val name
        /\ py_getitem (isprintable world) (extract_tool_json s) (str "arguments")
           = Val args).
Proof.
  split; [apply extract_tool_json_dict|]. rewrite no_tool_chosen_parsed.
  split; [eauto|]. intros [= H]. apply bool_decide_eq_false_1 in H.
  destruct (parsed_tool_call s) as [[name args]|] eqn:E; [|done].
  exists name, args. by apply parsed_tool_call_getitem.
Qed.

(** X7.  A reply of phase 1 that lacks an opening or a closing brace is the
    answer: [handle_user_query] returns it as proposed call and as final
    answer with the tool-result text ["(no tool called)"], calls no tool,
    and the history it returns holds the caller's turns, the user turn and
    the reply. *)
Theorem prose_reply_is_the_answer σ u l (h : list turn) c σ1 tools σ2 reply w :
  let raw := or_empty reply in
  heap σ !! l = Some h ->
  init_utcp world σ = Returns c σ1 ->
  discover_tools world c (str "netconf") 50 σ1 = Returns tools σ2 ->
  completions_create world
    (tool_call_messages (h ++ [(str "user", u)]) (tools_to_json_for_prompt tools))
    (outside σ2) = (Val reply, w) ->
  123 ∉ raw \/ 125 ∉ raw ->
  exists l' σ',
    handle_user_query world u l σ
    = Returns (raw, str "(no tool called)", raw, l') σ'
    /\ heap σ' !! l' = Some (h ++ [(str "user", u); (str "assistant", raw)])
    /\ tool_calls (new_events σ (handle_user_query world u l σ)) = [].
Proof.
  intros raw Hh Hi Hd Hc Hb.
  assert (parsed_tool_call raw = None) as Hp.
  { unfold parsed_tool_call, extract_tool_json.
    by rewrite fenced_needs_braces, fallback_needs_braces. }
  destruct (no_tool_run world σ u l h c σ1 tools σ2 reply w Hh Hi Hd Hc Hp)
    as (l' & σ' & Hq & _ & HH & _ & HK).
  exists l', σ'. split; [done|]. split; [|done].
  rewrite HH. apply lookup_insert_eq.
Qed.

(** X8.  When the reply of phase 1 holds a tool call and [call_tool] returns
    a JSON value, the reply and the value within the limits of the
    interpreter (no run of more than 4300 digits and at most 100 opening
    brackets and braces in the reply; no integer of more than 4300 digits
    and a nesting of at most 100 in the value), the tool-result text is
    [json.dumps] of the value returned, the phase-2 completion is made with
    the history (the caller's turns, the user turn, the call as an
    assistant turn) and that text, and [handle_user_query] returns the
    call, the text and the final answer, with a new history of three turns
    more than the caller's.  (Of a value beyond those limits [json.dumps]
    raises, inside the [try], and the text is the line of the error; the
    statement does not cover it.) *)
Theorem tool_success_is_reported σ u l (h : list turn) c σ1 tools σ2 reply w1
    name args v w2 reply2 w3 :
  let h1 := h ++ [(str "user", u)] in
  let msgs := tool_call_messages h1 (tools_to_json_for_prompt tools) in
  let raw := or_empty reply in
  let call := json_dumps (extract_tool_json raw) in
  let msgs2 := final_messages (h1 ++ [(str "assistant", call)]) (json_dumps v) in
  heap σ !! l = Some h ->
  init_utcp world σ = Returns c σ1 ->
  discover_tools world c (str "netconf") 50 σ1 = Returns tools σ2 ->
  completions_create world msgs (outside σ2) = (Val reply, w1) ->
  parsed_tool_call raw = Some (name, args) ->
  text_within_limits raw = true ->
  client_call_tool world c name args w1 = (Val v, w2) ->
  within_limits v = true ->
  completions_create world msgs2 w2 = (Val reply2, w3) ->
  exists l' σ',
    handle_user_query world u l σ
    = Returns (call, json_dumps v, or_empty reply2, l') σ'
    /\ heap σ' !! l'
       = Some (h ++ [(str "user", u); (str "assistant", call);
                     (str "assistant", or_empty reply2)])
    /\ completions (new_events σ (handle_user_query world u l σ))
       = [(msgs, Val reply); (msgs2, Val reply2)]
    /\ tool_calls (new_events σ (handle_user_query world u l σ))
       = [(c, name, args, Val v)].
Proof.
  intros h1 msgs raw call msgs2 Hh Hi Hd Hc Hp _ Hr _ Hc2.
  destruct (tool_run world σ u l h c σ1 tools σ2 reply w1 name args (Val v) w2
              (json_dumps v) reply2 w3 Hh Hi Hd Hc Hp Hr eq_refl Hc2)
    as (l' & σ' & Hq & _ & HH & HC & HK).
  exists l', σ'. split; [done|]. split; [|done].
  rewrite HH. apply lookup_insert_eq.
Qed.

End ClientFacts.

Lemma tool_success_is_reported_witness :
  exists l' σ',
    handle_user_query (scripted scalar_arguments) (str "hi") 1%positive (start [])
    = Returns (json_dumps (JObj [(str "tool_name", JStr (str "t"));
                                 (str "arguments", JInt 5)]),
               json_dumps (JObj [(str "ok", JBool true)]), str "done", l') σ'.
Proof.
  edestruct (tool_success_is_reported (scripted scalar_arguments) (start [])
               (str "hi") 1%positive [] 7)
    with (name := JStr (str "t")) (args := JInt 5)
    as (l' & σ' & H & _).
  - reflexivity.
  - reflexivity.
  - reflexivity.
  - reflexivity.
  - vm_compute. reflexivity.
  - vm_compute. reflexivity.
  - reflexivity.
  - vm_compute. reflexivity.
  - reflexivity.
  - exists l', σ'. exact H.
Defined.

Lemma prose_reply_is_the_answer_witness :
  exists l' σ',
    handle_user_query (scripted answers_directly) (str "hi") 1%positive (start [])
    = Returns (str "hello", str "(no tool called)", str "hello", l') σ'.
Proof.
  edestruct (prose_reply_is_the_answer (scripted answers_directly) (start [])
               (str "hi") 1%positive [] 7) as (l' & σ' & H & _).
  - reflexivity.
  - reflexivity.
  - reflexivity.
  - reflexivity.
  - left. cbn [or_empty]. compute_done.
  - by exists l', σ'.
Defined.

Lemma queries_share_the_client_witness :
  exists r rest,
    new_events (started [])
      (handle_user_query (scripted answers_directly) (str "hi") 1%positive
         (started []))
    = Searched 7 (str "netconf") 50 r :: rest.
Proof.
  destruct (queries_share_the_client (scripted answers_directly)
              (started []) (str "hi") 1%positive [] eq_refl) as [_ H].
  destruct (H 7 eq_refl) as (r & rest & E & _). by exists r, rest.
Defined.


(* ===================================================================== *)
(** * What [json.loads] reads of what [json.dumps] writes *)
(* ===================================================================== *)

(* facts: numbers *)

Lemma digits_cons :
  digits Decimal.Nil = []
  /\ (forall d, digits (Decimal.D0 d) = 48 :: digits d)
  /\ (forall d, digits (Decimal.D1 d) = 49 :: digits d)
  /\ (forall d, digits (Decimal.D2 d) = 50 :: digits d)
  /\ (forall d, digits (Decimal.D3 d) = 51 :: digits d)
  /\ (forall d, digits (Decimal.D4 d) = 52 :: digits d)
  /\ (forall d, digits (Decimal.D5 d) = 53 :: digits d)
  /\ (forall d, digits (Decimal.D6 d) = 54 :: digits d)
  /\ (forall d, digits (Decimal.D7 d) = 55 :: digits d)
  /\ (forall d, digits (Decimal.D8 d) = 56 :: digits d)
  /\ (forall d, digits (Decimal.D9 d) = 57 :: digits d).
Proof. repeat split. Qed.

Lemma digits_are_digits d : forallb is_digit (digits d) = true.
Proof. induction d; try done; cbn; exact IHd. Qed.

Lemma number_end_digit c rest : number_end (c :: rest) = true -> is_digit c = false.
Proof. cbn. by destruct (is_digit c). Qed.

Lemma span_digits_app ds rest :
  forallb is_digit ds = true -> number_end rest = true ->
  span_digits (ds ++ rest) = (ds, rest).
Proof.
  intros Hd Hr. induction ds as [|c ds IH]; cbn [app span_digits].
  - destruct rest as [|c rest]; [done|]. cbn [span_digits].
    by rewrite (number_end_digit c rest).
  - cbn [forallb] in Hd. apply andb_prop in Hd as [-> Hd]. by rewrite IH.
Qed.

Lemma digits_value_acc d acc :
  fold_left digit_step (digits d) (Z.pos acc) = Z.pos (Pos.of_uint_acc d acc).
Proof.
  revert acc. induction d; intros acc; [done|..];
    destruct digits_cons as (_ & H0 & H1 & H2 & H3 & H4 & H5 & H6 & H7 & H8 & H9);
    rewrite ?H0, ?H1, ?H2, ?H3, ?H4, ?H5, ?H6, ?H7, ?H8, ?H9;
    cbn [fold_left Pos.of_uint_acc]; rewrite <- IHd; f_equal;
    unfold digit_step; lia.
Qed.

Lemma digits_value_of_uint d :
  digits_value (digits d) = Z.of_N (Pos.of_uint d).
Proof.
  unfold digits_value. change (fun acc c => (acc * 10 + Z.of_N (c - 48))%Z) with digit_step.
  induction d; [done|..];
    destruct digits_cons as (_ & H0 & H1 & H2 & H3 & H4 & H5 & H6 & H7 & H8 & H9);
    rewrite ?H0, ?H1, ?H2, ?H3, ?H4, ?H5, ?H6, ?H7, ?H8, ?H9;
    cbn [fold_left Pos.of_uint]; [exact IHd|..];
    apply (digits_value_acc d).
Qed.

(** A positive number prints as digits that do not begin with a zero. *)
Lemma to_uint_head p :
  exists c t, digits (Pos.to_uint p) = c :: t /\ is_digit c = true /\ c <> 48.
Proof.
  pose proof (DecimalPos.Unsigned.to_of (Pos.to_uint p)) as H.
  rewrite DecimalPos.Unsigned.of_to in H. change (N.to_uint (N.pos p)) with (Pos.to_uint p) in H.
  pose proof (Unsigned.to_uint_nonzero p) as Hnz.
  pose proof (Unsigned.to_uint_nonnil p) as Hnn.
  destruct (Pos.to_uint p) as [|d|d|d|d|d|d|d|d|d|d] eqn:E; try done;
    try (eexists _, _; split; [reflexivity|]; split; [reflexivity|done]).
  exfalso. unfold Decimal.unorm in H. cbn [Decimal.nzhead] in H.
  assert (forall d d', Decimal.nzhead d <> Decimal.D0 d') as Hh.
  { clear. intros d. induction d; intros d'; cbn; try discriminate. apply IHd. }
  destruct (Decimal.nzhead d) eqn:En; by eapply Hh; rewrite En, H.
Qed.

Lemma dec_cases z :
  match z with
  | 0%Z => dec z = [48]
  | Z.pos p => dec z = digits (Pos.to_uint p)
  | Z.neg p => dec z = 45 :: digits (Pos.to_uint p)
  end.
Proof.
  destruct z as [|p|p]; [done|..]; unfold dec, digits; cbn [Z.to_int NilZero.string_of_int];
    pose proof (Unsigned.to_uint_nonnil p) as Hnn;
    unfold NilZero.string_of_uint; by destruct (Pos.to_uint p).
Qed.

(** The frame of [match_number] behind the integer part, when nothing of a
    fraction or an exponent follows. *)
Lemma number_end_tail rest :
  number_end rest = true ->
  match rest with
  | dot :: d :: _ => if (dot =? 46) && is_digit d then span_digits (drop 1 rest) else ([], rest)
  | _ => ([], rest)
  end = ([], rest)
  /\ match rest with
     | e :: s3' =>
         if (e =? 101) || (e =? 69) then
           let '(eneg, s3'') :=
             match s3' with
             | sg :: t =>
                 if sg =? 45 then (true, t)
                 else if sg =? 43 then (false, t)
                 else (false, s3')
             | [] => (false, s3')
             end in
           match span_digits s3'' with
           | ([], _) => (None, rest)
           | (eds, r) =>
               (Some (if eneg then (- digits_value eds)%Z else digits_value eds), r)
           end
         else (None, rest)
     | [] => (None, rest)
     end = (None, rest).
Proof.
  destruct rest as [|c rest]; [done|]. cbn [number_end].
  intros H. apply negb_true_iff in H.
  apply orb_false_elim in H as [H H69]. apply orb_false_elim in H as [H H101].
  apply orb_false_elim in H as [Hd H46].
  rewrite H46, H101, H69. cbn [andb orb]. by destruct rest.
Qed.

Lemma match_number_digits neg c t rest :
  is_digit c = true -> c <> 48 -> c <> 45 -> forallb is_digit t = true ->
  number_end rest = true ->
  match_number ((if neg : bool then [45] else []) ++ (c :: t) ++ rest)
  = Parsed (JInt (if neg then (- digits_value (c :: t))%Z else digits_value (c :: t))) rest.
Proof.
  intros Hc H48 H45 Ht Hr. unfold match_number.
  assert (span_digits ((c :: t) ++ rest) = (c :: t, rest)) as Hs.
  { apply span_digits_app; [|done]. cbn [forallb]. by rewrite Hc. }
  destruct (number_end_tail rest Hr) as [Hf He].
  destruct neg; cbn [app].
  - change (45 =? 45) with true. cbv iota.
    rewrite (proj2 (N.eqb_neq c 48)) by done. rewrite Hc.
    change (c :: t ++ rest) with ((c :: t) ++ rest). rewrite Hs.
    rewrite Hf, He. done.
  - rewrite (proj2 (N.eqb_neq c 45)) by done. cbv iota.
    rewrite (proj2 (N.eqb_neq c 48)) by done. rewrite Hc.
    change (c :: t ++ rest) with ((c :: t) ++ rest). rewrite Hs.
    rewrite Hf, He. done.
Qed.

Lemma is_digit_range c : is_digit c = true -> 48 <= c <= 57.
Proof. unfold is_digit. intros [H1 H2]%andb_prop. apply N.leb_le in H1, H2. lia. Qed.

(** [match_number] reads back the integer [dec] has printed. *)
Lemma match_number_dec z rest :
  number_end rest = true -> match_number (dec z ++ rest) = Parsed (JInt z) rest.
Proof.
  intros Hr. pose proof (dec_cases z) as Hz. destruct z as [|p|p]; rewrite Hz.
  - assert (forall c, c = 48 -> match_number ([c] ++ rest) = Parsed (JInt 0) rest) as H.
    { intros c Hc. unfold match_number. cbn [app].
      rewrite (proj2 (N.eqb_neq c 45)) by (subst c; done). cbv iota.
      rewrite (proj2 (N.eqb_eq c 48)) by done.
      destruct (number_end_tail rest Hr) as [-> ->]. by subst c. }
    by apply H.
  - destruct (to_uint_head p) as (c & t & E & Hc & H48).
    pose proof (digits_are_digits (Pos.to_uint p)) as Hd.
    pose proof (digits_value_of_uint (Pos.to_uint p)) as Hv.
    rewrite DecimalPos.Unsigned.of_to in Hv. rewrite E in *.
    cbn [forallb] in Hd. apply andb_prop in Hd as [_ Hd].
    pose proof (is_digit_range c Hc).
    change ((c :: t) ++ rest) with ([] ++ (c :: t) ++ rest).
    rewrite (match_number_digits false c t rest) by (done || lia).
    by rewrite Hv.
  - destruct (to_uint_head p) as (c & t & E & Hc & H48).
    pose proof (digits_are_digits (Pos.to_uint p)) as Hd.
    pose proof (digits_value_of_uint (Pos.to_uint p)) as Hv.
    rewrite DecimalPos.Unsigned.of_to in Hv. rewrite E in *.
    cbn [forallb] in Hd. apply andb_prop in Hd as [_ Hd].
    pose proof (is_digit_range c Hc).
    change ((45 :: c :: t) ++ rest) with ([45] ++ (c :: t) ++ rest).
    rewrite (match_number_digits true c t rest) by (done || lia).
    by rewrite Hv.
Qed.

(* facts: strings *)

Lemma hex_digit_char d : d < 16 -> hex_digit (hex_char d) = Some d.
Proof.
  intros H.
  assert (d ∈ [0;1;2;3;4;5;6;7;8;9;10;11;12;13;14;15]) as Hd.
  { rewrite !elem_of_cons. lia. }
  rewrite !elem_of_cons in Hd.
  destruct Hd as [->|[->|[->|[->|[->|[->|[->|[->|[->|[->|[->|[->|[->|[->|[->|[->|H0]]]]]]]]]]]]]]]];
    try reflexivity. by apply elem_of_nil in H0.
Qed.

Lemma hex_four c :
  hex 4 c = [hex_char (c / 16 / 16 / 16 mod 16); hex_char (c / 16 / 16 mod 16);
             hex_char (c / 16 mod 16); hex_char (c mod 16)].
Proof. reflexivity. Qed.

Lemma hex4_hex c :
  c < 65536 ->
  hex4 (hex_char (c / 16 / 16 / 16 mod 16)) (hex_char (c / 16 / 16 mod 16))
       (hex_char (c / 16 mod 16)) (hex_char (c mod 16)) = Some c.
Proof.
  intros Hc. unfold hex4.
  rewrite !hex_digit_char by (apply N.mod_lt; done).
  f_equal.
  pose proof (N.div_mod c 16). pose proof (N.div_mod (c / 16) 16).
  pose proof (N.div_mod (c / 16 / 16) 16).
  pose proof (N.div_mod (c / 16 / 16 / 16) 16).
  assert (c / 16 / 16 / 16 / 16 = 0).
  { apply N.div_small_iff; [done|].
    repeat (apply N.Div0.div_lt_upper_bound). lia. }
  lia.
Qed.

Lemma scanstring_plain c s acc :
  c <> 34 -> c <> 92 -> 31 < c ->
  scanstring (c :: s) acc = scanstring s (c :: acc).
Proof.
  intros H34 H92 H31. cbn [scanstring].
  rewrite (proj2 (N.eqb_neq c 34)), (proj2 (N.eqb_neq c 92)) by done.
  by rewrite (proj2 (N.leb_gt c 31)).
Qed.

Lemma scanstring_escape e c s acc :
  e <> 117 -> unescape e = Some c ->
  scanstring (92 :: e :: s) acc = scanstring s (c :: acc).
Proof.
  intros H117 He. cbn [scanstring]. change (92 =? 34) with false.
  change (92 =? 92) with true. cbv iota.
  by rewrite (proj2 (N.eqb_neq e 117)), He.
Qed.

Lemma scanstring_u c s acc :
  c < 65536 -> is_high_surrogate c = false ->
  scanstring (str "\u" ++ hex 4 c ++ s) acc = scanstring s (c :: acc).
Proof.
  intros Hc Hh. rewrite hex_four. change (str "\u") with [92; 117]. cbn [app scanstring].
  change (92 =? 34) with false. change (92 =? 92) with true. cbv iota.
  change (117 =? 117) with true. cbv iota. rewrite hex4_hex by done.
  rewrite Hh. cbn [andb].
  by destruct s as [|? [|? [|? [|? [|? [|? ?]]]]]].
Qed.

Lemma scanstring_pair hi lo s acc :
  hi < 65536 -> lo < 65536 ->
  is_high_surrogate hi = true -> is_low_surrogate lo = true ->
  scanstring (str "\u" ++ hex 4 hi ++ str "\u" ++ hex 4 lo ++ s) acc
  = scanstring s (join_surrogates hi lo :: acc).
Proof.
  intros Hhi Hlo Hh Hl. rewrite !hex_four. change (str "\u") with [92; 117].
  cbn [app scanstring].
  change (92 =? 34) with false. change (92 =? 92) with true. cbv iota.
  change (117 =? 117) with true. cbv iota. rewrite hex4_hex by done.
  rewrite Hh. change (92 =? 92) with true. change (117 =? 117) with true.
  cbn [andb]. rewrite hex4_hex by done. by rewrite Hl.
Qed.

Lemma surrogate_halves c :
  65536 <= c -> c < 1114112 ->
  let n := c - 65536 in
  let hi := N.lor 55296 (N.land (N.shiftr n 10) 1023) in
  let lo := N.lor 56320 (N.land n 1023) in
  hi < 65536 /\ lo < 65536
  /\ is_high_surrogate hi = true /\ is_low_surrogate lo = true
  /\ join_surrogates hi lo = c.
Proof.
  intros H1 H2 n hi lo.
  assert (forall a, a < 1024 -> N.lor 55296 a = 55296 + a
                                /\ N.lor 56320 a = 56320 + a) as Hlor.
  { intros a Ha. split.
    - rewrite <- N.lxor_lor, <- N.add_nocarry_lxor; try done;
        apply N.bits_inj; intros k; rewrite N.land_spec, N.bits_0;
        destruct (N.lt_ge_cases k 10) as [Hk|Hk].
      1,3: replace (N.testbit 55296 k) with false; [done|];
           assert (k ∈ [0;1;2;3;4;5;6;7;8;9]) as Hin by (rewrite !elem_of_cons; lia);
           rewrite !elem_of_cons in Hin;
           destruct Hin as [->|[->|[->|[->|[->|[->|[->|[->|[->|[->|H0]]]]]]]]]];
           try reflexivity; by apply elem_of_nil in H0.
      1,2: rewrite (N.bits_above_log2 a k); [apply andb_false_r|];
           destruct (N.eq_dec a 0) as [->|Hne]; [cbn; lia|];
           apply N.log2_lt_pow2; [lia|];
           apply N.lt_le_trans with (2 ^ 10); [done|by apply N.pow_le_mono_r].
    - rewrite <- N.lxor_lor, <- N.add_nocarry_lxor; try done;
        apply N.bits_inj; intros k; rewrite N.land_spec, N.bits_0;
        destruct (N.lt_ge_cases k 10) as [Hk|Hk].
      1,3: replace (N.testbit 56320 k) with false; [done|];
           assert (k ∈ [0;1;2;3;4;5;6;7;8;9]) as Hin by (rewrite !elem_of_cons; lia);
           rewrite !elem_of_cons in Hin;
           destruct Hin as [->|[->|[->|[->|[->|[->|[->|[->|[->|[->|H0]]]]]]]]]];
           try reflexivity; by apply elem_of_nil in H0.
      1,2: rewrite (N.bits_above_log2 a k); [apply andb_false_r|];
           destruct (N.eq_dec a 0) as [->|Hne]; [cbn; lia|];
           apply N.log2_lt_pow2; [lia|];
           apply N.lt_le_trans with (2 ^ 10); [done|by apply N.pow_le_mono_r]. }
  assert (N.land (N.shiftr n 10) 1023 = n / 1024 /\ N.land n 1023 = n mod 1024)
    as [Ea Eb].
  { change 1023 with (N.ones 10). rewrite !N.land_ones, N.shiftr_div_pow2.
    change (2 ^ 10) with 1024. split; [|done].
    apply N.mod_small, N.Div0.div_lt_upper_bound. unfold n. lia. }
  assert (n / 1024 < 1024 /\ n mod 1024 < 1024) as [Ha Hb].
  { split; [apply N.Div0.div_lt_upper_bound; unfold n; lia|by apply N.mod_lt]. }
  pose proof (N.div_mod n 1024) as Hn.
  unfold hi, lo. rewrite Ea, Eb.
  rewrite (proj1 (Hlor _ Ha)), (proj2 (Hlor _ Hb)).
  unfold is_high_surrogate, is_low_surrogate, join_surrogates.
  repeat split; try lia.
  - apply andb_true_intro. split; apply N.leb_le; lia.
  - apply andb_true_intro. split; apply N.leb_le; lia.
Qed.

Lemma scanstring_escape_ascii c s acc :
  is_scalar c = true ->
  scanstring (escape_ascii c ++ s) acc = scanstring s (c :: acc).
Proof.
  intros Hs. unfold escape_ascii.
  destruct (N.eqb_spec c 34) as [->|H34]; [by apply scanstring_escape|].
  destruct (N.eqb_spec c 92) as [->|H92]; [by apply scanstring_escape|].
  destruct (N.eqb_spec c 10) as [->|H10]; [by apply scanstring_escape|].
  destruct (N.eqb_spec c 13) as [->|H13]; [by apply scanstring_escape|].
  destruct (N.eqb_spec c 9) as [->|H9]; [by apply scanstring_escape|].
  destruct (N.eqb_spec c 12) as [->|H12]; [by apply scanstring_escape|].
  destruct (N.eqb_spec c 8) as [->|H8]; [by apply scanstring_escape|].
  destruct ((32 <=? c) && (c <=? 126)) eqn:Hp.
  { apply andb_prop in Hp as [H1 H2]. apply N.leb_le in H1.
    apply scanstring_plain; try done. lia. }
  unfold is_scalar in Hs.
  destruct (N.ltb_spec c 65536) as [Hlt|Hge].
  - rewrite <- app_assoc. apply scanstring_u; [done|].
    unfold is_high_surrogate.
    destruct (N.ltb_spec c 55296); [|destruct (N.ltb_spec 57343 c); [|done]].
    + apply andb_false_intro1. apply N.leb_gt. lia.
    + apply andb_false_intro2. apply N.leb_gt. lia.
  - assert (c < 1114112) as Hmax.
    { destruct (N.ltb_spec c 55296); [lia|]. cbn [orb] in Hs.
      apply andb_prop in Hs as [_ Hs]. by apply N.ltb_lt in Hs. }
    destruct (surrogate_halves c Hge Hmax) as (Hhi & Hlo & Hh & Hl & Hj).
    rewrite <- !app_assoc. rewrite scanstring_pair by done. by rewrite Hj.
Qed.

(** [scanstring] reads back what [encode_basestring_ascii] has written. *)
Lemma scanstring_encoded s rest acc :
  forallb is_scalar s = true ->
  scanstring (concat (map escape_ascii s) ++ [34] ++ rest) acc
  = Parsed (rev acc ++ s) rest.
Proof.
  revert acc. induction s as [|c s IH]; intros acc Hs.
  - cbn [map concat app scanstring]. change (34 =? 34) with true.
    by rewrite app_nil_r.
  - cbn [forallb] in Hs. apply andb_prop in Hs as [Hc Hs].
    cbn [map concat]. rewrite <- app_assoc, scanstring_escape_ascii by done.
    rewrite IH by done. cbn [rev]. by rewrite <- app_assoc.
Qed.

(* facts: fuel *)

(** More fuel does not change what a scan has found. *)
Lemma scan_mono n :
  (forall s m, (n <= m)%nat -> scan_once n s <> OutOfFuel ->
               scan_once m s = scan_once n s)
  /\ (forall d s m, (n <= m)%nat -> object_members n d s <> OutOfFuel ->
                    object_members m d s = object_members n d s)
  /\ (forall acc s m, (n <= m)%nat -> array_items n acc s <> OutOfFuel ->
                      array_items m acc s = array_items n acc s).
Proof.
  induction n as [|n (IHs & IHo & IHa)]; [by repeat split|].
  split; [|split].
  - intros s [|m] Hm; [lia|]. cbn [scan_once].
    destruct s as [|c s1]; [done|].
    destruct (c =? 34); [done|].
    destruct (c =? 123).
    { destruct (skip_ws s1) as [|c1 r]; [done|]. destruct (c1 =? 125); [done|].
      apply IHo. lia. }
    destruct (c =? 91).
    { destruct (skip_ws s1) as [|c1 r]; [done|]. destruct (c1 =? 93); [done|].
      apply IHa. lia. }
    done.
  - intros d s [|m] Hm; [lia|]. cbn [object_members].
    destruct s as [|q s1]; [done|].
    destruct (negb (q =? 34)); [done|].
    destruct (scanstring s1 []) as [key s2| |]; [|done..].
    destruct (skip_ws s2) as [|colon s3]; [done|].
    destruct (negb (colon =? 58)); [done|].
    destruct (scan_once n (skip_ws s3)) as [v s4| |] eqn:E; [| |done].
    + rewrite (IHs (skip_ws s3) m) by (lia || by rewrite E). rewrite E.
      destruct (skip_ws s4) as [|c s5]; [done|].
      destruct (c =? 125); [done|]. destruct (c =? 44); [|done].
      apply IHo. lia.
    + by rewrite (IHs (skip_ws s3) m) by (lia || by rewrite E); rewrite E.
  - intros acc s [|m] Hm; [lia|]. cbn [array_items].
    destruct (scan_once n s) as [v s1| |] eqn:E; [| |done].
    + rewrite (IHs s m) by (lia || by rewrite E). rewrite E.
      destruct (skip_ws s1) as [|c s2]; [done|].
      destruct (c =? 93); [done|]. destruct (c =? 44); [|done].
      apply IHa. lia.
    + by rewrite (IHs s m) by (lia || by rewrite E); rewrite E.
Qed.

(** What the decoder finds with some fuel, [json_loads] finds. *)
Lemma json_loads_found n s v :
  scan_once n s = Parsed v [] -> skip_ws s = s -> s <> [] ->
  (forall c t, s = c :: t -> c <> 65279) ->
  json_loads s = Some v.
Proof.
  intros Hn Hws Hne Hbom. unfold json_loads.
  destruct s as [|c t]; [done|].
  rewrite (proj2 (N.eqb_neq c 65279)) by (by eapply Hbom).
  rewrite Hws.
  pose proof (json_loads_fuel (c :: t)) as Hf. rewrite Hws in Hf.
  destruct (Nat.le_ge_cases n (S (2 * length (c :: t)))) as [Hle|Hge].
  - rewrite (proj1 (scan_mono n) _ _ Hle) by (by rewrite Hn). by rewrite Hn.
  - rewrite <- (proj1 (scan_mono _) _ _ Hge Hf). by rewrite Hn.
Qed.

(* facts: the encoder *)

Lemma json_nested_ind (P : json -> Prop) :
  P JNull -> (forall b, P (JBool b)) -> (forall z, P (JInt z)) ->
  (forall f, P (JFloat f)) -> (forall s, P (JStr s)) ->
  (forall l, Forall P l -> P (JArr l)) ->
  (forall d, Forall (fun kv => P (snd kv)) d -> P (JObj d)) ->
  forall v, P v.
Proof.
  intros HN HB HI HF HS HA HO. fix IH 1.
  intros [|b|z|f|s|l|d];
    [exact HN|apply HB|apply HI|apply HF|apply HS| |].
  - apply HA. induction l as [|x l IHl]; constructor; [apply IH|exact IHl].
  - apply HO. induction d as [|[k x] d IHd]; constructor; [apply IH|exact IHd].
Qed.

Lemma dec_head z :
  exists c t, dec z = c :: t /\ (is_digit c = true \/ c = 45)
              /\ (c = 45 -> exists c' t', t = c' :: t' /\ is_digit c' = true).
Proof.
  pose proof (dec_cases z) as Hz. destruct z as [|p|p]; rewrite Hz.
  - exists 48, []. split; [done|]. split; [by left|done].
  - destruct (to_uint_head p) as (c & t & -> & Hc & _). exists c, t.
    split; [done|]. split; [by left|]. intros ->. done.
  - destruct (to_uint_head p) as (c & t & -> & Hc & _). exists 45, (c :: t).
    split; [done|]. split; [by right|]. intros _. by exists c, t.
Qed.

(** The text of a value does not begin with white space or a closing
    bracket. *)
Lemma dumps_head level v :
  (forall f, v <> JFloat f) ->
  exists c t, dumps_at level v = c :: t /\ is_json_ws c = false /\ c <> 93.
Proof.
  intros Hf. destruct v as [|b|z|f|s|l|d].
  - by exists 110, (str "ull").
  - destruct b; [by exists 116, (str "rue")|by exists 102, (str "alse")].
  - destruct (dec_head z) as (c & t & E & Hc & _). exists c, t.
    split; [done|]. destruct Hc as [Hc| ->]; [|done].
    apply is_digit_range in Hc. split; [|lia].
    unfold is_json_ws.
    rewrite !(proj2 (N.eqb_neq c _)) by lia. done.
  - by destruct (Hf f).
  - eexists 34, _. split; [reflexivity|done].
  - destruct l; eexists 91, _; (split; [reflexivity|done]).
  - destruct d; eexists 123, _; (split; [reflexivity|done]).
Qed.

Lemma skip_ws_spaces k c t :
  is_json_ws c = false -> skip_ws (repeat 32 k ++ c :: t) = c :: t.
Proof.
  intros Hc. induction k as [|k IH]; cbn [repeat app skip_ws].
  - by rewrite Hc.
  - change (is_json_ws 32) with true. exact IH.
Qed.

Lemma skip_ws_indent level c t :
  is_json_ws c = false -> skip_ws (newline_indent level ++ c :: t) = c :: t.
Proof.
  intros Hc. unfold newline_indent, nl. rewrite <- app_assoc. cbn [app skip_ws].
  change (is_json_ws 10) with true. cbv iota. by apply skip_ws_spaces.
Qed.

Lemma skip_ws_stop c t : is_json_ws c = false -> skip_ws (c :: t) = c :: t.
Proof. intros Hc. cbn [skip_ws]. by rewrite Hc. Qed.

Lemma number_end_indent level rest : number_end (newline_indent level ++ rest) = true.
Proof. done. Qed.

Lemma plain_not_float v : plain v = true -> forall f, v <> JFloat f.
Proof. by destruct v. Qed.

Lemma scan_once_number n c t :
  is_digit c = true
  \/ (c = 45 /\ exists c' t', t = c' :: t' /\ is_digit c' = true) ->
  scan_once (S n) (c :: t) = match_number (c :: t).
Proof.
  intros Hc.
  assert (forall p q x r, after_prefix (p :: q) (x :: r)
                          = if p =? x then after_prefix q r else None) as Hap by done.
  assert (48 <= c <= 57 \/ c = 45) as Hr.
  { destruct Hc as [Hc|[-> _]]; [left; by apply is_digit_range|by right]. }
  cbn [scan_once].
  rewrite !(proj2 (N.eqb_neq c _)) by lia. cbv iota.
  change (str "null") with (110 :: str "ull").
  change (str "true") with (116 :: str "rue").
  change (str "false") with (102 :: str "alse").
  change (str "NaN") with (78 :: str "aN").
  change (str "Infinity") with (73 :: str "nfinity").
  change (str "-Infinity") with (45 :: 73 :: str "nfinity").
  rewrite !Hap.
  rewrite !(proj2 (N.eqb_neq _ c)) by lia. cbv iota.
  destruct Hc as [Hc|[-> (c' & t' & -> & Hc')]].
  - apply is_digit_range in Hc. by rewrite (proj2 (N.eqb_neq 45 c)) by lia.
  - change (45 =? 45) with true. cbv iota. rewrite Hap.
    apply is_digit_range in Hc'. by rewrite (proj2 (N.eqb_neq 73 c')) by lia.
Qed.

Lemma reads_back_scalar :
  reads_back JNull /\ (forall b, reads_back (JBool b))
  /\ (forall z, reads_back (JInt z)) /\ (forall s, reads_back (JStr s)).
Proof.
  repeat split.
  - intros _. exists 1%nat. intros [|n] level rest Hn Hr; [lia|]. by vm_compute.
  - intros b _. exists 1%nat. intros [|n] level rest Hn Hr; [lia|].
    destruct b; by vm_compute.
  - intros z _. exists 1%nat. intros [|n] level rest Hn Hr; [lia|].
    cbn [dumps_at]. destruct (dec_head z) as (c & t & E & Hc & Hm).
    pose proof (match_number_dec z rest Hr) as Hnum. rewrite E in *.
    cbn [app] in *. rewrite scan_once_number; [done|].
    destruct Hc as [Hc| ->]; [by left|right]. split; [done|].
    destruct (Hm eq_refl) as (c' & t' & -> & Hc'). by exists c', (t' ++ rest).
  - intros s Hs. exists 1%nat. intros [|n] level rest Hn Hr; [lia|].
    cbn [dumps_at plain] in *. unfold encode_basestring_ascii.
    rewrite <- !app_assoc. cbn [app scan_once]. change (34 =? 34) with true.
    cbv iota. change (34 :: rest) with ([34] ++ rest).
    by rewrite scanstring_encoded.
Qed.

Lemma join_app_head sep (p : list N) (ps : list (list N)) (rest : list N) :
  join sep (p :: ps) ++ rest
  = p ++ match ps with
         | [] => rest
         | _ :: _ => sep ++ join sep ps ++ rest
         end.
Proof. destruct ps; [done|]. cbn [join]. by rewrite <- !app_assoc. Qed.

Lemma sep_cons level (J : list N) :
  (str "," ++ newline_indent level) ++ J = 44 :: newline_indent level ++ J.
Proof. done. Qed.

Lemma array_items_read (l : list json) :
  Forall reads_back l -> forallb plain l = true -> l <> [] ->
  exists n0, forall n level acc rest, (n0 <= n)%nat ->
    array_items n acc
      (join (str "," ++ newline_indent (S level)) (map (dumps_at (S level)) l)
       ++ newline_indent level ++ str "]" ++ rest)
    = Parsed (JArr (rev acc ++ l)) rest.
Proof.
  induction l as [|x l IH]; [done|]. intros HF Hp _.
  apply Forall_cons in HF as [Hx HF]. cbn [forallb] in Hp.
  apply andb_prop in Hp as [Hpx Hp]. destruct (Hx Hpx) as [nx Hnx].
  destruct l as [|y l].
  - exists (S nx). intros [|n] level acc rest Hn; [lia|].
    cbn [map]. rewrite join_app_head. cbn [array_items].
    rewrite Hnx by (lia || apply number_end_indent).
    change (str "]" ++ rest) with (93 :: rest).
    rewrite skip_ws_indent by done. change (93 =? 93) with true. done.
  - destruct (IH HF Hp) as [n1 Hn1]; [done|].
    exists (S (max nx n1)). intros [|n] level acc rest Hn; [lia|].
    cbn [map]. rewrite join_app_head. cbn [array_items].
    rewrite Hnx by (lia || done).
    rewrite sep_cons, skip_ws_stop by done.
    change (44 =? 93) with false. change (44 =? 44) with true. cbv iota.
    destruct (dumps_head (S level) y (plain_not_float y (proj1 (andb_prop _ _ Hp))))
      as (c & t & E & Hc & _).
    pose proof (Hn1 n level (x :: acc) rest) as H1.
    cbn [map] in H1. rewrite (join_app_head _ (dumps_at (S level) y)), E in H1.
    rewrite (join_app_head _ (dumps_at (S level) y)), E.
    cbn [app] in *. rewrite skip_ws_indent by done.
    rewrite H1 by lia. cbn [rev]. by rewrite <- app_assoc.
Qed.

Lemma dict_set_new k v (d : list (list N * json)) :
  k ∉ d.*1 -> dict_set k v d = d ++ [(k, v)].
Proof.
  induction d as [|[k' v'] d IH]; [done|]. cbn [fmap list_fmap fst].
  intros H. apply not_elem_of_cons in H as [Hne H]. cbn [dict_set app].
  unfold text_eqb. rewrite bool_decide_eq_false_2 by done. by rewrite IH.
Qed.

Lemma NoDup_new_key (d0 d : list (list N * json)) k x :
  NoDup (d0 ++ (k, x) :: d).*1 -> k ∉ d0.*1.
Proof.
  rewrite fmap_app. intros (_ & H & _)%NoDup_app Hin.
  apply (H _ Hin). cbn [fmap list_fmap fst]. apply list_elem_of_here.
Qed.

Lemma entry_eq level k v (rest : list N) :
  entry level (k, v) ++ rest
  = 34 :: concat (map escape_ascii k) ++ [34]
          ++ (58 :: 32 :: dumps_at (S level) v ++ rest).
Proof.
  unfold entry, encode_basestring_ascii. cbn [fst snd].
  rewrite <- !app_assoc. done.
Qed.

Lemma object_members_read (d : list (list N * json)) :
  Forall (fun kv => reads_back (snd kv)) d ->
  forallb (fun kv => forallb is_scalar (fst kv) && plain (snd kv)) d = true ->
  d <> [] ->
  exists n0, forall n level d0 rest, (n0 <= n)%nat -> NoDup (d0 ++ d).*1 ->
    object_members n d0
      (join (str "," ++ newline_indent (S level)) (map (entry level) d)
       ++ newline_indent level ++ str "}" ++ rest)
    = Parsed (JObj (d0 ++ d)) rest.
Proof.
  induction d as [|[k x] d IH]; [done|]. intros HF Hp _.
  apply Forall_cons in HF as [Hx HF]. cbn [forallb fst snd] in Hp, Hx.
  apply andb_prop in Hp as [Hpx Hp]. apply andb_prop in Hpx as [Hk Hpx].
  destruct (Hx Hpx) as [nx Hnx].
  assert (forall n level d0 REST, (nx <= n)%nat -> number_end REST = true ->
            k ∉ d0.*1 ->
            object_members (S n) d0 (entry level (k, x) ++ REST)
            = match skip_ws REST with
              | [] => Invalid
              | c :: s5 =>
                  if c =? 125 then Parsed (JObj (d0 ++ [(k, x)])) s5
                  else if c =? 44 then object_members n (d0 ++ [(k, x)]) (skip_ws s5)
                  else Invalid
              end) as Hstep.
  { intros n level d0 REST Hn HR Hnew. rewrite entry_eq. cbn [object_members].
    change (34 =? 34) with true. cbn [negb].
    rewrite scanstring_encoded by done. cbn [rev app].
    rewrite skip_ws_stop by done. change (58 =? 58) with true. cbn [negb].
    destruct (dumps_head (S level) x (plain_not_float x Hpx)) as (c & t & E & Hc & _).
    pose proof (Hnx n (S level) REST Hn HR) as Hv. rewrite E in *. cbn [app] in *.
    rewrite (skip_ws_spaces 1 c _ Hc : skip_ws (32 :: c :: _) = _). rewrite Hv.
    by rewrite dict_set_new. }
  destruct d as [|[k' y] d].
  - exists (S nx). intros [|n] level d0 rest Hn Hnd; [lia|].
    cbn [map]. rewrite join_app_head.
    rewrite Hstep by (lia || done || by eapply NoDup_new_key).
    change (str "}" ++ rest) with (125 :: rest).
    rewrite skip_ws_indent by done. change (125 =? 125) with true. done.
  - destruct (IH HF Hp) as [n1 Hn1]; [done|].
    exists (S (max nx n1)). intros [|n] level d0 rest Hn Hnd; [lia|].
    cbn [map]. rewrite join_app_head.
    rewrite Hstep by (lia || done || by eapply NoDup_new_key).
    rewrite sep_cons, skip_ws_stop by done.
    change (44 =? 125) with false. change (44 =? 44) with true. cbv iota.
    pose proof (Hn1 n level (d0 ++ [(k, x)]) rest) as H1.
    cbn [map] in H1. rewrite (join_app_head _ (entry level (k', y))), entry_eq in H1.
    rewrite (join_app_head _ (entry level (k', y))), entry_eq.
    cbn [app] in *. rewrite skip_ws_indent by done.
    rewrite H1 by (lia || by rewrite <- app_assoc). by rewrite <- app_assoc.
Qed.

(** The decoder reads back what the encoder has written. *)
Lemma reads_back_all v : reads_back v.
Proof.
  destruct reads_back_scalar as (HN & HB & HI & HS).
  induction v as [|b|z|f|s|l IH|d IH] using json_nested_ind; try done.
  - intros Hp. cbn [plain] in Hp. destruct l as [|x l].
    + exists 1%nat. intros [|n] level rest Hn Hr; [lia|]. by vm_compute.
    + destruct (array_items_read (x :: l) IH Hp) as [n0 H0]; [done|].
      exists (S n0). intros [|n] level rest Hn Hr; [lia|].
      destruct (dumps_head (S level) x) as (c & t & E & Hc & H93).
      { apply plain_not_float. cbn [forallb] in Hp. by apply andb_prop in Hp as [? _]. }
      pose proof (H0 n level [] rest) as H1.
      cbn [dumps_at]. rewrite <- !app_assoc. change (str "[" ++ ?r) with (91 :: r).
      cbn [map] in *. rewrite join_app_head, E in *.
      cbn [scan_once app] in *. change (91 =? 34) with false.
      change (91 =? 123) with false. change (91 =? 91) with true. cbv iota.
      rewrite skip_ws_indent by done.
      rewrite (proj2 (N.eqb_neq c 93)) by done. apply H1. lia.
  - intros Hp. cbn [plain] in Hp. apply andb_prop in Hp as [Hp Hnd].
    apply bool_decide_eq_true in Hnd. destruct d as [|[k x] d].
    + exists 1%nat. intros [|n] level rest Hn Hr; [lia|]. by vm_compute.
    + destruct (object_members_read ((k, x) :: d) IH Hp) as [n0 H0]; [done|].
      exists (S n0). intros [|n] level rest Hn Hr; [lia|].
      pose proof (H0 n level [] rest) as H1.
      cbn [dumps_at]. rewrite <- !app_assoc. change (str "{" ++ ?r) with (123 :: r).
      change (map _ ((k, x) :: d)) with (map (entry level) ((k, x) :: d)).
      cbn [map] in *. rewrite join_app_head, entry_eq in *.
      cbn [scan_once app] in *. change (123 =? 34) with false.
      change (123 =? 123) with true. cbv iota.
      rewrite skip_ws_indent by done.
      change (34 =? 125) with false. cbv iota. apply H1; [lia|done].
Qed.

Lemma dumps_head_ascii level v :
  (forall f, v <> JFloat f) ->
  exists c t, dumps_at level v = c :: t /\ c < 127.
Proof.
  intros Hf. destruct v as [|b|z|f|s|l|d].
  - by exists 110, (str "ull").
  - destruct b; [by exists 116, (str "rue")|by exists 102, (str "alse")].
  - destruct (dec_head z) as (c & t & E & Hc & _). exists c, t.
    split; [done|]. destruct Hc as [Hc| ->]; [|done].
    apply is_digit_range in Hc. lia.
  - by destruct (Hf f).
  - eexists 34, _. split; [reflexivity|done].
  - destruct l; eexists 91, _; (split; [reflexivity|done]).
  - destruct d; eexists 123, _; (split; [reflexivity|done]).
Qed.

(** X9.  What [json.dumps(v, indent=2)] writes, [json.loads] reads back as
    [v], for every value [v] built from [None], booleans, integers,
    strings, lists and dicts (no floats), whose strings hold no surrogate
    code points and whose dicts hold each key once, and that is within the
    limits of the interpreter: no integer of more than 4300 digits, a
    nesting of at most 100.  So the tool list [tools_to_json_for_prompt]
    writes into the prompt, and the tool call [handle_user_query] stores in
    the history, decode to the values they were written from. *)
Theorem json_dumps_reads_back :
  (forall v, plain v = true -> within_limits v = true ->
             json_loads (json_dumps v) = Some v)
  /\ (forall tools,
        forallb (fun t => plain (model_dump t)) tools = true ->
        within_limits (JArr (map model_dump tools)) = true ->
        json_loads (tools_to_json_for_prompt tools)
        = Some (JArr (map model_dump tools))).
Proof.
  assert (forall v, plain v = true -> json_loads (json_dumps v) = Some v) as H.
  { intros v Hp. destruct (reads_back_all v Hp) as [n0 H].
    specialize (H n0 0%nat [] (le_n _) eq_refl). rewrite app_nil_r in H.
    destruct (dumps_head 0 v (plain_not_float v Hp)) as (c & t & E & Hc & _).
    destruct (dumps_head_ascii 0 v (plain_not_float v Hp)) as (c' & t' & E' & Hc').
    unfold json_dumps. apply (json_loads_found n0); [done|..].
    - rewrite E. by apply skip_ws_stop.
    - by rewrite E.
    - intros c0 t0 E0. rewrite E' in E0. injection E0 as <- _. lia. }
  split; [intros v Hp _; by apply H|]. intros tools Hp _. apply H. cbn [plain].
  induction tools as [|t tools IH]; [done|]. cbn [map forallb] in *.
  apply andb_prop in Hp as [-> Hp]. by apply IH.
Qed.

Lemma json_dumps_reads_back_witness :
  json_loads (json_dumps sample_call) = Some sample_call.
Proof.
  apply (proj1 json_dumps_reads_back); [reflexivity|by vm_compute].
Defined.


(* ===================================================================== *)
(** * The characters of a JSON text *)
(* ===================================================================== *)

Section Chars.
Variable P : N -> Prop.
Hypothesis P_alphabet : Forall P json_alphabet.

Lemma P_in_alphabet c : in_alphabet c = true -> P c.
Proof.
  unfold in_alphabet. rewrite existsb_exists. intros (x & Hx & E).
  apply N.eqb_eq in E as ->. rewrite List.Forall_forall in P_alphabet. auto.
Qed.

Lemma P_literal (l : list N) : forallb in_alphabet l = true -> Forall P l.
Proof.
  rewrite forallb_forall, List.Forall_forall. intros H c Hc.
  by apply P_in_alphabet, H.
Qed.

Lemma P_digit c : is_digit c = true -> P c.
Proof.
  intros H%is_digit_range. apply P_in_alphabet.
  assert (c ∈ [48;49;50;51;52;53;54;55;56;57]) as Hin by (rewrite !elem_of_cons; lia).
  rewrite !elem_of_cons in Hin.
  destruct Hin as [->|[->|[->|[->|[->|[->|[->|[->|[->|[->|H0]]]]]]]]]];
    try reflexivity. by apply elem_of_nil in H0.
Qed.

Lemma P_digits l : forallb is_digit l = true -> Forall P l.
Proof.
  rewrite forallb_forall, List.Forall_forall. intros H c Hc. by apply P_digit, H.
Qed.

Lemma P_dec z : Forall P (dec z).
Proof.
  pose proof (dec_cases z) as Hz. destruct z as [|p|p]; rewrite Hz.
  - by apply P_literal.
  - apply P_digits, digits_are_digits.
  - constructor; [by apply P_in_alphabet|]. apply P_digits, digits_are_digits.
Qed.

Lemma P_zeros n : Forall P (zeros n).
Proof.
  unfold zeros. induction (Z.to_nat n); constructor; [by apply P_in_alphabet|done].
Qed.

Lemma P_float f : Forall P (float_json f).
Proof.
  destruct f as [|[]|[]|neg m e]; try (by apply P_literal).
  cbn [float_json float_repr]. unfold finite_repr.
  destruct (if (e <? 0)%Z then _ else _) as [xn xd].
  destruct (shortest _ _ _ _ _ _ _ _) as [D n].
  apply Forall_app. split; [destruct neg; by apply P_literal|].
  unfold format_repr.
  set (ds := dec (strip_zeros 17 D)). pose proof (P_dec (strip_zeros 17 D)) as Hds.
  fold ds in Hds.
  repeat first
    [ apply Forall_app; split
    | match goal with |- Forall _ (if ?b then _ else _) => destruct b end
    | by apply Forall_take | by apply Forall_drop | apply P_dec | apply P_zeros
    | by apply P_literal | done ].
Qed.

Lemma P_join (sep : list N) (parts : list (list N)) :
  Forall P sep -> Forall (Forall P) parts -> Forall P (join sep parts).
Proof.
  intros Hs. induction 1 as [|p ps Hp Hps IH]; [constructor|].
  destruct ps as [|q ps]; [done|]. cbn [join].
  rewrite !Forall_app. done.
Qed.

Lemma P_indent level : Forall P (newline_indent level).
Proof.
  unfold newline_indent. apply Forall_app. split; [by apply P_literal|].
  induction (2 * level)%nat; constructor; [by apply P_in_alphabet|done].
Qed.

Variable p : N -> bool.
Hypothesis P_escape : forall c, p c = true -> Forall P (escape_ascii c).

Lemma P_string s : forallb p s = true -> Forall P (encode_basestring_ascii s).
Proof.
  intros Hs. unfold encode_basestring_ascii.
  rewrite !Forall_app. split; [by apply P_literal|]. split; [|by apply P_literal].
  induction s as [|c s IH]; [constructor|]. cbn [forallb] in Hs.
  apply andb_prop in Hs as [Hc Hs]. cbn [map concat]. apply Forall_app. auto.
Qed.

(** The characters of the text [json.dumps] writes. *)
Lemma P_dumps v : strings_all p v = true -> forall level, Forall P (dumps_at level v).
Proof.
  induction v as [|b|z|f|s|l IH|d IH] using json_nested_ind; intros Hv level.
  - by apply P_literal.
  - destruct b; by apply P_literal.
  - apply P_dec.
  - apply P_float.
  - by apply P_string.
  - cbn [strings_all] in Hv. destruct l as [|x l]; [change (Forall P (str "[]")); by apply P_literal|].
    cbn [dumps_at]. rewrite !Forall_app.
    split; [by apply P_literal|]. split; [apply P_indent|].
    split; [|split; [apply P_indent|by apply P_literal]].
    apply P_join; [apply Forall_app; split; [by apply P_literal|apply P_indent]|].
    apply Forall_map. rewrite Forall_forall in IH. apply Forall_forall.
    intros y Hy. apply IH; [done|]. rewrite forallb_forall in Hv.
    by apply Hv, list_elem_of_In.
  - cbn [strings_all] in Hv. destruct d as [|kv d]; [change (Forall P (str "{}")); by apply P_literal|].
    cbn [dumps_at]. rewrite !Forall_app.
    split; [by apply P_literal|]. split; [apply P_indent|].
    split; [|split; [apply P_indent|by apply P_literal]].
    apply P_join; [apply Forall_app; split; [by apply P_literal|apply P_indent]|].
    apply Forall_map. rewrite Forall_forall in IH. apply Forall_forall.
    intros y Hy. rewrite forallb_forall in Hv.
    pose proof Hy as Hy'.
    apply list_elem_of_In, Hv, andb_prop in Hy'. destruct Hy' as [Hk Hx].
    rewrite !Forall_app. split; [by apply P_string|].
    split; [by apply P_literal|]. by apply (IH y Hy Hx).
Qed.

End Chars.

Lemma hex_char_range d : d < 16 -> is_ascii_text (hex_char d) = true /\ hex_char d <> 96.
Proof.
  intros H.
  assert (d ∈ [0;1;2;3;4;5;6;7;8;9;10;11;12;13;14;15]) as Hd.
  { rewrite !elem_of_cons. lia. }
  rewrite !elem_of_cons in Hd.
  destruct Hd as [->|[->|[->|[->|[->|[->|[->|[->|[->|[->|[->|[->|[->|[->|[->|[->|H0]]]]]]]]]]]]]]]];
    try done. by apply elem_of_nil in H0.
Qed.

Lemma hex_four_chars (P : N -> Prop) c :
  (forall d, d < 16 -> P (hex_char d)) -> Forall P (hex 4 c).
Proof.
  intros H. rewrite hex_four. repeat constructor; apply H; by apply N.mod_lt.
Qed.

(** The characters an escape sequence is made of. *)
Lemma escape_ascii_chars (P : N -> Prop) c :
  P 92 -> P 34 -> P 110 -> P 114 -> P 116 -> P 102 -> P 98 -> P 117 ->
  (forall d, d < 16 -> P (hex_char d)) ->
  (32 <= c <= 126 -> P c) ->
  Forall P (escape_ascii c).
Proof.
  intros H92 H34 Hn Hr Ht Hf Hb Hu Hhex Hc. unfold escape_ascii.
  repeat match goal with
         | |- Forall _ (if ?c =? ?k then _ else _) =>
             destruct (c =? k); [by repeat constructor|]
         end.
  destruct ((32 <=? c) && (c <=? 126)) eqn:E.
  { apply andb_prop in E as [H1%N.leb_le H2%N.leb_le]. repeat constructor. by apply Hc. }
  change (str "\u") with [92; 117].
  destruct (c <? 65536); rewrite ?Forall_app; repeat split;
    try (by repeat constructor); by apply hex_four_chars.
Qed.

Lemma strings_all_true v : strings_all (fun _ => true) v = true.
Proof.
  induction v as [|b|z|f|s|l IH|d IH] using json_nested_ind; try done.
  - cbn [strings_all]. by induction s.
  - cbn [strings_all]. induction IH as [|x l Hx _ IHl]; [done|].
    cbn [forallb]. by rewrite Hx, IHl.
  - cbn [strings_all]. induction IH as [|x l Hx _ IHl]; [done|].
    cbn [forallb]. rewrite Hx, IHl, andb_true_r. cbn [andb]. by induction (fst x).
Qed.

(** X10.  The text [json.dumps] writes holds nothing but printable ASCII
    characters and line feeds, whatever the strings of the value hold; so
    does the tool list [tools_to_json_for_prompt] writes into the prompt. *)
Theorem tools_json_is_ascii :
  (forall v, forallb is_ascii_text (json_dumps v) = true)
  /\ (forall tools, forallb is_ascii_text (tools_to_json_for_prompt tools) = true).
Proof.
  assert (forall v, forallb is_ascii_text (json_dumps v) = true) as H.
  { intros v. apply forallb_forall. apply List.Forall_forall.
    apply (P_dumps (fun c => is_ascii_text c = true)) with (p := fun _ => true).
    - apply List.Forall_forall, forallb_forall. by vm_compute.
    - intros c _. apply escape_ascii_chars; try done.
      + intros d Hd. by apply hex_char_range.
      + intros [H1 H2]. unfold is_ascii_text.
        apply orb_true_intro. right. apply andb_true_intro.
        split; by apply N.leb_le.
    - apply strings_all_true. }
  split; [exact H|]. intros tools. apply H.
Qed.

(** Without a backquote in its strings, a value is written without one. *)
Lemma dumps_no_backquote v level :
  strings_all (fun c => negb (c =? 96)) v = true ->
  Forall (fun c => c <> 96) (dumps_at level v).
Proof.
  intros Hv. apply (P_dumps (fun c => c <> 96)) with (p := fun c => negb (c =? 96)); [| |done].
  - apply List.Forall_forall. intros c Hc.
    assert (forallb (fun c => negb (c =? 96)) json_alphabet = true) as H by by vm_compute.
    rewrite forallb_forall in H. apply H in Hc. apply negb_true_iff in Hc.
    by apply N.eqb_neq.
  - intros c Hc. apply negb_true_iff, N.eqb_neq in Hc.
    apply escape_ascii_chars; try done. intros d Hd. by apply hex_char_range.
Qed.


(* ===================================================================== *)
(** * The proposed call, read back *)
(* ===================================================================== *)

Lemma search_fenced_skip pre s :
  Forall (fun c => c <> 96) pre ->
  search TOOL_JSON_RE (pre ++ s) = search TOOL_JSON_RE s.
Proof.
  induction 1 as [|c pre Hc _ IH]; [done|].
  cbn [app search]. rewrite match_here_fenced.
  change (after_prefix (str "```json") (c :: pre ++ s))
    with (if 96 =? c then after_prefix (str "``json") (pre ++ s) else None).
  by rewrite (proj2 (N.eqb_neq 96 c)).
Qed.

(** A lazy repetition stops at the first place where the rest matches. *)
Lemma star_lazy_first {A} (k : list N -> option A) mid s r :
  (forall a c b, mid = a ++ c :: b -> k (c :: b ++ s) = None) ->
  k s = Some r ->
  star_lazy any_char k (mid ++ s) = Some r.
Proof.
  intros Hnone Hk. induction mid as [|c mid IH].
  - destruct s; cbn [app star_lazy]; by rewrite Hk.
  - cbn [app star_lazy]. rewrite (Hnone [] c mid eq_refl). cbn [any_char].
    apply IH. intros a c' b ->. apply (Hnone (c :: a)). done.
Qed.

Lemma drop_while_space_stops (b : list N) c t :
  Forall (fun c => c <> 96) b -> is_space c = false -> c <> 96 ->
  exists c' t', drop_while is_space (b ++ c :: t) = c' :: t' /\ c' <> 96.
Proof.
  intros Hb Hc H96. induction Hb as [|x b Hx _ IH]; cbn [app drop_while].
  - rewrite Hc. eauto.
  - destruct (is_space x); [exact IH|eauto].
Qed.

(** The text of a dict opens and closes with a brace. *)
Lemma dumps_dict_braces level d :
  exists mid, dumps_at level (JObj d) = 123 :: mid ++ [125].
Proof.
  destruct d as [|kv d]; [by exists []|]. cbn [dumps_at].
  eexists. change (str "{" ++ ?r) with (123 :: r). f_equal.
  change (str "}") with [125]. rewrite !app_assoc. reflexivity.
Qed.

(** The fenced pattern, on a fenced text that holds no backquote, finds
    that text whole. *)
Lemma search_fenced_text pre mid :
  Forall (fun c => c <> 96) pre ->
  Forall (fun c => c <> 96) mid ->
  search TOOL_JSON_RE
    (pre ++ str "```json" ++ nl ++ (123 :: mid ++ [125]) ++ nl ++ str "```")
  = Some (MatchObj (Some (123 :: mid ++ [125]))).
Proof.
  intros Hpre Hmid. rewrite search_fenced_skip by done.
  change (str "```json" ++ ?r) with (96 :: str "``json" ++ r).
  cbn [search]. rewrite match_here_fenced.
  change (after_prefix (str "```json") (96 :: str "``json" ++ ?r)) with (Some r).
  cbv iota. change (nl ++ ?r) with (10 :: r). cbn [drop_while app].
  change (is_space 10) with true. change (is_space 123) with false. cbv iota.
  change (123 =? 123) with true. cbv iota.
  rewrite <- app_assoc.
  rewrite (star_lazy_first _ mid _
             (MatchObj (Some (123 :: mid ++ [125])))); [done| |].
  - intros a c b ->. unfold fence_tail.
    destruct (N.eqb_spec 125 c) as [<-|]; [|done].
    apply Forall_app in Hmid as [_ Hb]. apply Forall_cons in Hb as [_ Hb].
    destruct (drop_while_space_stops b 125 (nl ++ str "```") Hb) as (c' & t' & E & Hc');
      [done..|].
    cbn [app]. rewrite E.
    change (after_prefix (str "```") (c' :: t'))
      with (if 96 =? c' then after_prefix (str "``") t' else None).
    by rewrite (proj2 (N.eqb_neq 96 c')).
  - unfold fence_tail. cbn [app]. change (125 =? 125) with true. cbv iota.
    change (drop_while is_space (10 :: str "```")) with (str "```").
    change (after_prefix (str "```") (str "```")) with (Some (@nil N)).
    cbv iota. do 3 f_equal.
    exact (take_group 123 125 mid (nl ++ str "```")).
Qed.

(** X11.  The line [on_submit] shows for a proposed call is a fenced block
    [extract_tool_json] reads back: for a tool call that is a dict without
    floats, without surrogate code points and without a backquote in its
    strings, and within the limits of the interpreter (no integer of more
    than 4300 digits, a nesting of at most 100), extracting from
    ["Proposed tool call:\n```json\n" + json.dumps(call, indent=2) +
    "\n```"] gives the call again. *)
Theorem proposed_call_reads_back d :
  plain (JObj d) = true ->
  strings_all (fun c => negb (c =? 96)) (JObj d) = true ->
  within_limits (JObj d) = true ->
  extract_tool_json (proposed_call (json_dumps (JObj d))) = JObj d.
Proof.
  intros Hp Hq _. unfold extract_tool_json, proposed_call, json_dumps.
  destruct (dumps_dict_braces 0 d) as [mid E].
  pose proof (dumps_no_backquote (JObj d) 0 Hq) as Hb.
  pose proof (reads_back_all (JObj d) Hp) as [n0 Hr].
  specialize (Hr n0 0%nat [] (le_n _) eq_refl). rewrite app_nil_r in Hr.
  assert (json_loads (dumps_at 0 (JObj d)) = Some (JObj d)) as Hl.
  { apply (json_loads_found n0); [done|rewrite E..].
    - done.
    - done.
    - by intros c t [= <- _]. }
  rewrite E in *. apply Forall_cons in Hb as [_ Hb].
  apply Forall_app in Hb as [Hb _].
  rewrite (app_assoc (str "Proposed tool call:") nl).
  rewrite (search_fenced_text (str "Proposed tool call:" ++ nl) mid); [|by vm_compute; repeat constructor|done].
  cbn [group1]. by rewrite Hl.
Qed.

Lemma proposed_call_reads_back_witness :
  extract_tool_json (proposed_call (json_dumps sample_call)) = sample_call.
Proof.
  apply (proposed_call_reads_back
           [(str "tool_name", JStr (str "t"));
            (str "arguments", JObj [(str "a", JInt 1)])]);
    [reflexivity|reflexivity|by vm_compute].
Defined.


(* ===================================================================== *)
(** * Facts about the NETCONF service *)
(* ===================================================================== *)

Lemma replace_char c new s :
  replace [c] new s = flat_map (fun x => if c =? x then new else [x]) s.
Proof.
  unfold replace. induction s as [|x s IH]; [done|].
  cbn [replace_from after_prefix flat_map length Nat.sub].
  destruct (c =? x).
  - by rewrite IH.
  - by rewrite IH.
Qed.

Lemma flat_map_flat_map {A B C} (f : A -> list B) (g : B -> list C) l :
  flat_map g (flat_map f l) = flat_map (fun a => flat_map g (f a)) l.
Proof.
  induction l as [|a l IH]; [done|]. cbn [flat_map].
  by rewrite flat_map_app, IH.
Qed.

Lemma escape_flat_map s : _escape s = flat_map xml_entity s.
Proof.
  unfold _escape. change (str ">") with [62]. change (str "<") with [60].
  change (str "&") with [38]. rewrite !replace_char, !flat_map_flat_map.
  apply flat_map_ext. intros c. unfold xml_entity.
  destruct (N.eqb_spec 38 c) as [<-|H38]; [done|].
  destruct (N.eqb_spec c 38) as [->|_]; [done|].
  cbn [flat_map app]. 
  destruct (N.eqb_spec 60 c) as [<-|H60]; [done|].
  destruct (N.eqb_spec c 60) as [->|_]; [done|].
  cbn [flat_map app].
  destruct (N.eqb_spec 62 c) as [<-|H62]; [done|].
  destruct (N.eqb_spec c 62) as [->|_]; done.
Qed.

Lemma xml_entity_cases c :
  (c = 38 /\ xml_entity c = str "&amp;")
  \/ (c = 60 /\ xml_entity c = str "&lt;")
  \/ (c = 62 /\ xml_entity c = str "&gt;")
  \/ (is_markup c = false /\ xml_entity c = [c]).
Proof.
  unfold xml_entity, is_markup.
  destruct (N.eqb_spec c 38) as [->|]; [by left|].
  destruct (N.eqb_spec c 60) as [->|]; [by right; left|].
  destruct (N.eqb_spec c 62) as [->|]; [by right; right; left|].
  by right; right; right.
Qed.

Lemma xml_entity_length c : (1 <= length (xml_entity c))%nat.
Proof.
  destruct (xml_entity_cases c) as [[_ ->]|[[_ ->]|[[_ ->]|[_ ->]]]];
    vm_compute; lia.
Qed.

Lemma escape_length s : (length s <= length (_escape s))%nat.
Proof.
  rewrite escape_flat_map. induction s as [|c s IH]; [done|].
  cbn [flat_map]. rewrite length_app. pose proof (xml_entity_length c).
  cbn [length]. lia.
Qed.

(** X12.  The three replacements of [_escape], made one after the other, act
    as one substitution on each character by itself: the empty text stays
    empty, a text in two parts is escaped part by part, and a single
    character becomes [&amp;], [&lt;] or [&gt;] when it is [&], [<] or [>],
    and stays as it is otherwise.  (So the ampersand of an entity that a
    later replacement writes is not escaped again.) *)
Theorem escape_character_by_character :
  _escape [] = []
  /\ (forall c, _escape [c] = xml_entity c)
  /\ (forall s t, _escape (s ++ t) = _escape s ++ _escape t).
Proof.
  split; [done|]. split.
  - intros c. rewrite escape_flat_map. cbn [flat_map]. apply app_nil_r.
  - intros s t. rewrite !escape_flat_map. apply flat_map_app.
Qed.

(** X13.  The text [_escape] returns holds no [<] and no [>], whatever it is
    given. *)
Theorem escape_leaves_no_angle_bracket s :
  Forall (fun c => c <> 60 /\ c <> 62) (_escape s).
Proof.
  rewrite escape_flat_map. induction s as [|c s IH]; [constructor|].
  cbn [flat_map]. apply Forall_app. split; [|done].
  destruct (xml_entity_cases c) as [[_ ->]|[[_ ->]|[[_ ->]|[Hc ->]]]];
    try (repeat constructor; done).
  repeat constructor; intros ->; done.
Qed.

(** X14.  [_escape] loses nothing: two texts with the same escaped form are
    the same text. *)
Theorem escape_injective s t : _escape s = _escape t -> s = t.
Proof.
  rewrite !escape_flat_map. revert t.
  induction s as [|c s IH]; intros [|d t]; cbn [flat_map].
  - done.
  - intros H. apply (f_equal length) in H. rewrite length_app in H.
    pose proof (xml_entity_length d). cbn [length] in H. lia.
  - intros H. apply (f_equal length) in H. rewrite length_app in H.
    pose proof (xml_entity_length c). cbn [length] in H. lia.
  - destruct (xml_entity_cases c) as [[-> ->]|[[-> ->]|[[-> ->]|[Hc ->]]]];
    destruct (xml_entity_cases d) as [[-> ->]|[[-> ->]|[[-> ->]|[Hd ->]]]];
      cbn; intros H; try discriminate H;
      try (injection H as H; f_equal; by apply IH);
      try (injection H as <- H; f_equal; by apply IH);
      try (injection H as -> H; by discriminate Hc);
      try (injection H as <- H; by discriminate Hd).
Qed.

Lemma escape_injective_witness :
  _escape (str "a<b") = _escape (str "a<b") /\ str "a<b" = str "a<b".
Proof.
  split; [reflexivity|]. apply (escape_injective (str "a<b") (str "a<b")).
  reflexivity.
Defined.

(** X15.  [_escape] returns its argument unchanged exactly when the argument
    holds none of [&], [<], [>]. *)
Theorem escape_fixes_plain_text s :
  _escape s = s <-> forallb (fun c => negb (is_markup c)) s = true.
Proof.
  induction s as [|c s IH]; [done|]. cbn [forallb].
  pose proof (escape_length s) as Hlen. revert Hlen IH.
  rewrite !escape_flat_map. cbn [flat_map]. intros Hlen IH.
  destruct (xml_entity_cases c) as [[-> ->]|[[-> ->]|[[-> ->]|[Hc ->]]]].
  1-3: split; [|done]; intros H; apply (f_equal length) in H;
       rewrite length_app in H; unfold str in H; cbn in H; lia.
  rewrite Hc. cbn [negb andb app]. rewrite <- IH.
  split; [by intros [= ?]|by intros ->].
Qed.

Lemma escape_fixes_plain_text_witness :
  _escape (str "eth0 up") = str "eth0 up".
Proof. apply (proj2 (escape_fixes_plain_text (str "eth0 up"))). reflexivity. Defined.

Lemma lookup_repeat_lt {A} (x : A) n i :
  (i < n)%nat -> repeat x n !! i = Some x.
Proof.
  revert i. induction n as [|n IH]; intros [|i] Hi; cbn; try lia; [done|].
  apply IH. lia.
Qed.

(** X16.  The mask of a value that is not empty has the length of the value.
    Each of its characters is a star, except the first two and the last
    two of a value longer than four characters, which are the value's own:
    a value of four characters or fewer is hidden entirely, and of a longer
    one nothing but those four characters is shown. *)
Theorem mask_shows_four_at_most (v : list N) :
  v <> [] ->
  length (_mask (Some v)) = length v
  /\ forall i, (i < length v)%nat ->
       _mask (Some v) !! i = if shown (length v) i then v !! i else Some 42.
Proof.
  intros Hv. unfold _mask, shown.
  replace (text_eqb v []) with false
    by (symmetry; unfold text_eqb; by apply bool_decide_eq_false_2).
  destruct (Nat.leb_spec (length v) 4) as [Hle|Hgt].
  - rewrite repeat_length. split; [done|]. intros i Hi.
    replace (4 <? length v)%nat with false by (symmetry; apply Nat.ltb_ge; lia).
    cbn [andb]. apply lookup_repeat_lt. lia.
  - split.
    { rewrite !length_app, length_take, repeat_length, length_drop. lia. }
    intros i Hi.
    replace (4 <? length v)%nat with true by (symmetry; apply Nat.ltb_lt; lia).
    cbn [andb].
    destruct (Nat.ltb_spec i 2) as [H2|H2]; cbn [orb].
    { rewrite lookup_app_l by (rewrite length_take; lia).
      by rewrite lookup_take_lt. }
    rewrite lookup_app_r by (rewrite length_take; lia).
    rewrite length_take. replace (2 `min` length v)%nat with 2%nat by lia.
    destruct (Nat.leb_spec (length v - 2) i) as [H3|H3].
    + rewrite lookup_app_r by (rewrite repeat_length; lia).
      rewrite repeat_length, lookup_drop. f_equal. lia.
    + rewrite lookup_app_l by (rewrite repeat_length; lia).
      apply lookup_repeat_lt. lia.
Qed.

Lemma mask_shows_four_at_most_witness :
  length (_mask (Some (str "hunter2"))) = 7%nat
  /\ _mask (Some (str "hunter2")) = str "hu***r2".
Proof.
  destruct (mask_shows_four_at_most (str "hunter2")) as [H _]; [done|].
  split; [exact H|reflexivity].
Defined.

(** X17.  [_mask] answers [<empty>] for [None] and for the empty string, and
    for nothing else: no value that is not empty has that mask. *)
Theorem mask_empty_marker (v : option (list N)) :
  _mask v = str "<empty>" <-> str_true v = false.
Proof.
  destruct v as [[|c v]|]; [done| |done]. cbn [str_true]. split; [|done].
  unfold _mask. change (text_eqb (c :: v) []) with false. cbv iota.
  set (t := c :: v).
  destruct (Nat.leb_spec (length t) 4) as [Hle|Hgt].
  - subst t. cbn [length repeat]. intros H. discriminate H.
  - intros H. pose proof (f_equal length H) as HL.
    rewrite !length_app, length_take, repeat_length, length_drop in HL.
    change (length (str "<empty>")) with 7%nat in HL.
    assert (length t = 7%nat) as E by lia.
    apply (f_equal (fun l => l !! 2%nat)) in H.
    rewrite lookup_app_r in H by (rewrite length_take; lia).
    rewrite length_take, E in H. discriminate H.
Qed.

Lemma mask_empty_marker_witness :
  _mask (Some []) = str "<empty>" /\ _mask (Some (str "<empty>")) <> str "<empty>".
Proof.
  split.
  - apply (proj2 (mask_empty_marker (Some []))). reflexivity.
  - intros H. apply (proj1 (mask_empty_marker (Some (str "<empty>")))) in H.
    discriminate H.
Defined.

Lemma text_eqb_eq (a b : list N) : text_eqb a b = true <-> a = b.
Proof. unfold text_eqb. apply bool_decide_eq_true. Qed.

Lemma text_eqb_refl (a : list N) : text_eqb a a = true.
Proof. by apply text_eqb_eq. Qed.

Lemma text_eqb_ne (a b : list N) : a <> b -> text_eqb a b = false.
Proof. intros H. unfold text_eqb. by apply bool_decide_eq_false_2. Qed.

Lemma dict_get_set_eq k v d : dict_get k (dict_set k v d) = Some v.
Proof.
  induction d as [|[k' v'] d IH]; cbn [dict_set dict_get].
  - by rewrite text_eqb_refl.
  - destruct (text_eqb k k') eqn:E; cbn [dict_get]; rewrite E; [done|apply IH].
Qed.

Lemma dict_get_set_ne k k' v d :
  k <> k' -> dict_get k (dict_set k' v d) = dict_get k d.
Proof.
  intros Hne. induction d as [|[k0 v0] d IH]; cbn [dict_set dict_get].
  - by rewrite text_eqb_ne.
  - destruct (text_eqb k' k0) eqn:E; cbn [dict_get].
    + apply text_eqb_eq in E as <-. by rewrite text_eqb_ne.
    + by rewrite IH.
Qed.

Lemma dict_get_None k (d : list (list N * json)) :
  k ∉ d.*1 -> dict_get k d = None.
Proof.
  induction d as [|[k' v'] d IH]; [done|]. cbn [fmap list_fmap fst dict_get].
  intros H. apply not_elem_of_cons in H as [Hne H]. rewrite text_eqb_ne by done.
  by apply IH.
Qed.

Section AppFacts.
Context {W : Type} (service : Service W).
Implicit Types σ : server W.

(** X18.  The keyword arguments [_device] builds always hold a user name and
    a password that are strings, and the user name is never empty: it is
    the request's when that is given and not empty, else the value of
    [NETCONF_USER] when that is set and not empty, else [lab]; the password
    is found in the same way from the request and [NETCONF_PASS], and is
    the empty string when neither gives one.  One message is logged, and
    what it holds of the password is its mask. *)
Theorem device_credentials (req : BaseConn) σ :
  let u := first_nonempty [username req; environ σ !! str "NETCONF_USER"] (str "lab") in
  let p := first_nonempty [password req; environ σ !! str "NETCONF_PASS"] [] in
  u <> []
  /\ exists d pre post,
       _device req σ
       = (JObj d, Server (environ σ) (logged σ ++ [pre ++ _mask (Some p) ++ post])
                    (sessions σ) (network σ))
       /\ dict_get (str "auth_username") d = Some (JStr u)
       /\ dict_get (str "auth_password") d = Some (JStr p)
       /\ dict_get (str "host") d = Some (JStr (host req))
       /\ dict_get (str "port") d = Some (JInt (port req)).
Proof.
  intros u p.
  assert (str_or (username req) (_env (environ σ) (str "NETCONF_USER") (Some (str "lab")))
          = Some u /\ u <> []) as [Eu Hu].
  { unfold u, first_nonempty, str_or, _env. cbn [omap list_omap].
    destruct (username req) as [[|c t]|]; cbn [str_true]; try done;
      destruct (environ σ !! str "NETCONF_USER") as [[|c' t']|]; done. }
  assert (str_or (password req) (_env (environ σ) (str "NETCONF_PASS") (Some []))
          = Some p) as Ep.
  { unfold p, first_nonempty, str_or, _env. cbn [omap list_omap].
    destruct (password req) as [[|c t]|]; cbn [str_true]; try done;
      destruct (environ σ !! str "NETCONF_PASS") as [[|c' t']|]; done. }
  split; [done|]. unfold _device. rewrite Eu, Ep. cbn [str_of opt_str from_option].
  eexists _, (str "NETCONF connect host=" ++ host req ++ str " port="
               ++ dec (port req) ++ str " user=" ++ u ++ str " pass="),
    (str " timeout_ops=" ++ dec (timeout_ops req)).
  split; [by rewrite <- !app_assoc|]. repeat split.
Qed.

End AppFacts.

Lemma merge_fold_lookup (ov data : list (list N * json)) k :
  NoDup ov.*1 ->
  dict_get k
    (fold_left
       (fun data kv =>
          match kv.2 with
          | JNull => data
          | v => dict_set kv.1 v data
          end) ov data)
  = overridden (dict_get k ov) (dict_get k data).
Proof.
  revert data. induction ov as [|[k0 v0] ov IH]; intros data Hnd; [done|].
  cbn [fmap list_fmap fst] in Hnd. apply NoDup_cons in Hnd as [Hk0 Hnd].
  cbn [fold_left fst snd dict_get]. rewrite IH by done.
  destruct (text_eqb k k0) eqn:E.
  - apply text_eqb_eq in E as ->. rewrite dict_get_None by done.
    cbn [overridden]. destruct v0; try apply dict_get_set_eq. done.
  - assert (k <> k0) as Hne by (intros ->; by rewrite text_eqb_refl in E).
    f_equal. destruct v0; try done; by apply dict_get_set_ne.
Qed.

(** X19.  [_merge_to_model] hands [model_cls] the fields of the body with the
    keyword arguments laid over them: for every name, the value is the
    keyword argument of that name when there is one and it is not [None]
    (be it [False], [0] or the empty string), and else the value the body
    has, if any.  A keyword argument that is [None] changes nothing. *)
Theorem query_overrides_body {A} (model_cls : list (list N * json) -> result A)
    (body : option (list (list N * json))) (overrides : list (list N * json)) :
  NoDup overrides.*1 ->
  exists data,
    _merge_to_model model_cls body overrides = model_cls data
    /\ forall k, dict_get k data
                 = overridden (dict_get k overrides) (dict_get k (default [] body)).
Proof.
  intros Hnd. unfold _merge_to_model. eexists. split; [reflexivity|].
  intros k. by apply merge_fold_lookup.
Qed.

Lemma query_overrides_body_witness :
  exists data,
    _merge_to_model Val
      (Some [(str "host", JStr (str "a")); (str "confirmed", JBool true)])
      [(str "host", JNull); (str "confirmed", JBool false); (str "port", JInt 22)]
    = Val data
    /\ dict_get (str "host") data = Some (JStr (str "a"))
    /\ dict_get (str "confirmed") data = Some (JBool false)
    /\ dict_get (str "port") data = Some (JInt 22).
Proof.
  destruct (query_overrides_body Val
              (Some [(str "host", JStr (str "a")); (str "confirmed", JBool true)])
              [(str "host", JNull); (str "confirmed", JBool false);
               (str "port", JInt 22)]) as (data & E & H).
  { vm_compute. compute_done. }
  exists data. split; [exact E|]. rewrite !H. repeat split.
Defined.

Section EndpointFacts.
Context {W : Type} (service : Service W).
Implicit Types σ : server W.

Lemma device_logs req σ :
  exists dev msg,
    _device req σ
    = (dev, Server (environ σ) (logged σ ++ [msg]) (sessions σ) (network σ)).
Proof. unfold _device. eauto. Qed.



(** X21.  What [netconf_get_config] asks of the device is what the validated
    request says, and it never hands the driver an empty filter.  When the
    model does not validate, the endpoint raises and opens no session.
    Else it opens one session, with the keyword arguments [_device] builds
    for the request, and asks for the configuration of the request's
    source: with the request's filter when that is a string that is not
    empty, and without a filter when the request has none or an empty one.
    An answer names the same source, beside the device's result. *)
Theorem get_config_filter_not_empty σ body host port timeout_ops username
    password source filter_xml :
  let run := netconf_get_config service body host port timeout_ops username
               password source filter_xml σ in
  match _merge_to_model (GetConfigRequest_new service)
          (GetConfigRequest_dict <$> body)
          [ (str "host", opt_str host); (str "port", opt_int port);
            (str "timeout_ops", opt_int timeout_ops);
            (str "username", opt_str username);
            (str "password", opt_str password);
            (str "source", opt_str source);
            (str "filter_xml", opt_str filter_xml) ] with
  | Raises e => run = (Raises e, σ)
  | Val req =>
      let dev := (_device (get_conn req) σ).1 in
      let flt := nonempty (App.filter_xml req) in
      let op := GetConfig (App.source req) flt in
      let rsp := (session service dev op (network σ)).1 in
      flt <> Some []
      /\ sessions run.2 = sessions σ ++ [(dev, op, rsp)]
      /\ match rsp with
         | Raises e => run.1 = Raises e
         | Val result =>
             run.1 = Val (JObj [ (str "ok", JBool true);
                                 (str "source", JStr (App.source req));
                                 (str "result", JStr result) ])
         end
  end.
Proof.
  unfold netconf_get_config.
  destruct (_merge_to_model _ _ _) as [req|e]; [|done].
  destruct (device_logs (get_conn req) σ) as (dev' & msg & E).
  rewrite E. cbn [fst]. unfold run_session. cbn [network environ logged sessions].
  assert ((if str_true (App.filter_xml req)
           then GetConfig (App.source req) (App.filter_xml req)
           else GetConfig (App.source req) None)
          = GetConfig (App.source req) (nonempty (App.filter_xml req))) as ->.
  { by destruct (App.filter_xml req) as [[|c f]|]. }
  split; [by destruct (App.filter_xml req) as [[|c f]|]|].
  destruct (session _ _ _ _) as [[t|e] w']; by cbn [fst snd sessions].
Qed.

End EndpointFacts.

Lemma count_occ_none (l : list N) c :
  Forall (fun x => x <> c) l -> count_occ N.eq_dec l c = 0%nat.
Proof.
  intros H. apply count_occ_not_In. rewrite List.Forall_forall in H.
  intros Hin. by apply (H c).
Qed.

Lemma dec_no_angle z c : c = 60 \/ c = 62 -> count_occ N.eq_dec (dec z) c = 0%nat.
Proof.
  intros Hc. apply count_occ_none. apply P_dec.
  apply List.Forall_forall. intros x Hx.
  assert (forallb (fun x => negb (x =? 60) && negb (x =? 62)) json_alphabet = true)
    as H by by vm_compute.
  rewrite forallb_forall in H. apply H, andb_prop in Hx as [H1 H2].
  apply negb_true_iff, N.eqb_neq in H1, H2. by destruct Hc as [-> | ->].
Qed.

Lemma escape_no_angle s c :
  c = 60 \/ c = 62 -> count_occ N.eq_dec (_escape s) c = 0%nat.
Proof.
  intros Hc. apply count_occ_none. rewrite escape_flat_map.
  induction s as [|x s IH]; [constructor|]. cbn [flat_map].
  apply Forall_app. split; [|done].
  destruct (xml_entity_cases x) as [[_ ->]|[[_ ->]|[[_ ->]|[Hx ->]]]];
    try (destruct Hc as [-> | ->]; repeat constructor; done).
  repeat constructor. intros ->. by destruct Hc as [-> | ->].
Qed.

(** X22.  The RPC [netconf_commit] sends has two opening and two closing
    angle brackets more when a comment is given than when none is, and as
    many opening as closing ones, whatever the comment holds: with a
    comment that is not empty it has four of each (the element
    [commit-configuration] and the element [log]), without one two.  A
    comment cannot add markup to the RPC. *)
Theorem commit_rpc_markup (req : CommitRequest) :
  angle_brackets (commit_rpc req)
  = if str_true (comment req) then (4, 4)%nat else (2, 2)%nat.
Proof.
  unfold angle_brackets, commit_rpc.
  destruct (confirmed req), (str_true (comment req));
    rewrite !count_occ_app, ?dec_no_angle, ?escape_no_angle by auto; reflexivity.
Qed.

